(** * s3fs: the virtual filesystem engine of [s3fs/core.py]

    A shallow embedding of the path resolver, the directory cache, the
    remote call gateway and the buffered multipart writer of
    [s3fs.core], with the properties the specification states about them.

    Python values are modelled as follows: [str] is [string], [bytes] is
    [list byte], [int] is [Z], a [dict] used as a map is a [gmap], and an
    exception is a value of [exn] returned through the error branch of
    the effect monad [M]. *)

From Stdlib Require Import ZArith QArith Qminmax Qpower Lia Ascii String.
From stdpp Require Import base strings list gmap.

Local Open Scope string_scope.
Local Open Scope Z_scope.
Local Open Scope list_scope.

(* ===================================================================== *)
(** ** Python string methods used by the path code *)
(* ===================================================================== *)

Module Py.

Definition slash : ascii := "/"%char.

Definition is_slash (c : ascii) : bool := bool_decide (c = slash).

(** [s.lstrip("/")] *)
Fixpoint lstrip_slash (s : string) : string :=
  match s with
  | String c s' => if is_slash c then lstrip_slash s' else s
  | EmptyString => EmptyString
  end.

(** [s.rstrip("/")] *)
Fixpoint rstrip_slash (s : string) : string :=
  match s with
  | String c s' =>
      match rstrip_slash s' with
      | EmptyString => if is_slash c then EmptyString else String c EmptyString
      | r => String c r
      end
  | EmptyString => EmptyString
  end.

(** [s.strip("/")] *)
Definition strip_slash (s : string) : string := rstrip_slash (lstrip_slash s).

(** ["/" in s] *)
Fixpoint has_slash (s : string) : bool :=
  match s with
  | String c s' => is_slash c || has_slash s'
  | EmptyString => false
  end.

(** [s.startswith(p)] *)
Fixpoint startswith (p s : string) : bool :=
  match p, s with
  | EmptyString, _ => true
  | String a p', String b s' => bool_decide (a = b) && startswith p' s'
  | String _ _, EmptyString => false
  end.

(** [s[n:]] for [0 <= n] *)
Fixpoint drop (n : nat) (s : string) : string :=
  match n, s with
  | O, _ => s
  | S n', String _ s' => drop n' s'
  | S _, EmptyString => EmptyString
  end.

(** [sub in s] *)
Fixpoint contains (sub s : string) : bool :=
  startswith sub s ||
  match s with
  | String _ s' => contains sub s'
  | EmptyString => false
  end.

(** [s.split("/", 1)] on a string that holds a slash: the text before the
    first slash and the text after it. *)
Fixpoint split_slash_1 (s : string) : string * string :=
  match s with
  | String c s' =>
      if is_slash c then (EmptyString, s')
      else let '(a, b) := split_slash_1 s' in (String c a, b)
  | EmptyString => (EmptyString, EmptyString)
  end.

(** [s.rsplit("/", 1)[0]]: the text before the last slash, the whole
    string when it holds none. *)
Fixpoint rsplit_slash_head (s : string) : string :=
  match s with
  | String c s' =>
      if has_slash s' then String c (rsplit_slash_head s')
      else if is_slash c then EmptyString
      else String c (rsplit_slash_head s')
  | EmptyString => EmptyString
  end.

(** [s.partition(sep)] for a non-empty [sep]: [(before, sep, after)] at the
    first occurrence, [(s, "", "")] when there is none. *)
Fixpoint partition (sep s : string) : string * string * string :=
  if startswith sep s then (EmptyString, sep, drop (String.length sep) s)
  else match s with
       | String c s' =>
           let '(a, m, b) := partition sep s' in (String c a, m, b)
       | EmptyString => (EmptyString, EmptyString, EmptyString)
       end.

(** [s[:-1]] *)
Fixpoint drop_last (s : string) : string :=
  match s with
  | String c EmptyString => EmptyString
  | String c s' => String c (drop_last s')
  | EmptyString => EmptyString
  end.

(** [s.split("/")] *)
Fixpoint split_slash (s : string) : list string :=
  match s with
  | String c s' =>
      if is_slash c then EmptyString :: split_slash s'
      else match split_slash s' with
           | x :: xs => String c x :: xs
           | [] => [String c EmptyString]
           end
  | EmptyString => [EmptyString]
  end.

(** ["/".join([a, b])] *)
Definition join_slash (a b : string) : string := a +:+ "/" +:+ b.

(** Truthiness of a [str]. *)
Definition truthy (s : string) : bool := negb (bool_decide (s = EmptyString)).

(** Truthiness of an optional [str] ([None] and [""] are false). *)
Definition truthy_opt (o : option string) : bool :=
  match o with Some s => truthy s | None => false end.

End Py.

(* ===================================================================== *)
(** ** The filesystem base class *)
(* ===================================================================== *)

Module AbstractFileSystem.

(** [S3FileSystem.protocol] *)
Definition protocol : list string := ["s3"; "s3a"].

(** [S3FileSystem.root_marker] *)
Definition root_marker : string := "".

(** One round of the protocol loop: a leading ["proto://"] or
    ["proto::"] is cut off. *)
Definition strip_one (proto path : string) : string :=
  if Py.startswith (proto +:+ "://") path
  then Py.drop (String.length proto + 3)%nat path
  else if Py.startswith (proto +:+ "::") path
  then Py.drop (String.length proto + 2)%nat path
  else path.

(** Modelled from the spec: [_strip_protocol] is inherited from the
    filesystem base class, which is not part of the sources. The path
    resolver "strips any scheme prefix": each protocol of the class is
    tried in turn, trailing slashes are dropped and an empty result is
    the root marker. *)
Definition _strip_protocol (path : string) : string :=
  let path := fold_left (fun p proto => strip_one proto p) protocol path in
  let path := Py.rstrip_slash path in
  if Py.truthy path then path else root_marker.

(** Modelled from the spec: [_parent] is inherited from the filesystem
    base class, which is not part of the sources. The parent of a path
    is the text before its last separator, and the root marker when
    the path holds no separator ("a change at a/b/c invalidates cache
    entries for a/b, a"). *)
Definition _parent (path : string) : string :=
  let path := _strip_protocol path in
  if Py.has_slash path
  then root_marker +:+ Py.rsplit_slash_head path
  else root_marker.

End AbstractFileSystem.

(* ===================================================================== *)
(** ** Exceptions *)
(* ===================================================================== *)

(** An argument of an exception ([ex.args]). *)
Inductive pyarg := AInt (z : Z) | AStr (s : string).

(** The classes of the [OSError] family the engine tells apart. *)
Inductive os_kind := IOErrorK | FileNotFoundK | FileExistsK | PermissionK.

Global Instance os_kind_eq_dec : EqDecision os_kind.
Proof. solve_decision. Defined.

(** The exceptions the engine raises itself or receives from the client
    library. [OSError k args] is an exception of class [k] (a subclass of
    [OSError], or [OSError] itself) with [ex.args = args]. [ClientError]
    is botocore's error for a remote error response; [OtherError] stands
    for any further exception of the client library, known by its text. *)
Inductive exn :=
| ValueError (msg : string)
| KeyError (key : string)
| TypeError (msg : string)
| IndexError
| RuntimeError
| UnboundLocalError (var : string)
| OSError (k : os_kind) (args : list pyarg)
| FileExpired (filename : string) (e_tag : string)
| SocketTimeout
| ClientError (code message operation : string)
| ParamValidationError (message : string)
| NotImplementedError (msg : string)
| AttributeError (msg : string)
| OtherError (text : string).

Definition FileNotFoundError (path : string) : exn := OSError FileNotFoundK [AStr path].
Definition FileExistsError : exn := OSError FileExistsK [].

Definition is_FileNotFoundError (e : exn) : bool :=
  match e with OSError FileNotFoundK _ => true | _ => false end.
Definition is_FileExistsError (e : exn) : bool :=
  match e with OSError FileExistsK _ => true | _ => false end.
Definition is_PermissionError (e : exn) : bool :=
  match e with OSError PermissionK _ => true | _ => false end.
Definition is_ClientError (e : exn) : bool :=
  match e with ClientError _ _ _ => true | _ => false end.
Definition is_ParamValidationError (e : exn) : bool :=
  match e with ParamValidationError _ => true | _ => false end.

(** [except OSError]: the exceptions of the [OSError] family, which
    [socket.timeout] and [FileExpired] belong to. *)
Definition is_OSError (e : exn) : bool :=
  match e with
  | OSError _ _ | FileExpired _ _ | SocketTimeout => true
  | _ => false
  end.

(** [errno.EBUSY] *)
Definition EBUSY : Z := 16.

(** [ex.args] of an exception of the [OSError] family *)
Definition exn_args (e : exn) : list pyarg :=
  match e with
  | OSError _ args => args
  | FileExpired filename e_tag =>
      [AInt EBUSY; AStr ("The remote file corresponding to filename "
                         +:+ filename +:+ " and Etag " +:+ e_tag
                         +:+ " no longer exists.")]
  | SocketTimeout => [AStr "timed out"]
  | _ => []
  end.

(** [errno.EINVAL] *)
Definition EINVAL : Z := 22.

(** [str(err)] as far as the engine looks at it. *)
Definition exn_str (e : exn) : string :=
  match e with
  | ValueError msg | TypeError msg | ParamValidationError msg
  | NotImplementedError msg | AttributeError msg => msg
  | KeyError k => k
  | UnboundLocalError v => v
  | FileExpired f _ => f
  | IndexError | RuntimeError => ""
  | OSError _ args =>
      match args with
      | [AStr s] => s
      | [AInt _; AStr s] => s
      | _ => ""
      end
  | SocketTimeout => "timed out"
  | ClientError code message operation =>
      "An error occurred (" +:+ code +:+ ") when calling the " +:+ operation
      +:+ " operation: " +:+ message
  | OtherError text => text
  end.

(* ===================================================================== *)
(** ** Module-level helpers of [s3fs.core] *)
(* ===================================================================== *)

(** [MANAGED_COPY_THRESHOLD] *)
Definition MANAGED_COPY_THRESHOLD : Z := 5 * 2 ^ 30.

(** [S3_RETRYABLE_ERRORS = (socket.timeout,)] *)
Definition S3_RETRYABLE_ERRORS (e : exn) : bool :=
  match e with SocketTimeout => true | _ => false end.

(** [key_acls] *)
Definition key_acls : list string :=
  ["private"; "public-read"; "public-read-write"; "authenticated-read";
   "aws-exec-read"; "bucket-owner-read"; "bucket-owner-full-control"].

(** [buck_acls] *)
Definition buck_acls : list string :=
  ["private"; "public-read"; "public-read-write"; "authenticated-read"].

(** [version_id_kw]: the [VersionId] keyword, present only for a truthy
    version id. *)
Definition version_id_kw (version_id : option string) : option string :=
  if Py.truthy_opt version_id then version_id else None.

(** [set(args)]: the distinct elements, kept in order of first
    appearance. *)
Fixpoint py_set {A} `{EqDecision A} (l : list A) : list A :=
  match l with
  | [] => []
  | x :: l' => x :: filter (λ y, y ≠ x) (py_set l')
  end.

(** [_coalesce_version_id], applied to the list of its arguments. *)
Definition _coalesce_version_id (args : list (option string))
  : exn + option string :=
  let version_ids := py_set args in
  let version_ids := filter (λ v, v ≠ None) version_ids in
  if decide (1 < length version_ids)%nat then
    inl (ValueError "Cannot coalesce version_ids where more than one are defined")
  else
    match version_ids with
    | [] => inr None
    | v :: _ => inr v
    end.

(** [S3FileSystem.split_path]; [version_aware] is the attribute of the
    filesystem instance. *)
Definition split_path (version_aware : bool) (path : string)
  : string * string * option string :=
  let path := AbstractFileSystem._strip_protocol path in
  let path := Py.lstrip_slash path in
  if negb (Py.has_slash path) then (path, "", None)
  else
    let '(bucket, keypart) := Py.split_slash_1 path in
    let '(key, _, version_id) := Py.partition "?versionId=" keypart in
    (bucket, key,
     if version_aware && Py.truthy version_id then Some version_id else None).

(* ===================================================================== *)
(** ** Data model *)
(* ===================================================================== *)

(** [bytes] *)
Definition bytes : Type := list Byte.byte.

(** A listing entry, the value the directory cache holds per path. The
    fields are the dictionary keys the engine reads and writes; [ETag],
    [LastModified] and [VersionId] are absent on synthesized
    directories. *)
Record entry := {
  e_Key : string;
  e_name : string;
  e_Size : Z;
  e_size : Z;
  e_type : string;
  e_StorageClass : string;
  e_ETag : option string;
  e_LastModified : option string;
  e_VersionId : option string;
}.

Global Instance entry_eq_dec : EqDecision entry.
Proof. solve_decision. Defined.

(** An object of a [Contents] list of a listing response. *)
Record s3_object := {
  o_Key : string;
  o_Size : Z;
  o_ETag : option string;
  o_LastModified : option string;
  o_StorageClass : string;
  o_VersionId : option string;
}.

(** One page of a [list_objects_v2] response; [CommonPrefixes] holds the
    [Prefix] of each element. *)
Record list_page := {
  Contents : list s3_object;
  CommonPrefixes : list string;
  KeyCount : Z;
}.

(** A committed part of a multipart session. *)
Record part := {
  PartNumber : Z;
  part_ETag : string;
}.

Global Instance part_eq_dec : EqDecision part.
Proof. solve_decision. Defined.

(** The response of [head_object]. *)
Record head_reply := {
  h_ETag : string;
  h_LastModified : string;
  h_ContentLength : Z;
  h_VersionId : option string;
}.

(** The response of a write ([put_object], [complete_multipart_upload]). *)
Record write_result := {
  w_VersionId : option string;
}.

(** The requests the engine sends to the object store client, indexed by
    the type of the response. Keyword arguments that the engine only
    passes through are gathered in [kwargs]. *)
Definition kwargs := list (string * string).

(** The bounds of a [Range] header, [bytes=<first>-<last>]; a bound that
    is left out is the empty string in the header. *)
Definition byte_range : Type := option Z * option Z.

Inductive request : Type -> Type :=
| put_object (Bucket Key : string) (Body : option bytes) (kw : kwargs)
  : request write_result
| create_multipart_upload (Bucket Key : string) (kw : kwargs)
  : request string
| upload_part (Bucket Key : string) (PartNumber : Z) (UploadId : string)
    (Body : bytes)
  : request string
| upload_part_copy (Bucket Key : string) (PartNumber : Z) (UploadId : string)
    (CopySource : string) (CopySourceRange : option (Z * Z))
  : request string
| complete_multipart_upload (Bucket Key : string) (UploadId : string)
    (Parts : list part)
  : request write_result
| abort_multipart_upload (Bucket Key : string) (UploadId : string)
  : request unit
| get_object (Bucket Key : string) (Range : option byte_range)
    (VersionId : option string) (kw : kwargs)
  : request bytes
| head_object (Bucket Key : string) (VersionId : option string) (kw : kwargs)
  : request head_reply
| list_objects_v2 (Bucket Prefix Delimiter : string) (MaxKeys : option Z)
    (kw : kwargs)
  : request list_page
| paginate_list_objects_v2 (Bucket Prefix Delimiter : string)
    (MaxItems : option Z) (kw : kwargs)
  : request (list list_page)
| list_buckets : request (list string)
| create_bucket (Bucket ACL : string) (LocationConstraint : option string)
  : request unit
| delete_bucket (Bucket : string) : request unit
| delete_objects (Bucket : string) (Keys : list string) (kw : kwargs)
  : request unit
| delete_object (Bucket Key : string) : request unit
| copy_object (Bucket Key : string) (CopySource : string * string * option string)
    (kw : kwargs)
  : request unit.

(** The object store client, a collaborator of the engine: [serve]
    answers one invocation of a client method, with a response or with
    the exception the invocation raises, and moves the remote state on.
    [in_flight e] is what awaiting the response still in flight raises
    when the client library surfaced the plumbing error [e] instead of
    the remote response ([None]: awaiting it raises nothing).
    [translate_boto_error] is the translation of [s3fs.errors] into the
    domain errors; that module is not part of the sources and the
    translation is a parameter of the development. *)
Class Client := {
  remote : Type;
  serve : forall T, remote -> request T -> (exn + T) * remote;
  in_flight : exn -> option exn;
  translate_boto_error : exn -> exn;
}.

(** Observable actions, in program order. [Attempt r None] is an
    invocation of a client method that returned, [Attempt r (Some e)] one
    that raised [e]; [Sleep d] is [asyncio.sleep(d)], in seconds;
    [Invalidate p] is a call [invalidate_cache(p)]. *)
Inductive event :=
| Attempt {T} (r : request T) (raised : option exn)
| Sleep (d : Q)
| Invalidate (path : option string).


(** The events that are attempts at [upload_part], with the number and
    the body of the part when the attempt succeeded. *)
Definition uploaded (ev : event) : option (Z * bytes) :=
  match ev with
  | Attempt r None =>
      match r with upload_part _ _ n _ body => Some (n, body) | _ => None end
  | _ => None
  end.

(** The parts uploaded in a trace, in the order of their upload: the
    number and the body of every successful [upload_part]. *)
Definition uploads (tr : list event) : list (Z * bytes) := omap uploaded tr.

(** Bodies numbered from [n] on. *)
Fixpoint numbered (n : Z) (bodies : list bytes) : list (Z * bytes) :=
  match bodies with
  | [] => []
  | body :: bodies' => (n, body) :: numbered (n + 1) bodies'
  end.

(** The events that are cache invalidations. *)
Definition is_invalidate (ev : event) : bool :=
  match ev with Invalidate _ => true | _ => false end.

(* ===================================================================== *)
(** ** The effect monad *)
(* ===================================================================== *)

(** A computation over a state [S] returns a value or raises, leaves a
    state behind and emits events. *)
Definition M (S A : Type) : Type := S -> (exn + A) * S * list event.

Definition ret {S A} (a : A) : M S A := fun s => (inr a, s, []).

Definition raise {S A} (e : exn) : M S A := fun s => (inl e, s, []).

Definition bind {S A B} (m : M S A) (k : A -> M S B) : M S B :=
  fun s =>
    match m s with
    | (inr a, s1, t1) => let '(r, s2, t2) := k a s1 in (r, s2, t1 ++ t2)
    | (inl e, s1, t1) => (inl e, s1, t1)
    end.

(** [try: m except Exception as e: h(e)] *)
Definition try_except {S A} (m : M S A) (h : exn -> M S A) : M S A :=
  fun s =>
    match m s with
    | (inr a, s1, t1) => (inr a, s1, t1)
    | (inl e, s1, t1) => let '(r, s2, t2) := h e s1 in (r, s2, t1 ++ t2)
    end.

Definition get {S} : M S S := fun s => (inr s, s, []).

Definition put {S} (s : S) : M S unit := fun _ => (inr tt, s, []).

Definition modify {S} (f : S -> S) : M S unit := fun s => (inr tt, f s, []).

Definition emit {S} (ev : event) : M S unit := fun s => (inr tt, s, [ev]).

(** A raised value of [exn + A], as a computation. *)
Definition lift_result {S A} (r : exn + A) : M S A :=
  match r with inl e => raise e | inr a => ret a end.

(** A sequential loop over a list ([for x in l: f(x)]). *)
Fixpoint for_each {S A} (l : list A) (f : A -> M S unit) : M S unit :=
  match l with
  | [] => ret tt
  | x :: l' => bind (f x) (fun _ => for_each l' f)
  end.

Declare Scope monad_scope.
Delimit Scope monad_scope with monad.
Notation "'let*' x ':=' m 'in' k" := (bind m (fun x => k))
  (at level 10, x pattern, m at level 100, k at level 200) : monad_scope.
Notation "m1 '>>' m2" := (bind m1 (fun _ => m2))
  (at level 100, m2 at level 200, right associativity) : monad_scope.
Local Open Scope monad_scope.

Definition result_of {S A} (x : (exn + A) * S * list event) : exn + A := x.1.1.
Definition state_of {S A} (x : (exn + A) * S * list event) : S := x.1.2.
Definition trace_of {S A} (x : (exn + A) * S * list event) : list event := x.2.

(** A computation is quiet when no run of it uploads a part. *)
Definition quiet {S A} (m : M S A) : Prop :=
  forall s, uploads (trace_of (m s)) = [].

(* ===================================================================== *)
(** ** [S3FileSystem] *)
(* ===================================================================== *)

Module S3FileSystem.
Section WithClient.
Context `{Client}.

(** The attributes of a filesystem instance the engine reads, its
    directory cache and the state of its client. *)
Record t := {
  version_aware : bool;
  anon : bool;
  retries : nat;
  default_block_size : Z;
  req_kw : kwargs;
  s3_additional_kwargs : kwargs;
  fs_kwargs : kwargs;
  dircache : gmap string (list entry);
  s3 : remote;
}.

Definition set_dircache (d : gmap string (list entry)) (fs : t) : t :=
  {| version_aware := version_aware fs; anon := anon fs;
     retries := retries fs; default_block_size := default_block_size fs;
     req_kw := req_kw fs;
     s3_additional_kwargs := s3_additional_kwargs fs;
     fs_kwargs := fs_kwargs fs; dircache := d; s3 := s3 fs |}.

Definition set_s3 (r : remote) (fs : t) : t :=
  {| version_aware := version_aware fs; anon := anon fs;
     retries := retries fs; default_block_size := default_block_size fs;
     req_kw := req_kw fs;
     s3_additional_kwargs := s3_additional_kwargs fs;
     fs_kwargs := fs_kwargs fs; dircache := dircache fs; s3 := r |}.

(** One invocation of a client method: the outcome is handed to the
    caller as a value. *)
Definition invoke {T} (r : request T) : M t (exn + T) :=
  fun fs =>
    let '(out, s3') := serve T (s3 fs) r in
    (inr out, set_s3 s3' fs,
     [Attempt r (match out with inl e => Some e | inr _ => None end)]).

(** [min(1.7 ** i * 0.1, 15)], in seconds, as a rational. *)
Definition backoff (i : nat) : Q :=
  Qmin ((17 # 10) ^ Z.of_nat i * (1 # 10)) (15 # 1).

(** The end of [_call_s3], after the loop: [err] is the last error the
    loop bound, if any. [recover] is the recovery of the remote error
    from the response in flight when the client library raised a
    plumbing error. *)
Definition recover (err : exn) : exn :=
  if Py.contains "'coroutine'" (exn_str err)
  then match in_flight err with Some e => e | None => err end
  else err.

Definition call_s3_fail {T} (err : option exn) : M t T :=
  match err with
  | None => raise (UnboundLocalError "err")
  | Some err => raise (translate_boto_error (recover err))
  end.

(** The loop of [_call_s3]: [n] iterations are left, [i] is the loop
    variable and [err] the last error bound. *)
Fixpoint call_s3_loop {T} (r : request T) (n i : nat) (err : option exn)
  : M t T :=
  match n with
  | O => call_s3_fail err
  | S n' =>
      let* out := invoke r in
      match out with
      | inr out => ret out
      | inl e =>
          if S3_RETRYABLE_ERRORS e
          then emit (Sleep (backoff i)) >> call_s3_loop r n' (S i) (Some e)
          else call_s3_fail (Some e)
      end
  end.

(** [S3FileSystem._call_s3]; the request [r] is the client method with
    its filtered keyword arguments. *)
Definition _call_s3 {T} (r : request T) : M t T :=
  let* fs := get in
  call_s3_loop r (retries fs) 0 None.

(** The events of [k] rounds of the loop that timed out, the first of
    them with loop variable [i]: a failed attempt and the sleep after
    it, per round. *)
Fixpoint retry_rounds {T} (r : request T) (i k : nat) : list event :=
  match k with
  | O => []
  | S k' =>
      Attempt r (Some SocketTimeout) :: Sleep (backoff i)
      :: retry_rounds r (S i) k'
  end.

(** [except ClientError as e: raise translate_boto_error(e)] *)
Definition translating {A} (m : M t A) : M t A :=
  try_except m
    (fun e => if is_ClientError e then raise (translate_boto_error e)
              else raise e).

(** The loop of [invalidate_cache]; [fuel] bounds the number of
    iterations, and the length of the path is enough of it. *)
Fixpoint invalidate_loop (fuel : nat) (path : string)
    (d : gmap string (list entry)) : gmap string (list entry) :=
  match fuel with
  | O => d
  | S fuel' =>
      if Py.truthy path
      then invalidate_loop fuel' (AbstractFileSystem._parent path)
             (delete path d)
      else d
  end.

(** The paths the loop of [invalidate_cache] pops: the path and its
    ancestors, as long as they are not empty. *)
Fixpoint ancestors (fuel : nat) (path : string) : list string :=
  match fuel with
  | O => []
  | S fuel' =>
      if Py.truthy path
      then path :: ancestors fuel' (AbstractFileSystem._parent path)
      else []
  end.

(** The effect of [invalidate_cache] on the cache. *)
Definition invalidate_dircache (path : option string)
    (d : gmap string (list entry)) : gmap string (list entry) :=
  match path with
  | None => ∅
  | Some path =>
      let path := AbstractFileSystem._strip_protocol path in
      let d := delete path d in
      invalidate_loop (String.length path) path d
  end.

(** [S3FileSystem.invalidate_cache] *)
Definition invalidate_cache (path : option string) : M t unit :=
  emit (Invalidate path) >>
  modify (fun fs => set_dircache (invalidate_dircache path (dircache fs)) fs).

(** The entry [_lsdir] makes of an object of a page. *)
Definition file_entry (bucket : string) (c : s3_object) : entry :=
  {| e_Key := Py.join_slash bucket (o_Key c);
     e_name := Py.join_slash bucket (o_Key c);
     e_Size := o_Size c; e_size := o_Size c; e_type := "file";
     e_StorageClass := o_StorageClass c; e_ETag := o_ETag c;
     e_LastModified := o_LastModified c; e_VersionId := o_VersionId c |}.

(** The entry [_lsdir] makes of a common prefix. *)
Definition directory_entry (bucket : string) (prefix : string) : entry :=
  {| e_Key := Py.join_slash bucket (Py.drop_last prefix);
     e_name := Py.join_slash bucket (Py.drop_last prefix);
     e_Size := 0; e_size := 0; e_type := "directory";
     e_StorageClass := "DIRECTORY"; e_ETag := None;
     e_LastModified := None; e_VersionId := None |}.

(** The listing [_lsdir] assembles from the pages of the paginator. *)
Definition listing (bucket : string) (pages : list list_page) : list entry :=
  let files := flat_map Contents pages in
  let dircache := flat_map CommonPrefixes pages in
  map (file_entry bucket) files ++ map (directory_entry bucket) dircache.

(** [S3FileSystem._lsdir] *)
Definition _lsdir (path : string) (refresh : bool) (max_items : option Z)
    (delimiter : string) (prefix : string) : M t (list entry) :=
  let* fs := get in
  let '(bucket, key, _) := split_path (version_aware fs) path in
  let prefix :=
    if Py.truthy key then Py.lstrip_slash key +:+ "/" +:+ prefix else prefix in
  if negb (bool_decide (is_Some (dircache fs !! path))) || refresh
     || negb (Py.truthy delimiter)
  then
    let* files :=
      translating (
        let* out :=
          invoke (paginate_list_objects_v2 bucket prefix delimiter
                    max_items (req_kw fs)) in
        let* pages := lift_result out in
        ret (listing bucket pages)) in
    (if Py.truthy delimiter && negb (bool_decide (files = []))
     then modify (fun fs => set_dircache (<[path := files]> (dircache fs)) fs)
     else ret tt) >>
    ret files
  else
    match dircache fs !! path with
    | Some files => ret files
    | None => raise (KeyError path)
    end.

(** Modelled from the spec: [_ls_from_cache] is inherited from the
    filesystem base class, which is not part of the sources; the
    metadata resolver "consults the cache". It is a parameter: a
    lookup in the cache that finds a listing, finds nothing, or raises
    [FileNotFoundError] when the cached parent listing rules the path
    out. *)
Variable _ls_from_cache :
  gmap string (list entry) -> string -> exn + option (list entry).

(** The directory entry [_info] returns for the root and for a path
    listed in the cache: [{"name": path, "size": 0, "type":
    "directory"}]. The keys this dictionary does not have are left at
    their empty values. *)
Definition bare_directory (path : string) : entry :=
  {| e_Key := ""; e_name := path; e_Size := 0; e_size := 0; e_type := "directory";
     e_StorageClass := ""; e_ETag := None; e_LastModified := None;
     e_VersionId := None |}.

(** [S3FileSystem._simple_info] *)
Definition _simple_info (path : string) : M t (option entry) :=
  let* fs := get in
  let '(bucket, key, _) := split_path (version_aware fs) path in
  let prefix := Py.strip_slash key in
  let* out :=
    _call_s3 (list_objects_v2 bucket prefix "/" (Some 1)
                (fs_kwargs fs ++ req_kw fs)) in
  let* file :=
    match Contents out with
    | [] => ret None
    | [file] => ret (Some file)
    | _ => raise (ValueError "too many values to unpack")
    end in
  match file with
  | Some file =>
      if bool_decide (o_Key file = prefix) then
        ret (Some {| e_ETag := o_ETag file;
                     e_Key := Py.join_slash bucket key;
                     e_LastModified := o_LastModified file;
                     e_Size := o_Size file; e_size := o_Size file;
                     e_name := Py.join_slash bucket key;
                     e_type := "file"; e_StorageClass := "STANDARD";
                     e_VersionId := o_VersionId file |})
      else ret None
  | None =>
      if negb (bool_decide (KeyCount out ≠ 0)
               || negb (bool_decide (CommonPrefixes out = [])))
      then raise (FileNotFoundError path)
      else ret None
  end.

(** [S3FileSystem._version_aware_info] *)
Definition _version_aware_info (path : string) (version_id : option string)
  : M t (option entry) :=
  let* fs := get in
  let '(bucket, key, _) := split_path (version_aware fs) path in
  try_except
    (let* out :=
       _call_s3 (head_object bucket key (version_id_kw version_id)
                   (fs_kwargs fs ++ req_kw fs)) in
     ret (Some {| e_ETag := Some (h_ETag out);
                  e_Key := Py.join_slash bucket key;
                  e_LastModified := Some (h_LastModified out);
                  e_Size := h_ContentLength out; e_size := h_ContentLength out;
                  e_name := Py.join_slash bucket key;
                  e_type := "file"; e_StorageClass := "STANDARD";
                  e_VersionId := h_VersionId out |}))
    (fun e => if is_FileNotFoundError e then ret None else raise e).

(** The probes of [_info] for a path that is not answered from the
    cache (the code after the cache lookup). *)
Definition info_probe (path bucket key : string) (version_id : option string)
  : M t entry :=
  let* fs := get in
  let* found :=
    if Py.truthy key then
      translating (
        if version_aware fs then _version_aware_info path version_id
        else
          try_except (_simple_info path)
            (fun e => if is_PermissionError e
                      then _version_aware_info path version_id
                      else raise e))
    else ret None in
  match found with
  | Some out => ret out
  | None =>
      try_except
        (let* out :=
           _call_s3 (list_objects_v2 bucket
                       (if Py.truthy key then Py.rstrip_slash key +:+ "/" else "")
                       "/" (Some 1) (fs_kwargs fs ++ req_kw fs)) in
         if bool_decide (0 < KeyCount out)
            || negb (bool_decide (Contents out = []))
            || negb (bool_decide (CommonPrefixes out = []))
         then ret {| e_Key := Py.join_slash bucket key;
                     e_name := Py.join_slash bucket key;
                     e_type := "directory"; e_Size := 0; e_size := 0;
                     e_StorageClass := "DIRECTORY"; e_ETag := None;
                     e_LastModified := None; e_VersionId := None |}
         else raise (FileNotFoundError path))
        (fun e =>
           if is_ClientError e then raise (translate_boto_error e)
           else if is_ParamValidationError e
           then raise (ValueError "Failed to list path")
           else raise e)
  end.

(** [S3FileSystem._info]; the arguments [bucket] and [key] of the
    source are overwritten before they are read and are left out. *)
Definition _info (path : string) (refresh : bool) (version_id : option string)
  : M t entry :=
  let* fs := get in
  let path := AbstractFileSystem._strip_protocol path in
  let '(bucket, key, path_version_id) := split_path (version_aware fs) path in
  (if bool_decide (version_id ≠ None) && negb (version_aware fs)
   then raise (ValueError
     "version_id cannot be specified if the filesystem is not version aware")
   else ret tt) >>
  if bool_decide (path = "/") || bool_decide (path = "")
  then ret (bare_directory path)
  else
    let* version_id :=
      lift_result (_coalesce_version_id [path_version_id; version_id]) in
    let* cached :=
      if refresh then ret None
      else lift_result (_ls_from_cache (dircache fs) path) in
    match cached with
    | Some _ =>
        let* out := lift_result (_ls_from_cache (dircache fs) path) in
        match filter (λ o, e_name o = path) (default [] out) with
        | o :: _ => ret o
        | [] => ret (bare_directory path)
        end
    | None => info_probe path bucket key version_id
    end.

(** [S3FileSystem._exists] *)
Definition _exists (path : string) : M t bool :=
  if bool_decide (path = "") || bool_decide (path = "/") then ret true
  else
    let* fs := get in
    let path := AbstractFileSystem._strip_protocol path in
    let '(bucket, key, version_id) := split_path (version_aware fs) path in
    if Py.truthy key then
      match _ls_from_cache (dircache fs) path with
      | inl e => if is_FileNotFoundError e then ret false else raise e
      | inr (Some (_ :: _)) => ret true
      | inr _ =>
          try_except (_info path false version_id >> ret true)
            (fun e => if is_FileNotFoundError e then ret false else raise e)
      end
    else if bool_decide (default [] (dircache fs !! bucket) ≠ [])
    then ret true
    else
      let* hit :=
        match _ls_from_cache (dircache fs) bucket with
        | inl e => if is_FileNotFoundError e then ret false else raise e
        | inr (Some (_ :: _)) => ret true
        | inr _ => ret false
        end in
      if hit : bool then ret true
      else
        try_except
          (_call_s3 (list_objects_v2 bucket "" "" (Some 1) (req_kw fs))
           >> ret true)
          (fun _ => ret false).

(** [S3FileSystem._touch]; [kw] are the keyword arguments passed
    through to [put_object]. *)
Definition _touch (path : string) (truncate : bool) (kw : kwargs)
  : M t write_result :=
  let* fs := get in
  let '(bucket, key, version_id) := split_path (version_aware fs) path in
  if Py.truthy_opt version_id
  then raise (ValueError "S3 does not support touching existing versions of files")
  else
    let* present := if negb truncate then _exists path else ret false in
    if present : bool
    then raise (ValueError "S3 does not support touching existent files")
    else
      let* write_result := translating (_call_s3 (put_object bucket key None kw)) in
      invalidate_cache (Some (AbstractFileSystem._parent path)) >>
      ret write_result.

(** [size or (await self._info(url))["size"]] *)
Definition size_or_info (size : option Z) (url : string) : M t Z :=
  match size with
  | Some n => if bool_decide (n = 0)
              then let* d := _info url false None in ret (e_size d)
              else ret n
  | None => let* d := _info url false None in ret (e_size d)
  end.

(** Modelled from the spec: [_process_limits] is inherited from the
    asynchronous filesystem base class, which is not part of the
    sources: the bounds of the [Range] header for [start] and [end_].
    A negative [start] without [end_] asks for a suffix; a negative
    bound counts from the size of the object, which [_info] is asked
    for; the last byte is [end_ - 1]. *)
Definition _process_limits (url : string) (start end_ : option Z)
  : M t byte_range :=
  (* the first bound *)
  let* (start, end_, size, suff) :=
    match start with
    | Some s =>
        if bool_decide (s < 0) then
          match end_ with
          | None => ret (None, Some (- s), None, true)
          | Some _ =>
              let* size := size_or_info None url in
              ret (Some (size + s), end_, Some size, false)
          end
        else ret (Some s, end_, None, false)
    | None => ret (Some 0, end_, None, false)
    end in
  (* the last bound *)
  if suff : bool then ret (start, end_)
  else
    let* end_ :=
      match end_ with
      | Some e =>
          if bool_decide (e < 0) then
            match start with
            | Some _ =>
                let* size := size_or_info size url in ret (Some (size + e))
            | None => ret (Some e)
            end
          else ret (Some e)
      | None => ret None
      end in
    ret (start, (fun e => e - 1) <$> end_).

(** [S3FileSystem._cat_file] *)
Definition _cat_file (path : string) (version_id : option string)
    (start end_ : option Z) : M t bytes :=
  let* fs := get in
  let '(bucket, key, vers) := split_path (version_aware fs) path in
  let* head :=
    if bool_decide (start ≠ None) || bool_decide (end_ ≠ None)
    then let* range := _process_limits path start end_ in ret (Some range)
    else ret None in
  _call_s3 (get_object bucket key head
              (version_id_kw (if Py.truthy_opt version_id then version_id else vers))
              (req_kw fs)).

(** [S3FileSystem._bulk_delete] *)
Definition _bulk_delete (pathlist : list string) (kw : kwargs) : M t unit :=
  let* fs := get in
  match pathlist with
  | [] => ret tt
  | _ =>
      let buckets := py_set (map (λ p, (split_path (version_aware fs) p).1.1) pathlist) in
      if decide (1 < length buckets)%nat
      then raise (ValueError "Bulk delete files should refer to only one bucket")
      else
        let bucket := default "" (head buckets) in
        if decide (1000 < length pathlist)%nat
        then raise (ValueError "Max number of files to delete in one call is 1000")
        else
          let delete_keys := map (λ p, (split_path (version_aware fs) p).1.2) pathlist in
          for_each pathlist
            (fun path => invalidate_cache (Some (AbstractFileSystem._parent path))) >>
          _call_s3 (delete_objects bucket delete_keys kw)
  end.

(** [S3FileSystem._rmdir] *)
Definition _rmdir (path : string) : M t unit :=
  try_except (_call_s3 (delete_bucket path))
    (fun e =>
       if is_ClientError e then
         if Py.contains "NoSuchBucket" (exn_str e)
         then raise (FileNotFoundError path)
         else if Py.contains "BucketNotEmpty" (exn_str e)
         then raise (OSError IOErrorK [])
         else raise e
       else raise e) >>
  invalidate_cache (Some path) >>
  invalidate_cache (Some "").

(** [S3FileSystem._copy_basic] *)
Definition _copy_basic (path1 path2 : string) (kw : kwargs) : M t unit :=
  let* fs := get in
  let '(buc1, key1, ver1) := split_path (version_aware fs) path1 in
  let '(buc2, key2, ver2) := split_path (version_aware fs) path2 in
  if Py.truthy_opt ver2 then raise (ValueError "Cannot copy to a versioned file!")
  else
    try_except
      (_call_s3 (copy_object buc2 key2 (buc1, key1, version_id_kw ver1) kw))
      (fun e =>
         if is_ClientError e then raise (translate_boto_error e)
         else if is_ParamValidationError e then raise (ValueError "Copy failed")
         else raise e) >>
    invalidate_cache (Some path2).

(** [S3FileSystem._rm_file] *)
Definition _rm_file (path : string) : M t unit :=
  let* fs := get in
  let '(bucket, key, _) := split_path (version_aware fs) path in
  translating (_call_s3 (delete_object bucket key)).

(** The entry [_lsbuckets] makes of a bucket. *)
Definition bucket_entry (name : string) : entry :=
  {| e_Key := name; e_name := name; e_Size := 0; e_size := 0;
     e_type := "directory"; e_StorageClass := "BUCKET"; e_ETag := None;
     e_LastModified := None; e_VersionId := None |}.

(** [S3FileSystem._lsbuckets] *)
Definition _lsbuckets (refresh : bool) : M t (list entry) :=
  let* fs := get in
  if negb (bool_decide (is_Some (dircache fs !! ""))) || refresh then
    if anon fs then ret []
    else
      let* names :=
        try_except (let* out := _call_s3 list_buckets in ret (Some out))
          (fun e => if is_ClientError e then ret None else raise e) in
      match names with
      | None => ret []
      | Some names =>
          let files := map bucket_entry names in
          modify (fun fs => set_dircache (<["" := files]> (dircache fs)) fs) >>
          ret files
      end
  else
    match dircache fs !! "" with
    | Some files => ret files
    | None => raise (KeyError "")
    end.

(** What [_ls] returns: the entries with [detail], the sorted names
    without. *)
Inductive ls_result :=
| LsDetail (files : list entry)
| LsNames (names : list string).

(** [sorted(names)]: an insertion sort. *)
Fixpoint insert_name (x : string) (l : list string) : list string :=
  match l with
  | [] => [x]
  | y :: l' =>
      if String.ltb x y then x :: y :: l' else y :: insert_name x l'
  end.

Definition sorted_names (l : list string) : list string :=
  fold_left (fun acc x => insert_name x acc) l [].

(** [S3FileSystem._ls] *)
Definition _ls (path : string) (detail refresh : bool) : M t ls_result :=
  let path := Py.rstrip_slash (AbstractFileSystem._strip_protocol path) in
  let* files :=
    if bool_decide (path = "") || bool_decide (path = "/")
    then _lsbuckets refresh
    else
      let* files := _lsdir path refresh None "/" "" in
      if bool_decide (files = []) && Py.has_slash path then
        let* files :=
          _lsdir (AbstractFileSystem._parent path) refresh None "/" "" in
        ret (filter (λ o, Py.rstrip_slash (e_name o) = path
                          ∧ e_type o ≠ "directory") files)
      else ret files in
  ret (if detail then LsDetail files
       else LsNames (sorted_names (map e_name files))).

(** [S3FileSystem._mkdir]; [region_name] is the region the keyword
    arguments or the configuration of the client give, if any. *)
Definition _mkdir (path : string) (acl : string) (create_parents : bool)
    (region_name : option string) : M t unit :=
  let path := Py.rstrip_slash (AbstractFileSystem._strip_protocol path) in
  if negb (Py.truthy path) then raise (ValueError "")
  else
    let* fs := get in
    let '(bucket, key, _) := split_path (version_aware fs) path in
    let* present := _exists bucket in
    if present : bool then
      if negb (Py.truthy key) then raise FileExistsError else ret tt
    else if negb (Py.truthy key) || create_parents then
      if Py.truthy acl && negb (bool_decide (acl ∈ buck_acls))
      then raise (ValueError "ACL not in buck_acls")
      else
        try_except
          (_call_s3 (create_bucket bucket acl
                       (if Py.truthy_opt region_name then region_name
                        else None)) >>
           invalidate_cache (Some "") >>
           invalidate_cache (Some bucket))
          (fun e =>
             if is_ClientError e then raise (translate_boto_error e)
             else if is_ParamValidationError e
             then raise (ValueError "Bucket create failed")
             else raise e)
    else _ls bucket false false >> ret tt.

(** [S3FileSystem._makedirs] *)
Definition _makedirs (path : string) (exist_ok : bool)
    (region_name : option string) : M t unit :=
  try_except (_mkdir path "" true region_name)
    (fun e =>
       if is_FileExistsError e
       then if exist_ok then ret tt else raise e
       else raise e).

(** The slices [data[off : off + chunksize]] for [off] in
    [range(0, len(data), chunksize)], for a positive [chunksize];
    [fuel] bounds their number, and the length of the data is enough
    of it. *)
Fixpoint chunks (fuel : nat) (chunksize : nat) (data : bytes) : list bytes :=
  match data, fuel with
  | [], _ => []
  | _, O => []
  | _, S fuel' =>
      take chunksize data :: chunks fuel' chunksize (drop chunksize data)
  end.

(** The slices of [_pipe_file]: a step of zero makes [range] raise, a
    negative step gives no offset at all. *)
Definition pipe_chunks (chunksize : Z) (data : bytes) : exn + list bytes :=
  if bool_decide (chunksize = 0)
  then inl (ValueError "range() arg 3 must not be zero")
  else if bool_decide (chunksize < 0) then inr []
  else inr (chunks (length data) (Z.to_nat chunksize) data).

(** The uploads of the parts [bodies], numbered from [n] on, one after
    the other: the ETags returned, in order. *)
Fixpoint upload_parts (bucket key uid : string) (n : Z) (bodies : list bytes)
  : M t (list string) :=
  match bodies with
  | [] => ret []
  | body :: rest =>
      let* out := _call_s3 (upload_part bucket key n uid body) in
      let* outs := upload_parts bucket key uid (n + 1) rest in
      ret (out :: outs)
  end.

(** [[{"PartNumber": i + 1, "ETag": o["ETag"]} for i, o in
    enumerate(out)]], numbered from [n] on. *)
Fixpoint number_parts (n : Z) (etags : list string) : list part :=
  match etags with
  | [] => []
  | e :: rest =>
      {| PartNumber := n; part_ETag := e |} :: number_parts (n + 1) rest
  end.

(** [S3FileSystem._pipe_file]: the response of [put_object] for data
    sent in one request, [None] after a multipart upload. *)
Definition _pipe_file (path : string) (data : bytes) (chunksize : Z)
    (kw : kwargs) : M t (option write_result) :=
  let* fs := get in
  let '(bucket, key, _) := split_path (version_aware fs) path in
  let size := Z.of_nat (length data) in
  if size <? Z.min (5 * 2 ^ 30) (2 * chunksize) then
    let* out := _call_s3 (put_object bucket key (Some data) kw) in
    ret (Some out)
  else
    let* uid := _call_s3 (create_multipart_upload bucket key kw) in
    let* bodies := lift_result (pipe_chunks chunksize data) in
    let* out := upload_parts bucket key uid 1 bodies in
    _call_s3 (complete_multipart_upload bucket key uid (number_parts 1 out)) >>
    invalidate_cache (Some path) >>
    ret None.

(** What [_find] returns: the names, or with [detail] the dictionary
    from names to entries. *)
Inductive find_result :=
| FindNames (names : list string)
| FindDetail (entries : gmap string entry).

(** Modelled from the spec: the base class's [_find], not part of the
    sources, which [_find] calls for a bounded depth ("shallow
    recursion delegates to depth-bounded per-level listing"). It is a
    parameter. *)
Variable super_find : string -> Z -> bool -> bool -> M t find_result.

(** [sorted(l, key=lambda x: x["name"])]: a stable insertion sort. *)
Fixpoint insert_by_name (x : entry) (l : list entry) : list entry :=
  match l with
  | [] => [x]
  | y :: l' =>
      if String.ltb (e_name x) (e_name y) then x :: y :: l'
      else y :: insert_by_name x l'
  end.

Definition sorted_by_name (l : list entry) : list entry :=
  fold_left (fun acc x => insert_by_name x acc) l [].

(** The state of the loop of [_find] over the listing: [dirs], [sdirs]
    and [thisdircache]. *)
Definition find_state : Type :=
  list entry * gset string * gmap string (list entry).

(** The body of the loop of [_find] for the entry [o]. *)
Definition find_step (version_aware : bool)
    (dircache : gmap string (list entry)) (path : string)
    (st : find_state) (o : entry) : find_state :=
  let '(dirs, sdirs, thisdircache) := st in
  let par := AbstractFileSystem._parent (e_name o) in
  let '(dirs, sdirs, thisdircache) :=
    if bool_decide (is_Some (dircache !! par)) then (dirs, sdirs, thisdircache)
    else if bool_decide (par ∈ sdirs) then (dirs, sdirs, thisdircache)
    else
      let sdirs := {[par]} ∪ sdirs in
      let d :=
        if bool_decide (String.length path <= String.length par)%nat
        then Some {| e_Key := (split_path version_aware par).1.2;
                     e_Size := 0; e_name := par;
                     e_StorageClass := "DIRECTORY"; e_type := "directory";
                     e_size := 0; e_ETag := None; e_LastModified := None;
                     e_VersionId := None |}
        else None in
      let dirs := match d with Some d => dirs ++ [d] | None => dirs end in
      let thisdircache := <[par := []]> thisdircache in
      let ppar := AbstractFileSystem._parent par in
      let thisdircache :=
        match thisdircache !! ppar, d with
        | Some l, Some d =>
            if bool_decide (d ∈ l) then thisdircache
            else <[ppar := l ++ [d]]> thisdircache
        | _, _ => thisdircache
        end in
      (dirs, sdirs, thisdircache) in
  let thisdircache :=
    if bool_decide (par ∈ sdirs)
    then <[par := default [] (thisdircache !! par) ++ [o]]> thisdircache
    else thisdircache in
  (dirs, sdirs, thisdircache).

(** [S3FileSystem._find] *)
Definition _find (path : string) (maxdepth : option Z) (withdirs : bool)
    (detail : bool) (prefix : string) : M t find_result :=
  let* fs := get in
  let path := AbstractFileSystem._strip_protocol path in
  let '(bucket, key, _) := split_path (version_aware fs) path in
  let deep := match maxdepth with Some n => bool_decide (n ≠ 0) | None => false end in
  if negb (Py.truthy bucket)
  then raise (ValueError "Cannot traverse all of S3")
  else if (withdirs || deep) && Py.truthy prefix
  then raise (ValueError
    "Can not specify 'prefix' option alongside 'withdirs'/'maxdepth' options.")
  else if deep
  then super_find (bucket +:+ "/" +:+ key) (default 0 maxdepth) withdirs detail
  else
    let* out := _lsdir path false None "" prefix in
    let* out :=
      if bool_decide (out = []) && Py.truthy key then
        try_except (let* o := _info path false None in ret [o])
          (fun e => if is_FileNotFoundError e then ret [] else raise e)
      else ret out in
    let* fs := get in
    let '(dirs, _, thisdircache) :=
      fold_left (find_step (version_aware fs) (dircache fs) path) out
        ([], ∅, ∅) in
    (if negb (Py.truthy prefix) then
       modify (fun fs =>
         set_dircache
           (dircache fs ∪
            filter (λ kv, (String.length path <= String.length kv.1)%nat)
              thisdircache) fs)
     else ret tt) >>
    let out := if withdirs then sorted_by_name (out ++ dirs) else out in
    if detail
    then ret (FindDetail (list_to_map (reverse (map (λ o, (e_name o, o)) out))))
    else ret (FindNames (map e_name out)).

End WithClient.
End S3FileSystem.

(* ===================================================================== *)
(** ** [S3File] *)
(* ===================================================================== *)

Module S3File.
Section WithClient.
Context `{Client}.

Variable _ls_from_cache :
  gmap string (list entry) -> string -> exn + option (list entry).

(** [S3File.part_min] and [S3File.part_max] *)
Definition part_min : Z := 5 * 2 ^ 20.
Definition part_max : Z := 5 * 2 ^ 30.

(** The attributes of a file handle. [buffer] is the write buffer of
    the buffered file base class ([None] once the handle is committed
    or discarded), [loc] its position ([tell()]), [offset], [forced]
    and [closed] its flush state; [mpu] is the upload id of the open
    multipart session. *)
Record t := {
  path : string;
  bucket : string;
  key : string;
  version_id : option string;
  acl : string;
  mode : string;
  blocksize : Z;
  autocommit : bool;
  mpu : option string;
  parts : option (list part);
  req_kw : kwargs;
  kwargs_ : kwargs;
  append_block : bool;
  details : option entry;
  size_ : option Z;
  loc : Z;
  buffer : option bytes;
  offset : option Z;
  forced : bool;
  closed : bool;
}.

Definition set_parts (v : option (list part)) (f : t) : t :=
  {| path := path f; bucket := bucket f; key := key f;
     version_id := version_id f; acl := acl f; mode := mode f;
     blocksize := blocksize f; autocommit := autocommit f; mpu := mpu f;
     parts := v; req_kw := req_kw f; kwargs_ := kwargs_ f;
     append_block := append_block f; details := details f;
     size_ := size_ f; loc := loc f; buffer := buffer f;
     offset := offset f; forced := forced f; closed := closed f |}.

Definition set_mpu (v : option string) (f : t) : t :=
  {| path := path f; bucket := bucket f; key := key f;
     version_id := version_id f; acl := acl f; mode := mode f;
     blocksize := blocksize f; autocommit := autocommit f; mpu := v;
     parts := parts f; req_kw := req_kw f; kwargs_ := kwargs_ f;
     append_block := append_block f; details := details f;
     size_ := size_ f; loc := loc f; buffer := buffer f;
     offset := offset f; forced := forced f; closed := closed f |}.

Definition set_version_id (v : option string) (f : t) : t :=
  {| path := path f; bucket := bucket f; key := key f;
     version_id := v; acl := acl f; mode := mode f;
     blocksize := blocksize f; autocommit := autocommit f; mpu := mpu f;
     parts := parts f; req_kw := req_kw f; kwargs_ := kwargs_ f;
     append_block := append_block f; details := details f;
     size_ := size_ f; loc := loc f; buffer := buffer f;
     offset := offset f; forced := forced f; closed := closed f |}.

Definition set_buffer (v : option bytes) (f : t) : t :=
  {| path := path f; bucket := bucket f; key := key f;
     version_id := version_id f; acl := acl f; mode := mode f;
     blocksize := blocksize f; autocommit := autocommit f; mpu := mpu f;
     parts := parts f; req_kw := req_kw f; kwargs_ := kwargs_ f;
     append_block := append_block f; details := details f;
     size_ := size_ f; loc := loc f; buffer := v;
     offset := offset f; forced := forced f; closed := closed f |}.

Definition set_loc (v : Z) (f : t) : t :=
  {| path := path f; bucket := bucket f; key := key f;
     version_id := version_id f; acl := acl f; mode := mode f;
     blocksize := blocksize f; autocommit := autocommit f; mpu := mpu f;
     parts := parts f; req_kw := req_kw f; kwargs_ := kwargs_ f;
     append_block := append_block f; details := details f;
     size_ := size_ f; loc := v; buffer := buffer f;
     offset := offset f; forced := forced f; closed := closed f |}.

Definition set_offset (v : option Z) (f : t) : t :=
  {| path := path f; bucket := bucket f; key := key f;
     version_id := version_id f; acl := acl f; mode := mode f;
     blocksize := blocksize f; autocommit := autocommit f; mpu := mpu f;
     parts := parts f; req_kw := req_kw f; kwargs_ := kwargs_ f;
     append_block := append_block f; details := details f;
     size_ := size_ f; loc := loc f; buffer := buffer f;
     offset := v; forced := forced f; closed := closed f |}.

Definition set_forced (v : bool) (f : t) : t :=
  {| path := path f; bucket := bucket f; key := key f;
     version_id := version_id f; acl := acl f; mode := mode f;
     blocksize := blocksize f; autocommit := autocommit f; mpu := mpu f;
     parts := parts f; req_kw := req_kw f; kwargs_ := kwargs_ f;
     append_block := append_block f; details := details f;
     size_ := size_ f; loc := loc f; buffer := buffer f;
     offset := offset f; forced := v; closed := closed f |}.

Definition set_closed (v : bool) (f : t) : t :=
  {| path := path f; bucket := bucket f; key := key f;
     version_id := version_id f; acl := acl f; mode := mode f;
     blocksize := blocksize f; autocommit := autocommit f; mpu := mpu f;
     parts := parts f; req_kw := req_kw f; kwargs_ := kwargs_ f;
     append_block := append_block f; details := details f;
     size_ := size_ f; loc := loc f; buffer := buffer f;
     offset := offset f; forced := forced f; closed := v |}.

Definition set_append_block (v : bool) (f : t) : t :=
  {| path := path f; bucket := bucket f; key := key f;
     version_id := version_id f; acl := acl f; mode := mode f;
     blocksize := blocksize f; autocommit := autocommit f; mpu := mpu f;
     parts := parts f; req_kw := req_kw f; kwargs_ := kwargs_ f;
     append_block := v; details := details f;
     size_ := size_ f; loc := loc f; buffer := buffer f;
     offset := offset f; forced := forced f; closed := closed f |}.

Definition set_req_kw (v : kwargs) (f : t) : t :=
  {| path := path f; bucket := bucket f; key := key f;
     version_id := version_id f; acl := acl f; mode := mode f;
     blocksize := blocksize f; autocommit := autocommit f; mpu := mpu f;
     parts := parts f; req_kw := v; kwargs_ := kwargs_ f;
     append_block := append_block f; details := details f;
     size_ := size_ f; loc := loc f; buffer := buffer f;
     offset := offset f; forced := forced f; closed := closed f |}.

(** The state a method of a handle runs in: the handle and its
    filesystem ([self] and [self.fs]). *)
Definition st : Type := t * S3FileSystem.t.

(** A method of the filesystem, called from a handle. *)
Definition on_fs {A} (m : M S3FileSystem.t A) : M st A :=
  fun s => let '(r, fs', tr) := m s.2 in (r, (s.1, fs'), tr).

Definition self : M st t := fun s => (inr s.1, s, []).

Definition update (f : t -> t) : M st unit :=
  fun s => (inr tt, (f s.1, s.2), []).

(** [S3File._call_s3] *)
Definition _call_s3 {T} (r : request T) : M st T :=
  on_fs (S3FileSystem._call_s3 r).

(** [self.tell()] of the buffered file base class *)
Definition tell (f : t) : Z := loc f.

(** The test shared by [_initiate_upload] and [_upload_chunk]: a small
    file that is being closed is sent by one [put_object]. *)
Definition one_shot (f : t) (final : bool) : bool :=
  autocommit f && negb (append_block f) && final
  && bool_decide (tell f < blocksize f).

(** [S3File._initiate_upload] *)
Definition _initiate_upload : M st unit :=
  let* f := self in
  if autocommit f && negb (append_block f)
     && bool_decide (tell f < blocksize f)
  then ret tt
  else
    update (set_parts (Some [])) >>
    let* uid := _call_s3 (create_multipart_upload (bucket f) (key f)
                            [("ACL", acl f)]) in
    update (set_mpu (Some uid)) >>
    if append_block f then
      let* out := _call_s3 (upload_part_copy (bucket f) (key f) 1 uid
                              (path f) None) in
      let* f := self in
      match parts f with
      | Some ps => update (set_parts (Some (ps ++ [{| PartNumber := 1; part_ETag := out |}])))
      | None => raise (AttributeError "'NoneType' object has no attribute 'append'")
      end
    else ret tt.

(** [buffer.read(n)] on the unread rest of a buffer: the bytes read and
    the rest left. *)
Definition read (n : Z) (rest : bytes) : bytes * bytes :=
  if n <? 0 then (rest, [])
  else (take (Z.to_nat n) rest, drop (Z.to_nat n) rest).

(** One step of the rebalancing of [_upload_chunk]: from the pending
    segment [data0] and the segment [data1] read after it, the part to
    upload now and the segment to carry on with. *)
Definition rebalance (blocksize : Z) (data0 data1 : bytes) : bytes * bytes :=
  let data1_size := Z.of_nat (length data1) in
  if (0 <? data1_size) && (data1_size <? blocksize) then
    let remainder := data0 ++ data1 in
    let remainder_size := blocksize + data1_size in
    if remainder_size <=? part_max then (remainder, [])
    else
      let partition := remainder_size / 2 in
      (take (Z.to_nat partition) remainder, drop (Z.to_nat partition) remainder)
  else (data0, data1).

(** The [while data1:] loop of [_upload_chunk]; [rest] is the unread
    rest of the buffer. The loop ends when [data1] is empty; [fuel]
    bounds the number of iterations, and the number of bytes of the
    buffer is enough of it. *)
Fixpoint upload_loop (fuel : nat) (bucket key : string)
    (data1 rest : bytes) : M st unit :=
  match data1, fuel with
  | [], _ => ret tt
  | _, O => ret tt
  | _, S fuel' =>
      let* f := self in
      let data0 := data1 in
      let '(data1, rest) := read (blocksize f) rest in
      let '(data0, data1) := rebalance (blocksize f) data0 data1 in
      let* ps :=
        match parts f with
        | Some ps => ret ps
        | None => raise (TypeError "object of type 'NoneType' has no len()")
        end in
      let part := Z.of_nat (length ps) + 1 in
      let* uid :=
        match mpu f with
        | Some uid => ret uid
        | None => raise (TypeError "'NoneType' object is not subscriptable")
        end in
      let* out := _call_s3 (upload_part bucket key part uid data0) in
      update (set_parts (Some (ps ++ [{| PartNumber := part; part_ETag := out |}]))) >>
      upload_loop fuel' bucket key data1 rest
  end.

(** The bodies of the parts the loop of [_upload_chunk] uploads when
    every upload succeeds: the loop without its remote calls. *)
Fixpoint rebalanced (fuel : nat) (blocksize : Z) (data1 rest : bytes)
  : list bytes :=
  match data1, fuel with
  | [], _ => []
  | _, O => []
  | _, S fuel' =>
      let data0 := data1 in
      let '(data1, rest) := read blocksize rest in
      let '(data0, data1) := rebalance blocksize data0 data1 in
      data0 :: rebalanced fuel' blocksize data1 rest
  end.

(** A part of an allowed size. *)
Definition part_size_ok (body : bytes) : Prop :=
  part_min <= Z.of_nat (length body) <= part_max.

(** [S3File._abort_mpu] *)
Definition _abort_mpu : M st unit :=
  let* f := self in
  match mpu f with
  | Some uid =>
      _call_s3 (abort_multipart_upload (bucket f) (key f) uid) >>
      update (set_mpu None)
  | None => ret tt
  end.

(** The cache invalidation that ends [commit]: [path] runs over the
    proper prefixes of the path of the file, [ps] are the components
    still to come. *)
Fixpoint commit_invalidate (path : string) (ps : list string) : M st unit :=
  match ps with
  | [] => ret tt
  | p :: ps' =>
      let* s := get in
      (match S3FileSystem.dircache s.2 !! path with
       | Some listing =>
           if bool_decide (filter (λ f, e_name f = path +:+ "/" +:+ p) listing = [])
           then on_fs (S3FileSystem.invalidate_cache (Some path))
           else ret tt
       | None => ret tt
       end) >>
      commit_invalidate (path +:+ "/" +:+ p) ps'
  end.

(** The end of [commit], once the object is written: [write_result]
    is the response of the write, if one was made. *)
Definition commit_rest (f : t) (fs : S3FileSystem.t)
    (write_result : option write_result) : M st unit :=
  (if S3FileSystem.version_aware fs then
     match write_result with
     | Some wr => update (set_version_id (w_VersionId wr))
     | None => raise (UnboundLocalError "write_result")
     end
   else ret tt) >>
  update (set_buffer None) >>
  match Py.split_slash (path f) with
  | p0 :: ps => commit_invalidate p0 ps
  | [] => ret tt
  end.

(** [S3File.commit] *)
Definition commit : M st unit :=
  let* f := self in
  let* fs := on_fs get in
  let* write_result :=
    if bool_decide (tell f = 0) then
      match buffer f with
      | Some _ =>
          _abort_mpu >>
          let* wr := on_fs (S3FileSystem._touch _ls_from_cache (path f) true []) in
          ret (Some wr)
      | None => ret None
      end
    else if bool_decide (default [] (parts f) = []) then
      match buffer f with
      | Some data =>
          let* wr := _call_s3 (put_object (bucket f) (key f) (Some data)
                                 (kwargs_ f)) in
          ret (Some wr)
      | None => raise RuntimeError
      end
    else
      let* uid :=
        match mpu f with
        | Some uid => ret uid
        | None => raise (TypeError "'NoneType' object is not subscriptable")
        end in
      let* wr := _call_s3 (complete_multipart_upload (bucket f) (key f) uid
                             (default [] (parts f))) in
      ret (Some wr) in
  commit_rest f fs write_result.

(** [S3File._upload_chunk]; the line it logs first reads the position
    of the buffer, which fails on a handle without buffer. *)
Definition _upload_chunk (final : bool) : M st bool :=
  let* f := self in
  let* fs := on_fs get in
  let '(bucket, key, _) :=
    split_path (S3FileSystem.version_aware fs) (path f) in
  (match buffer f with
   | Some _ => ret tt
   | None => raise (AttributeError "'NoneType' object has no attribute 'tell'")
   end) >>
  (if one_shot f final then ret tt
   else
     match buffer f with
     | Some buf =>
         let '(data1, rest) := read (blocksize f) buf in
         upload_loop (length buf) bucket key data1 rest
     | None => raise (AttributeError "'NoneType' object has no attribute 'seek'")
     end) >>
  (if autocommit f && final then commit else ret tt) >>
  ret (negb final).

(** [S3File.discard] *)
Definition discard : M st unit :=
  _abort_mpu >> update (set_buffer None).

(** The module-level [_fetch_range] *)
Definition _fetch_range_ (bucket key : string) (version_id : option string)
    (start end_ : Z) (req_kw : option kwargs) : M S3FileSystem.t bytes :=
  let req_kw := default [] req_kw in
  if bool_decide (start = end_) then ret []
  else
    S3FileSystem._call_s3
      (get_object bucket key (Some (Some start, Some (end_ - 1)))
         (version_id_kw version_id) req_kw).

(** The test of the handler of [S3File._fetch_range]:
    [ex.args[0] == errno.EINVAL and "pre-conditions" in ex.args[1]]. *)
Definition precondition_failed (ex : exn) : exn + bool :=
  match exn_args ex with
  | [] => inl IndexError
  | AInt n :: rest =>
      if bool_decide (n = EINVAL) then
        match rest with
        | [] => inl IndexError
        | AStr s :: _ => inr (Py.contains "pre-conditions" s)
        | AInt _ :: _ => inl (TypeError "argument of type 'int' is not iterable")
        end
      else inr false
  | AStr _ :: _ => inr false
  end.

(** The request of a ranged get of a handle: the request
    [S3File._fetch_range] hands to the gateway for [start <> end_]. *)
Definition ranged_get (f : t) (start end_ : Z) : request bytes :=
  get_object (bucket f) (key f) (Some (Some start, Some (end_ - 1)))
    (version_id_kw (version_id f)) (req_kw f).

(** [S3File._fetch_range] *)
Definition _fetch_range (start end_ : Z) : M st bytes :=
  let* f := self in
  try_except
    (on_fs (_fetch_range_ (bucket f) (key f) (version_id f) start end_
              (Some (req_kw f))))
    (fun ex =>
       if is_OSError ex then
         let* expired := lift_result (precondition_failed ex) in
         if expired : bool then
           match details f with
           | Some d =>
               match e_ETag d with
               | Some e_tag => raise (FileExpired (e_name d) e_tag)
               | None => raise (KeyError "ETag")
               end
           | None => raise (AttributeError "details")
           end
         else raise ex
       else raise ex).

(** Modelled from the spec: [write] is inherited from the buffered file
    base class, which is not part of the sources: "writes accumulate
    in a TransferBuffer", and a full buffer is a flush boundary. It
    calls [flush], defined next; the two are tied through [flush_]. *)
Definition write_ (flush_ : bool -> M st unit) (data : bytes) : M st Z :=
  let* f := self in
  if negb (bool_decide (mode f = "wb") || bool_decide (mode f = "ab"))
  then raise (ValueError "File not in write mode")
  else if closed f then raise (ValueError "I/O operation on closed file.")
  else if forced f
  then raise (ValueError "This file has been force-flushed, can only close")
  else
    match buffer f with
    | None => raise (AttributeError "'NoneType' object has no attribute 'write'")
    | Some buf =>
        let out := Z.of_nat (length data) in
        update (set_buffer (Some (buf ++ data))) >>
        update (set_loc (loc f + out)) >>
        (if bool_decide (blocksize f <= Z.of_nat (length (buf ++ data)))
         then flush_ false else ret tt) >>
        ret out
    end.

(** Modelled from the spec: [flush] is inherited from the buffered file
    base class, which is not part of the sources. "On each flush
    boundary (buffer full, explicit flush, or final close)" the
    session is opened lazily on the first flush ([_initiate_upload])
    and the buffer is handed to [_upload_chunk]; a flush that is not
    the final one is deferred while the buffer holds less than one
    block. *)
Definition flush (force : bool) : M st unit :=
  let* f := self in
  if closed f then raise (ValueError "Flush on closed file")
  else if force && forced f
  then raise (ValueError "Force flush cannot be called more than once")
  else
    (if force then update (set_forced true) else ret tt) >>
    if negb (bool_decide (mode f = "wb") || bool_decide (mode f = "ab"))
    then ret tt
    else
      match buffer f with
      | None => raise (AttributeError "'NoneType' object has no attribute 'tell'")
      | Some buf =>
          if negb force && bool_decide (Z.of_nat (length buf) < blocksize f)
          then ret tt
          else
            (match offset f with
             | None =>
                 update (set_offset (Some 0)) >>
                 try_except _initiate_upload
                   (fun e => update (set_closed true) >> raise e)
             | Some _ => ret tt
             end) >>
            let* more := _upload_chunk force in
            if more : bool then
              let* f := self in
              update (set_offset
                        (Some (default 0 (offset f) + Z.of_nat (length buf)))) >>
              update (set_buffer (Some []))
            else ret tt
      end.

(** [write] of the buffered file base class *)
Definition write (data : bytes) : M st Z := write_ flush data.

(** Modelled from the spec: [close] is inherited from the buffered file
    base class, which is not part of the sources: the "final close" is
    the final flush, after which the cache entries of the path and of
    its parent are invalidated. *)
Definition close : M st unit :=
  let* f := self in
  if closed f then ret tt
  else
    (if bool_decide (mode f = "rb") then ret tt
     else
       (if negb (forced f) then flush true else ret tt) >>
       on_fs (S3FileSystem.invalidate_cache (Some (path f))) >>
       on_fs (S3FileSystem.invalidate_cache
                (Some (AbstractFileSystem._parent (path f))))) >>
    update (set_closed true).

(** A caller that writes the segments [ws] one after the other. *)
Definition write_all (ws : list bytes) : M st unit :=
  for_each ws (fun data => write data >> ret tt).

(** A caller that writes the segments [ws] and closes the handle. *)
Definition write_then_close (ws : list bytes) : M st unit :=
  write_all ws >> close.

(** A handle opened for writing, before its first flush: no session
    is open, and the buffer holds less than one block, all of it
    counted in the position of the handle. *)
Definition opened_for_writing (f : t) (buf : bytes) : Prop :=
  (mode f = "wb" \/ mode f = "ab")
  /\ closed f = false /\ forced f = false
  /\ offset f = None /\ mpu f = None /\ parts f = None
  /\ buffer f = Some buf
  /\ Z.of_nat (length buf) < blocksize f
  /\ Z.of_nat (length buf) <= loc f.

(** The session of a handle, with the parts [ups] uploaded so far
    (their numbers and bodies): either no flush has happened yet, or
    a session is open, the position of the handle is past one block,
    and the parts uploaded are numbered consecutively, up to the
    number of parts the session holds. *)
Definition session_state (f : t) (ups : list (Z * bytes)) : Prop :=
  (offset f = None /\ mpu f = None /\ parts f = None /\ ups = [])
  \/ (offset f <> None /\ blocksize f <= loc f
      /\ exists uid ps n0,
           mpu f = Some uid /\ parts f = Some ps
           /\ ups = numbered n0 (map snd ups)
           /\ Z.of_nat (length ps) + 1 = n0 + Z.of_nat (length ups)).

(** A handle between two writes, with the buffer [buf] and the parts
    [ups] uploaded so far. *)
Definition between_writes (f : t) (buf : bytes) (ups : list (Z * bytes))
  : Prop :=
  (mode f = "wb" \/ mode f = "ab")
  /\ closed f = false /\ forced f = false
  /\ buffer f = Some buf
  /\ Z.of_nat (length buf) <= loc f
  /\ session_state f ups.

(** The invariant of a handle of block size [b] that is being written,
    between two writes: the buffer holds less than one block, the
    parts uploaded so far are of an allowed size, and together with
    the buffer they are the bytes [data] written so far. *)
Definition written (b : Z) (data : bytes) (f : t) (ups : list (Z * bytes))
  : Prop :=
  blocksize f = b
  /\ exists buf,
       between_writes f buf ups
       /\ Z.of_nat (length buf) < b
       /\ concat (map snd ups) ++ buf = data
       /\ Forall part_size_ok (map snd ups).

(** A method of a handle run on the handle [f]: its result and the
    handle it leaves. *)
Definition with_self {A} (f : t) (m : M st A) : M S3FileSystem.t (A * t) :=
  fun fs =>
    let '(r, s', tr) := m (f, fs) in
    (match r with inr a => inr (a, s'.1) | inl e => inl e end, s'.2, tr).

(** [d.get(k, "")] on keyword arguments *)
Fixpoint kw_get (k : string) (kw : kwargs) : string :=
  match kw with
  | [] => ""
  | (k', v) :: kw' => if bool_decide (k' = k) then v else kw_get k kw'
  end.

(** [S3File.__init__]. The arguments [fill_cache] and [cache_type]
    configure the read cache only and are left out;
    [s3_additional_kwargs] are the keyword arguments the handle adds to
    its remote calls. *)
Definition __init__ (path mode : string) (block_size : Z) (acl : string)
    (version_id : option string) (autocommit : bool)
    (requester_pays : bool) : M S3FileSystem.t t :=
  let* s3 := get in
  let '(bucket, key, path_version_id) :=
    split_path (S3FileSystem.version_aware s3) path in
  if negb (Py.truthy key)
  then raise (ValueError "Attempt to open non key-like path")
  else
    let* self_version_id :=
      lift_result (_coalesce_version_id [version_id; path_version_id]) in
    if Py.truthy acl && negb (bool_decide (acl ∈ key_acls))
    then raise (ValueError "ACL not in key_acls")
    else
      let req_kw :=
        if requester_pays then [("RequestPayer", "requester")] else [] in
      (* the mode-specific set-up *)
      let* (self_version_id, details, size0) :=
        if negb (Py.contains "r" mode) then
          if bool_decide (block_size < 5 * 2 ^ 20)
          then raise (ValueError "Block size must be >=5MB")
          else ret (self_version_id, None, None)
        else if Py.truthy_opt version_id && S3FileSystem.version_aware s3 then
          let* d := S3FileSystem._info _ls_from_cache path false version_id in
          ret (version_id, Some d, Some (e_size d))
        else if S3FileSystem.version_aware s3 then
          S3FileSystem.invalidate_cache (Some path) >>
          let* d := S3FileSystem._info _ls_from_cache path false None in
          ret (e_VersionId d, Some d, None)
        else ret (self_version_id, None, None) in
      (* the constructor of the buffered file base class *)
      if negb (bool_decide (mode ∈ ["ab"; "rb"; "wb"]))
      then raise (NotImplementedError "File mode not supported")
      else
        let* (details, size0) :=
          if bool_decide (mode = "rb") then
            let* d :=
              match details with
              | Some d => ret d
              | None => S3FileSystem._info _ls_from_cache path false None
              end in
            ret (Some d, Some (e_size d))
          else ret (details, size0) in
        let f :=
          {| path := path; bucket := bucket; key := key;
             version_id := self_version_id; acl := acl; mode := mode;
             blocksize := block_size; autocommit := autocommit;
             mpu := None; parts := None; req_kw := req_kw; kwargs_ := [];
             append_block := false; details := details; size_ := size0;
             loc := 0;
             buffer := if bool_decide (mode = "rb") then None else Some [];
             offset := None; forced := false; closed := false |} in
        (* appending to an existing object *)
        let* present :=
          if Py.contains "a" mode
          then S3FileSystem._exists _ls_from_cache path else ret false in
        let* f :=
          if present : bool then
            let* d := S3FileSystem._info _ls_from_cache path false None in
            let loc := e_size d in
            let* f :=
              if bool_decide (loc < 5 * 2 ^ 20) then
                let* data :=
                  S3FileSystem._cat_file _ls_from_cache path None None None in
                let* (_, f) := with_self f (write data) in
                ret f
              else ret (set_append_block true f) in
            ret (set_loc loc f)
          else ret f in
        (* the integrity precondition of a read handle *)
        if Py.contains "r" mode then
          match details with
          | Some d =>
              match e_ETag d with
              | Some e_tag => ret (set_req_kw (req_kw ++ [("IfMatch", e_tag)]) f)
              | None => raise (KeyError "ETag")
              end
          | None => raise (AttributeError "details")
          end
        else ret f.

(** [S3FileSystem._open]; [block_size] and [requester_pays] are [None]
    when the caller leaves them out. *)
Definition _open (path mode : string) (block_size : option Z) (acl : string)
    (version_id : option string) (autocommit : bool)
    (requester_pays : option bool) : M S3FileSystem.t t :=
  let* fs := get in
  let block_size := default (S3FileSystem.default_block_size fs) block_size in
  let requester_pays :=
    default (negb (bool_decide (S3FileSystem.req_kw fs = []))) requester_pays in
  let acl :=
    if Py.truthy acl then acl
    else kw_get "ACL" (S3FileSystem.s3_additional_kwargs fs) in
  if negb (S3FileSystem.version_aware fs) && Py.truthy_opt version_id
  then raise (ValueError
    "version_id cannot be specified if the filesystem is not version aware")
  else __init__ path mode block_size acl version_id autocommit requester_pays.

End WithClient.
End S3File.

(* ===================================================================== *)
(** ** Concrete clients, for runs on concrete inputs *)
(* ===================================================================== *)

(** The empty response to a request. *)
Definition empty_reply {T} (r : request T) : T :=
  match r in request T return T with
  | put_object _ _ _ _ => {| w_VersionId := None |}
  | create_multipart_upload _ _ _ => "upload-1"
  | upload_part _ _ n _ _ => "etag"
  | upload_part_copy _ _ _ _ _ _ => "etag-copy"
  | complete_multipart_upload _ _ _ _ => {| w_VersionId := None |}
  | abort_multipart_upload _ _ _ => tt
  | get_object _ _ _ _ _ => []
  | head_object _ _ _ _ =>
      {| h_ETag := "etag"; h_LastModified := ""; h_ContentLength := 0;
         h_VersionId := None |}
  | list_objects_v2 _ _ _ _ _ =>
      {| Contents := []; CommonPrefixes := []; KeyCount := 0 |}
  | paginate_list_objects_v2 _ _ _ _ _ => []
  | list_buckets => []
  | create_bucket _ _ _ => tt
  | delete_bucket _ => tt
  | delete_objects _ _ _ => tt
  | delete_object _ _ => tt
  | copy_object _ _ _ _ => tt
  end.

(** [errno.ENOTEMPTY] and [errno.EIO] *)
Definition ENOTEMPTY : Z := 39.
Definition EIO : Z := 5.

(** Modelled from the spec: the translation of [s3fs.errors], which is
    not part of the sources, on the codes these runs use: a remote error
    becomes not-found or permission-denied, built from the message of
    the response alone, or the invalid-argument error (for a failed
    precondition), the directory-not-empty error or the generic remote
    error, built from an error number and a message, "based on the
    remote error code"; an exception that is not a remote error response
    is left as it is. *)
Definition translate_by_code (e : exn) : exn :=
  match e with
  | ClientError code message _ =>
      if bool_decide (code ∈ ["NoSuchKey"; "NoSuchBucket"; "404"])
      then OSError FileNotFoundK [AStr message]
      else if bool_decide (code ∈ ["AccessDenied"; "403"])
      then OSError PermissionK [AStr message]
      else if bool_decide (code = "PreconditionFailed")
      then OSError IOErrorK [AInt EINVAL; AStr message]
      else if bool_decide (code = "BucketNotEmpty")
      then OSError IOErrorK [AInt ENOTEMPTY; AStr message]
      else OSError IOErrorK [AInt EIO; AStr (exn_str e)]
  | _ => e
  end.

(** A client that follows a script: each invocation consumes the head of
    the script, raising the exception it holds or, on [None] and when the
    script is used up, returning the empty response. *)
Definition scripted_client : Client :=
  {| remote := list (option exn);
     serve := fun T script r =>
       match script with
       | Some e :: script' => (inl e, script')
       | None :: script' => (inr (empty_reply r), script')
       | [] => (inr (empty_reply r), [])
       end;
     in_flight := fun _ => None;
     translate_boto_error := translate_by_code |}.

(** A filesystem instance over the scripted client, with the defaults of
    the class. *)
Definition scripted_fs (version_aware : bool) (script : list (option exn))
    (dircache : gmap string (list entry)) : @S3FileSystem.t scripted_client :=
  @S3FileSystem.Build_t scripted_client
    version_aware (* version_aware *)
    false (* anon *)
    5%nat (* retries *)
    (5 * 2 ^ 20) (* default_block_size *)
    [] (* req_kw *)
    [] (* s3_additional_kwargs *)
    [] (* fs_kwargs *)
    dircache
    script.

(** A cache lookup that never finds anything, for these runs. *)
Definition no_listing (d : gmap string (list entry)) (path : string)
  : exn + option (list entry) := inr None.

(** Modelled from the spec: the cache lookup [_ls_from_cache] of the
    filesystem base class, which is not part of the sources. It answers
    with the listing the cache holds for the path; or else, when the
    parent of the path is listed, with the entries of that listing that
    are named as the path, raising [FileNotFoundError] when there is
    none; and it finds nothing otherwise. *)
Definition ls_from_cache (d : gmap string (list entry)) (path : string)
  : exn + option (list entry) :=
  match d !! Py.rstrip_slash path with
  | Some files => inr (Some files)
  | None =>
      match d !! AbstractFileSystem._parent path with
      | Some listing =>
          match filter (λ f, e_name f = path
                             ∨ (e_name f = Py.rstrip_slash path
                                ∧ e_type f = "directory")) listing with
          | [] => inl (FileNotFoundError path)
          | files => inr (Some files)
          end
      | None => inr None
      end
  end.

(** A handle on [bucket/key] opened for writing, as the constructor
    leaves it but for the given block size, position, buffer and
    session. *)
Definition scripted_file (blocksize loc : Z) (buffer : option bytes)
    (mpu : option string) (parts : option (list part)) (autocommit : bool)
  : S3File.t :=
  {| S3File.path := "bucket/key"; S3File.bucket := "bucket";
     S3File.key := "key"; S3File.version_id := None; S3File.acl := "";
     S3File.mode := "wb"; S3File.blocksize := blocksize;
     S3File.autocommit := autocommit; S3File.mpu := mpu;
     S3File.parts := parts; S3File.req_kw := []; S3File.kwargs_ := [];
     S3File.append_block := false; S3File.details := None;
     S3File.size_ := None; S3File.loc := loc; S3File.buffer := buffer;
     S3File.offset := None; S3File.forced := false; S3File.closed := false |}.

(** A block of one byte more than the largest part. *)
Definition oversized_block : bytes :=
  repeat Byte.x00 (Z.to_nat (S3File.part_max + 1)).

(* ===================================================================== *)
(** ** Predicates on computations *)
(* ===================================================================== *)

(** A computation avoids the events [P] when no run of it emits one. *)
Definition avoids {S A} (P : event -> bool) (m : M S A) : Prop :=
  forall s, Forall (fun ev => P ev = false) (trace_of (m s)).

(** The invocations of a client method that changes the object store. *)
Definition is_mutation (ev : event) : bool :=
  match ev with
  | Attempt r _ =>
      match r with
      | get_object _ _ _ _ _ | head_object _ _ _ _
      | list_objects_v2 _ _ _ _ _ | paginate_list_objects_v2 _ _ _ _ _
      | list_buckets => false
      | _ => true
      end
  | _ => false
  end.

(** The events that change the object store or the cache. *)
Definition is_effect (ev : event) : bool := is_mutation ev || is_invalidate ev.

(** The invocations of [create_bucket]. *)
Definition is_create_bucket (ev : event) : bool :=
  match ev with
  | Attempt r _ => match r with create_bucket _ _ _ => true | _ => false end
  | _ => false
  end.

(** The attempts at [upload_part] and the sleeps between them. *)
Definition is_part_upload (ev : event) : bool :=
  match ev with
  | Attempt r _ =>
      match r with upload_part _ _ _ _ _ => true | _ => false end
  | Sleep _ => true
  | Invalidate _ => false
  end.

(** The invocations of [head_object] and of [get_object] that name
    another version of the object than [v] (a version, when [v] is
    [None]). *)
Definition sends_other_version (v : option string) (ev : event) : bool :=
  match ev with
  | Attempt r _ =>
      match r with
      | head_object _ _ v' _ | get_object _ _ _ v' _ =>
          negb (bool_decide (v' = v))
      | _ => false
      end
  | _ => false
  end.

(** A method of a handle leaves the version id of the handle alone. *)
Definition keeps_version_id `{Client} {A} (m : M S3File.st A) : Prop :=
  forall s, S3File.version_id (state_of (m s)).1 = S3File.version_id s.1.

(** A computation on a filesystem leaves the directory cache alone. *)
Definition cache_stable `{Client} {A} (m : M S3FileSystem.t A) : Prop :=
  forall fs,
    S3FileSystem.dircache (state_of (m fs)) = S3FileSystem.dircache fs.

(* ===================================================================== *)
(** * Properties *)
(* ===================================================================== *)

(** ** The effect monad *)

Lemma bind_unfold {S A B} (m : M S A) (k : A -> M S B) (s : S) :
  bind m k s =
  match m s with
  | (inr a, s1, t1) => let '(r, s2, t2) := k a s1 in (r, s2, t1 ++ t2)
  | (inl e, s1, t1) => (inl e, s1, t1)
  end.
Proof. reflexivity. Qed.

Lemma bind_raise {S A B} (e : exn) (k : A -> M S B) (s : S) :
  bind (raise e) k s = (inl e, s, []).
Proof. reflexivity. Qed.

Lemma bind_ret {S A B} (a : A) (k : A -> M S B) (s : S) :
  bind (ret a) k s = k a s.
Proof. unfold bind, ret. by destruct (k a s) as [[r s2] t2]. Qed.

Lemma bind_get {S B} (k : S -> M S B) (s : S) :
  bind get k s = k s s.
Proof. unfold bind, get. by destruct (k s s) as [[r s2] t2]. Qed.

(** *** Traces, results and states of compositions *)

Lemma bind_trace {S A B} (m : M S A) (k : A -> M S B) (s : S) :
  trace_of (bind m k s)
  = trace_of (m s)
    ++ match result_of (m s) with
       | inr a => trace_of (k a (state_of (m s)))
       | inl _ => []
       end.
Proof.
  unfold bind, trace_of, result_of, state_of.
  destruct (m s) as [[[e|a] s1] t1]; cbn; [by rewrite app_nil_r|].
  by destruct (k a s1) as [[r s2] t2].
Qed.

Lemma bind_result {S A B} (m : M S A) (k : A -> M S B) (s : S) :
  result_of (bind m k s)
  = match result_of (m s) with
    | inr a => result_of (k a (state_of (m s)))
    | inl e => inl e
    end.
Proof.
  unfold bind, trace_of, result_of, state_of.
  destruct (m s) as [[[e|a] s1] t1]; cbn; [done|].
  by destruct (k a s1) as [[r s2] t2].
Qed.

Lemma bind_state {S A B} (m : M S A) (k : A -> M S B) (s : S) :
  state_of (bind m k s)
  = match result_of (m s) with
    | inr a => state_of (k a (state_of (m s)))
    | inl e => state_of (m s)
    end.
Proof.
  unfold bind, trace_of, result_of, state_of.
  destruct (m s) as [[[e|a] s1] t1]; cbn; [done|].
  by destruct (k a s1) as [[r s2] t2].
Qed.

Lemma run_eta {S A} (x : (exn + A) * S * list event) :
  x = (result_of x, state_of x, trace_of x).
Proof. by destruct x as [[? ?] ?]. Qed.

Lemma bind_self `{Client} {B} (k : S3File.t -> M S3File.st B) (s : S3File.st) :
  bind S3File.self k s = k s.1 s.
Proof. unfold bind, S3File.self. by destruct (k s.1 s) as [[r s2] t2]. Qed.

Lemma bind_update `{Client} {B} (g : S3File.t -> S3File.t)
    (k : unit -> M S3File.st B) (s : S3File.st) :
  bind (S3File.update g) k s = k tt (g s.1, s.2).
Proof.
  unfold bind, S3File.update. by destruct (k tt (g s.1, s.2)) as [[r s2] t2].
Qed.

Lemma bind_on_fs_get `{Client} {B} (k : S3FileSystem.t -> M S3File.st B)
    (s : S3File.st) :
  bind (S3File.on_fs get) k s = k s.2 s.
Proof.
  unfold bind, S3File.on_fs, get. destruct s as [f fs]. cbn.
  by destruct (k fs (f, fs)) as [[r s2] t2].
Qed.

Lemma on_fs_trace `{Client} {A} (m : M S3FileSystem.t A) (s : S3File.st) :
  trace_of (S3File.on_fs m s) = trace_of (m s.2).
Proof. unfold S3File.on_fs, trace_of. by destruct (m s.2) as [[r fs'] tr]. Qed.

Lemma on_fs_result `{Client} {A} (m : M S3FileSystem.t A) (s : S3File.st) :
  result_of (S3File.on_fs m s) = result_of (m s.2).
Proof. unfold S3File.on_fs, result_of. by destruct (m s.2) as [[r fs'] tr]. Qed.

Lemma on_fs_state `{Client} {A} (m : M S3FileSystem.t A) (s : S3File.st) :
  state_of (S3File.on_fs m s) = (s.1, state_of (m s.2)).
Proof. unfold S3File.on_fs, state_of. by destruct (m s.2) as [[r fs'] tr]. Qed.

(** ** Strings and paths *)

Lemma append_cons a (s t : string) : String a s +:+ t = String a (s +:+ t).
Proof. reflexivity. Qed.

Lemma append_nil (t : string) : "" +:+ t = t.
Proof. reflexivity. Qed.

(** The version marker does not overlap itself: it starts a text that
    ends in the marker only where the marker itself starts. *)
Lemma startswith_marker_app (key rest : string) :
  Py.startswith "?versionId=" (key +:+ "?versionId=" +:+ rest) = true ->
  key = "" \/ Py.startswith "?versionId=" key = true.
Proof.
  intros Hs.
  destruct key as [|c0 key]; [by left|]. right.
  rewrite append_cons in Hs. cbn [Py.startswith] in Hs |- *.
  apply andb_prop in Hs as [Hc Hs]. rewrite Hc. cbn [andb].
  do 10 (destruct key as [|? key];
    [ rewrite append_nil in Hs; vm_compute in Hs; discriminate Hs
    | rewrite append_cons in Hs; cbn [Py.startswith] in Hs |- *;
      let H := fresh in apply andb_prop in Hs as [H Hs]; rewrite H; cbn [andb] ]).
  done.
Qed.

(** [partition] cuts at the first occurrence of the marker. *)
Lemma partition_marker (key rest : string) :
  Py.contains "?versionId=" key = false ->
  Py.partition "?versionId=" (key +:+ "?versionId=" +:+ rest)
  = (key, "?versionId=", rest).
Proof.
  induction key as [|c key IH]; intros Hc.
  - reflexivity.
  - cbn [Py.contains] in Hc. apply orb_false_elim in Hc as [Hs Hc].
    destruct (Py.startswith "?versionId=" (String c key +:+ "?versionId=" +:+ rest)) eqn:E.
    + apply startswith_marker_app in E as [E|E]; [done | congruence].
    + rewrite append_cons in E |- *. cbn [Py.partition]. by rewrite E, (IH Hc).
Qed.

Lemma has_slash_app_slash (b rest : string) :
  Py.has_slash (b +:+ "/" +:+ rest) = true.
Proof.
  induction b as [|c b IH]; [reflexivity|].
  rewrite append_cons. cbn [Py.has_slash]. rewrite IH. apply orb_true_r.
Qed.

Lemma split_slash_1_app (b rest : string) :
  Py.has_slash b = false ->
  Py.split_slash_1 (b +:+ "/" +:+ rest) = (b, rest).
Proof.
  induction b as [|c b IH]; intros Hb; [reflexivity|].
  cbn [Py.has_slash] in Hb. apply orb_false_elim in Hb as [Hc Hb].
  rewrite append_cons. cbn [Py.split_slash_1]. rewrite Hc, (IH Hb). done.
Qed.

Lemma lstrip_slash_no_slash (b rest : string) :
  b <> "" -> Py.has_slash b = false ->
  Py.lstrip_slash (b +:+ rest) = b +:+ rest.
Proof.
  destruct b as [|c b]; [done|]. intros _ Hb.
  cbn [Py.has_slash] in Hb. apply orb_false_elim in Hb as [Hc _].
  rewrite append_cons. cbn [Py.lstrip_slash]. by rewrite Hc.
Qed.

(** ** C2: a version marker on a version-unaware filesystem *)

(** C2, as stated, fails: on a version-unaware filesystem the path
    [bucket/key?versionId=v] resolves to the key [key], not to the key
    [key?versionId=v]; the marker is not kept as a suffix of the key. *)
Lemma split_path_unaware_marker_not_kept :
  split_path false "bucket/key?versionId=v" = ("bucket", "key", None)
  /\ split_path false "bucket/key?versionId=v"
     <> ("bucket", "key?versionId=v", None).
Proof. split; [reflexivity | discriminate]. Qed.

(** C2, amended: for every path [bucket/key?versionId=v] (a bucket name
    without a separator, a key in which the marker does not occur, the
    path already free of its protocol), [split_path] on a
    version-unaware filesystem returns the version [None] and the key
    [key]: the marker and the text after it are cut from the key and do
    not become a version. *)
Theorem split_path_unaware_cuts_marker (bucket key v : string) :
  bucket <> "" ->
  Py.has_slash bucket = false ->
  Py.contains "?versionId=" key = false ->
  AbstractFileSystem._strip_protocol (bucket +:+ "/" +:+ key +:+ "?versionId=" +:+ v)
  = bucket +:+ "/" +:+ key +:+ "?versionId=" +:+ v ->
  split_path false (bucket +:+ "/" +:+ key +:+ "?versionId=" +:+ v)
  = (bucket, key, None).
Proof.
  intros Hne Hb Hk Hstrip. unfold split_path. rewrite Hstrip.
  rewrite (lstrip_slash_no_slash _ _ Hne Hb).
  rewrite has_slash_app_slash. cbn [negb].
  rewrite (split_slash_1_app _ _ Hb).
  rewrite (partition_marker _ _ Hk). reflexivity.
Qed.

Lemma split_path_unaware_cuts_marker_witness :
  split_path false "bucket/key?versionId=v" = ("bucket", "key", None).
Proof.
  apply (split_path_unaware_cuts_marker "bucket" "key" "v");
    [discriminate | reflexivity | reflexivity | reflexivity].
Defined.

(** ** C5: invalidation of the directory cache *)

Lemma drop_length (n : nat) (s : string) :
  (String.length (Py.drop n s) <= String.length s)%nat.
Proof.
  revert s. induction n as [|n IH]; intros [|c s]; cbn; try lia.
  specialize (IH s). lia.
Qed.

Lemma strip_one_length (proto p : string) :
  (String.length (AbstractFileSystem.strip_one proto p) <= String.length p)%nat.
Proof.
  unfold AbstractFileSystem.strip_one.
  repeat case_match; try apply drop_length; lia.
Qed.

Lemma rstrip_slash_length (s : string) :
  (String.length (Py.rstrip_slash s) <= String.length s)%nat.
Proof.
  induction s as [|c s IH]; cbn; [lia|].
  destruct (Py.rstrip_slash s); [destruct (Py.is_slash c)|]; cbn in *; lia.
Qed.

Lemma strip_protocol_length (p : string) :
  (String.length (AbstractFileSystem._strip_protocol p) <= String.length p)%nat.
Proof.
  unfold AbstractFileSystem._strip_protocol, AbstractFileSystem.protocol.
  cbn [fold_left].
  pose proof (strip_one_length "s3" p).
  pose proof (strip_one_length "s3a" (AbstractFileSystem.strip_one "s3" p)).
  pose proof (rstrip_slash_length
    (AbstractFileSystem.strip_one "s3a" (AbstractFileSystem.strip_one "s3" p))).
  case_match; cbn; lia.
Qed.

Lemma rsplit_slash_head_length (s : string) :
  Py.has_slash s = true ->
  (String.length (Py.rsplit_slash_head s) < String.length s)%nat.
Proof.
  induction s as [|c s IH]; cbn; [done|].
  destruct (Py.has_slash s) eqn:E.
  - intros _. cbn. specialize (IH eq_refl). lia.
  - rewrite orb_false_r. intros ->. cbn. lia.
Qed.

(** The parent of a non-empty path is strictly shorter: the loop of
    [invalidate_cache] ends. *)
Lemma parent_shorter (p : string) :
  p <> "" ->
  (String.length (AbstractFileSystem._parent p) < String.length p)%nat.
Proof.
  intros Hp. unfold AbstractFileSystem._parent, AbstractFileSystem.root_marker.
  pose proof (strip_protocol_length p).
  destruct (Py.has_slash _) eqn:E.
  - apply rsplit_slash_head_length in E. rewrite append_nil. lia.
  - destruct p; [done|]. cbn. lia.
Qed.

(** The length of the path is enough fuel for the loop: more fuel does
    not change its result. *)
Lemma invalidate_loop_fuel (n m : nat) (path : string) d :
  (String.length path <= n)%nat -> (String.length path <= m)%nat ->
  S3FileSystem.invalidate_loop n path d = S3FileSystem.invalidate_loop m path d.
Proof.
  revert m path d. induction n as [|n IH]; intros m path d Hn Hm.
  - destruct path; [|cbn in Hn; lia]. by destruct m.
  - destruct m as [|m].
    + destruct path; [done | cbn in Hm; lia].
    + cbn [S3FileSystem.invalidate_loop].
      destruct (Py.truthy path) eqn:E; [|done].
      assert (path <> "") as Hne by (intros ->; done).
      pose proof (parent_shorter path Hne).
      apply IH; lia.
Qed.

Lemma invalidate_loop_lookup (fuel : nat) (path : string)
    (d : gmap string (list entry)) (k : string) :
  S3FileSystem.invalidate_loop fuel path d !! k
  = if bool_decide (k ∈ S3FileSystem.ancestors fuel path) then None else d !! k.
Proof.
  revert path d. induction fuel as [|fuel IH]; intros path d; cbn.
  - case_bool_decide as E; [by apply elem_of_nil in E | done].
  - destruct (Py.truthy path).
    + rewrite IH. destruct (decide (k = path)) as [->|Hne].
      * rewrite (bool_decide_eq_true_2 (path ∈ path :: _)) by set_solver.
        case_bool_decide; [done | apply lookup_delete_eq].
      * rewrite lookup_delete_ne by done.
        apply (f_equal (fun b : bool => if b then None else d !! k)).
        apply bool_decide_ext. set_solver.
    + case_bool_decide as E; [by apply elem_of_nil in E | done].
Qed.

Lemma invalidate_dircache_lookup (path : string)
    (d : gmap string (list entry)) (k : string) :
  S3FileSystem.invalidate_dircache (Some path) d !! k
  = let p := AbstractFileSystem._strip_protocol path in
    if bool_decide (k ∈ p :: S3FileSystem.ancestors (String.length p) p)
    then None else d !! k.
Proof.
  cbn. rewrite invalidate_loop_lookup.
  set (p := AbstractFileSystem._strip_protocol path).
  destruct (decide (k = p)) as [->|Hne].
  - rewrite (bool_decide_eq_true_2 (p ∈ p :: _)) by set_solver.
    case_bool_decide; [done | apply lookup_delete_eq].
  - rewrite lookup_delete_ne by done.
    apply (f_equal (fun b : bool => if b then None else d !! k)).
    apply bool_decide_ext. set_solver.
Qed.

Lemma invalidate_cache_state `{Client} (path : option string) (fs : S3FileSystem.t) :
  S3FileSystem.dircache (state_of (S3FileSystem.invalidate_cache path fs))
  = S3FileSystem.invalidate_dircache path (S3FileSystem.dircache fs).
Proof. reflexivity. Qed.

(** C5, as stated, fails: [invalidate_cache("a/b/c")] does not remove the
    entry of the root [""]; a cached bucket listing survives it. *)
Lemma invalidate_cache_keeps_root :
  S3FileSystem.invalidate_dircache (Some "a/b/c")
    {[ "" := [S3FileSystem.bare_directory "a"] ]} !! ""
  = Some [S3FileSystem.bare_directory "a"].
Proof. rewrite invalidate_dircache_lookup. reflexivity. Qed.

(** C5, amended: for every state of the directory cache,
    [invalidate_cache("a/b/c")] removes the entries of exactly [a/b/c],
    [a/b] and [a], and leaves every other cached path unchanged: the
    sibling [a/d], and also the root [""]; [invalidate_cache(None)]
    clears the whole cache. *)
Theorem invalidate_cache_abc `{Client} (fs : S3FileSystem.t) :
  (forall k : string,
     S3FileSystem.dircache
       (state_of (S3FileSystem.invalidate_cache (Some "a/b/c") fs)) !! k
     = if bool_decide (k ∈ ["a/b/c"; "a/b"; "a"]) then None
       else S3FileSystem.dircache fs !! k)
  /\ S3FileSystem.dircache
       (state_of (S3FileSystem.invalidate_cache (Some "a/b/c") fs)) !! ""
     = S3FileSystem.dircache fs !! ""
  /\ S3FileSystem.dircache
       (state_of (S3FileSystem.invalidate_cache (Some "a/b/c") fs)) !! "a/d"
     = S3FileSystem.dircache fs !! "a/d"
  /\ S3FileSystem.dircache (state_of (S3FileSystem.invalidate_cache None fs)) = ∅.
Proof.
  assert (forall k : string,
     S3FileSystem.dircache
       (state_of (S3FileSystem.invalidate_cache (Some "a/b/c") fs)) !! k
     = if bool_decide (k ∈ ["a/b/c"; "a/b"; "a"]) then None
       else S3FileSystem.dircache fs !! k) as Hk.
  { intros k. rewrite invalidate_cache_state, invalidate_dircache_lookup.
    cbv zeta.
    change (AbstractFileSystem._strip_protocol "a/b/c") with "a/b/c".
    change (S3FileSystem.ancestors (String.length "a/b/c") "a/b/c")
      with ["a/b/c"; "a/b"; "a"].
    apply (f_equal (fun b : bool =>
             if b then None else S3FileSystem.dircache fs !! k)).
    apply bool_decide_ext. rewrite !elem_of_cons, !elem_of_nil. tauto. }
  split; [exact Hk|]. split; [|split].
  - rewrite Hk. reflexivity.
  - rewrite Hk. reflexivity.
  - reflexivity.
Qed.

(** ** C10: version ids given twice are coalesced *)

Lemma coalesce_differ (a b : string) :
  a <> b ->
  _coalesce_version_id [Some a; Some b]
  = inl (ValueError "Cannot coalesce version_ids where more than one are defined").
Proof.
  intros Hab. unfold _coalesce_version_id. cbn.
  repeat (case_decide; simplify_eq/=; try done; try lia).
Qed.

Lemma coalesce_agree (x y : option string) :
  x = None \/ y = None \/ x = y ->
  _coalesce_version_id [x; y] = inr (match x with Some _ => x | None => y end).
Proof.
  intros Hxy. unfold _coalesce_version_id. cbn.
  destruct x as [a|], y as [b|];
    repeat (case_decide; simplify_eq/=; try done; try lia);
    destruct Hxy as [?|[?|?]]; simplify_eq.
Qed.

Lemma split_path_version_not_root (va : bool) (p bucket key v : string) :
  split_path va p = (bucket, key, Some v) -> p <> "" /\ p <> "/".
Proof. intros Hp. split; intros ->; by destruct va. Qed.

Section C10.
Context `{Client}.
Variable lsc : gmap string (list entry) -> string -> exn + option (list entry).

Lemma init_version_conflict (fs : S3FileSystem.t) (path mode : string)
    (block_size : Z) (acl a b bucket key : string) (autocommit rp : bool) :
  split_path (S3FileSystem.version_aware fs) path = (bucket, key, Some b) ->
  a <> b ->
  exists msg,
    S3File.__init__ lsc path mode block_size acl (Some a) autocommit rp fs
    = (inl (ValueError msg), fs, []).
Proof.
  intros Hp Hab. unfold S3File.__init__. rewrite bind_get, Hp.
  destruct (Py.truthy key); cbn [negb].
  - rewrite (coalesce_differ _ _ Hab). cbn [lift_result].
    rewrite bind_raise. by eexists.
  - by eexists.
Qed.

Lemma info_version_conflict (fs : S3FileSystem.t) (path : string)
    (refresh : bool) (a b bucket key : string) :
  split_path (S3FileSystem.version_aware fs)
    (AbstractFileSystem._strip_protocol path) = (bucket, key, Some b) ->
  a <> b ->
  exists msg,
    S3FileSystem._info lsc path refresh (Some a) fs
    = (inl (ValueError msg), fs, []).
Proof.
  intros Hp Hab. unfold S3FileSystem._info. rewrite bind_get, Hp.
  destruct (S3FileSystem.version_aware fs) eqn:Hva.
  - rewrite andb_false_r. rewrite bind_ret.
    destruct (split_path_version_not_root _ _ _ _ _ Hp) as [H1 H2].
    rewrite !bool_decide_eq_false_2 by done. cbn [orb].
    rewrite (coalesce_differ _ _ (not_eq_sym Hab)). cbn [lift_result].
    rewrite bind_raise. by eexists.
  - rewrite bool_decide_eq_true_2 by done. cbn [andb negb].
    rewrite bind_raise. by eexists.
Qed.

Lemma open_version_conflict (fs : S3FileSystem.t) (path mode : string)
    (block_size : option Z) (acl a b bucket key : string) (autocommit : bool)
    (rp : option bool) :
  split_path (S3FileSystem.version_aware fs) path = (bucket, key, Some b) ->
  a <> b ->
  exists msg,
    S3File._open lsc path mode block_size acl (Some a) autocommit rp fs
    = (inl (ValueError msg), fs, []).
Proof.
  intros Hp Hab. unfold S3File._open. rewrite bind_get.
  destruct (negb _ && _).
  - by eexists.
  - by eapply init_version_conflict.
Qed.
End C10.

(** ** C9: [find] on a path without a bucket *)

(** C9: a call of [_find] whose path has no bucket component fails with
    [ValueError]; the filesystem (its cache and the state of its client)
    is as before and no event was emitted: no remote call was made. *)
Theorem find_without_bucket_fails `{Client}
    (lsc : gmap string (list entry) -> string -> exn + option (list entry))
    (super_find : string -> Z -> bool -> bool
                  -> M S3FileSystem.t S3FileSystem.find_result)
    (fs : S3FileSystem.t) (path : string) (maxdepth : option Z)
    (withdirs detail : bool) (prefix : string) :
  (split_path (S3FileSystem.version_aware fs)
     (AbstractFileSystem._strip_protocol path)).1.1 = "" ->
  S3FileSystem._find lsc super_find path maxdepth withdirs detail prefix fs
  = (inl (ValueError "Cannot traverse all of S3"), fs, []).
Proof.
  intros Hb. unfold S3FileSystem._find. rewrite bind_get.
  destruct (split_path _ _) as [[bucket key] v]. cbn in Hb. subst bucket.
  reflexivity.
Qed.

Lemma find_without_bucket_fails_witness :
  S3FileSystem._find (H := scripted_client) no_listing
    (fun _ _ _ _ => ret (S3FileSystem.FindNames [])) "" None false false ""
    (scripted_fs false [] ∅)
  = (inl (ValueError "Cannot traverse all of S3"), scripted_fs false [] ∅, []).
Proof.
  apply (find_without_bucket_fails (H := scripted_client)). reflexivity.
Defined.

(** The paths without a bucket component are those that are empty once
    the protocol and the slashes around them are stripped. *)
Lemma no_bucket_iff_empty (va : bool) (p : string) :
  (split_path va p).1.1 = ""
  <-> Py.lstrip_slash (AbstractFileSystem._strip_protocol p) = "".
Proof.
  unfold split_path.
  set (q := Py.lstrip_slash (AbstractFileSystem._strip_protocol p)).
  assert (Hq : forall s, Py.lstrip_slash s <> "" ->
            Py.has_slash (Py.lstrip_slash s) = true ->
            (Py.split_slash_1 (Py.lstrip_slash s)).1 <> "").
  { induction s as [|c s IH]; cbn; [done|].
    destruct (Py.is_slash c) eqn:E; [exact IH|].
    intros _ _. cbn. rewrite E. by destruct (Py.split_slash_1 s). }
  destruct (Py.has_slash q) eqn:E; cbn [negb].
  - destruct (decide (q = "")) as [Heq|Hne].
    + rewrite Heq in E. done.
    + specialize (Hq _ Hne E). fold q in Hq.
      destruct (Py.split_slash_1 q) as [b k]. destruct (Py.partition _ k) as [[? ?] ?].
      cbn in *. split; intros; done.
  - done.
Qed.

(** ** C6: what [_lsdir] stores in the directory cache *)

Section C6.
Context `{Client}.

(** The cache after [_lsdir], by the outcome of the call. *)
Lemma lsdir_dircache (fs : S3FileSystem.t) (path : string) (refresh : bool)
    (max_items : option Z) (delimiter prefix : string) :
  let run := S3FileSystem._lsdir path refresh max_items delimiter prefix fs in
  match result_of run with
  | inr files =>
      S3FileSystem.dircache (state_of run)
      = if Py.truthy delimiter && negb (bool_decide (files = []))
        then <[path := files]> (S3FileSystem.dircache fs)
        else S3FileSystem.dircache fs
  | inl _ => S3FileSystem.dircache (state_of run) = S3FileSystem.dircache fs
  end.
Proof.
  cbv zeta. unfold S3FileSystem._lsdir. rewrite bind_get.
  destruct (split_path _ path) as [[bucket key] v].
  destruct (negb (bool_decide (is_Some (S3FileSystem.dircache fs !! path)))
            || refresh || negb (Py.truthy delimiter)) eqn:Hcond.
  - unfold bind, S3FileSystem.translating, try_except,
      S3FileSystem.invoke, lift_result, ret, raise, modify,
      result_of, state_of; cbn.
    destruct (serve _ _ _) as [[e|pages] s3']; cbn.
    + by destruct (is_ClientError e).
    + destruct (Py.truthy delimiter); cbn; [|done].
      destruct (bool_decide (S3FileSystem.listing bucket pages = [])) eqn:Hl;
        cbn; by rewrite ?Hl.
  - apply orb_false_elim in Hcond as [Hcond Hd].
    apply orb_false_elim in Hcond as [Hc _].
    apply negb_false_iff in Hd. apply negb_false_iff in Hc.
    apply bool_decide_eq_true_1 in Hc as [cached Hc].
    rewrite Hc, Hd. cbn.
    case_bool_decide; cbn; [done|]. by rewrite insert_id.
Qed.

End C6.

(** C6, as stated, fails: the cache can hold an empty listing.
    [_lsbuckets] stores the listing of the buckets under the root
    whatever its length: on a store without buckets, a cache without
    empty entries holds the empty listing for [""] after the call. *)
Lemma lsbuckets_caches_empty_listing :
  let fs := scripted_fs false [] ∅ in
  let run := S3FileSystem._lsbuckets (H := scripted_client) false fs in
  (forall k l, S3FileSystem.dircache fs !! k = Some l -> l <> [])
  /\ result_of run = inr []
  /\ S3FileSystem.dircache (state_of run) !! "" = Some []
  /\ ~ (forall k l,
          S3FileSystem.dircache (state_of run) !! k = Some l -> l <> []).
Proof.
  cbv zeta. split; [|split; [|split]].
  - intros k l Hk. change ((∅ : gmap string (list entry)) !! k = Some l) in Hk.
    by rewrite lookup_empty in Hk.
  - reflexivity.
  - reflexivity.
  - intros Hne. by apply (Hne "" []).
Qed.

(** C6, amended: for every path and every combination of arguments, the
    cache after [_lsdir] is the cache before it with the returned
    listing stored under the path exactly when a delimiter was used and
    the listing is not empty, and is the cache before it otherwise (also
    when the listing fails). Hence a scan without delimiter leaves the
    cache as it was, and [_lsdir] itself never stores an empty listing:
    an empty entry of the cache after the call was there before it, so
    a cache that holds none holds none afterwards. *)
Theorem lsdir_caches_iff_delimited_nonempty `{Client}
    (fs : S3FileSystem.t) (path : string) (refresh : bool)
    (max_items : option Z) (delimiter prefix : string) :
  let run := S3FileSystem._lsdir path refresh max_items delimiter prefix fs in
  let before := S3FileSystem.dircache fs in
  let after := S3FileSystem.dircache (state_of run) in
  match result_of run with
  | inr files =>
      after = if Py.truthy delimiter && negb (bool_decide (files = []))
              then <[path := files]> before else before
  | inl _ => after = before
  end
  /\ (delimiter = "" -> after = before)
  /\ (forall k, after !! k = Some [] -> before !! k = Some [])
  /\ ((forall k l, before !! k = Some l -> l <> []) ->
      (forall k l, after !! k = Some l -> l <> [])).
Proof.
  cbv zeta. pose proof (lsdir_dircache fs path refresh max_items delimiter prefix) as Hd.
  cbv zeta in Hd. split; [exact Hd|].
  assert (forall k,
            S3FileSystem.dircache
              (state_of (S3FileSystem._lsdir path refresh max_items delimiter
                           prefix fs)) !! k = Some [] ->
            S3FileSystem.dircache fs !! k = Some []) as Hempty.
  { intros k. destruct (result_of _) as [e|files]; [by rewrite Hd|].
    rewrite Hd. destruct (Py.truthy delimiter); cbn [andb]; [|done].
    case_bool_decide as Hf; cbn [negb]; [done|].
    destruct (decide (k = path)) as [->|Hne].
    - rewrite lookup_insert_eq. congruence.
    - by rewrite lookup_insert_ne. }
  split; [|split; [exact Hempty|]].
  - intros ->. destruct (result_of _); [done|]. by rewrite Hd.
  - intros Hinv k l Hk Hl. subst l.
    apply (Hinv k []); [by apply Hempty | done].
Qed.

(** ** C7: the retry policy of [_call_s3] *)

(** The back-off: 100 ms before the first retry, never more than 15 s,
    never less than 100 ms, growing with the number of the retry, and
    15 s from the eleventh retry on. *)
Lemma backoff_first : (S3FileSystem.backoff 0 == 1 # 10)%Q.
Proof. reflexivity. Qed.


Lemma backoff_mono (i j : nat) :
  (i <= j)%nat -> (S3FileSystem.backoff i <= S3FileSystem.backoff j)%Q.
Proof.
  intros Hij. unfold S3FileSystem.backoff.
  apply Q.min_le_compat_r.
  apply Qmult_le_compat_r; [|done].
  apply Qpower_le_compat_l; [lia | done].
Qed.

Lemma backoff_ge_first (i : nat) : (1 # 10 <= S3FileSystem.backoff i)%Q.
Proof.
  rewrite <- backoff_first. apply backoff_mono. lia.
Qed.


Section C7.
Context `{Client}.

(** One iteration of the loop of [_call_s3]. *)
Lemma call_s3_loop_step {T} (r : request T) (n i : nat) (err : option exn)
    (fs : S3FileSystem.t) :
  S3FileSystem.call_s3_loop r (S n) i err fs
  = match serve T (S3FileSystem.s3 fs) r with
    | (inr out, s3') => (inr out, S3FileSystem.set_s3 s3' fs, [Attempt r None])
    | (inl e, s3') =>
        if S3_RETRYABLE_ERRORS e then
          let '(res, fs2, tr) :=
            S3FileSystem.call_s3_loop r n (S i) (Some e)
              (S3FileSystem.set_s3 s3' fs) in
          (res, fs2, Attempt r (Some e) :: Sleep (S3FileSystem.backoff i) :: tr)
        else (inl (translate_boto_error (S3FileSystem.recover e)),
              S3FileSystem.set_s3 s3' fs, [Attempt r (Some e)])
    end.
Proof.
  cbn [S3FileSystem.call_s3_loop]. unfold bind, S3FileSystem.invoke.
  destruct (serve T (S3FileSystem.s3 fs) r) as [[e|out] s3']; [|done].
  destruct (S3_RETRYABLE_ERRORS e); [|done].
  unfold emit.
  by destruct (S3FileSystem.call_s3_loop r n (S i) (Some e) _) as [[res fs2] tr].
Qed.

Lemma call_s3_loop_shape {T} (r : request T) (n i : nat) (err : option exn)
    (fs : S3FileSystem.t) :
  let run := S3FileSystem.call_s3_loop r n i err fs in
  exists (k : nat) (tail : list event),
    (k <= n)%nat
    /\ trace_of run = S3FileSystem.retry_rounds r i k ++ tail
    /\ ((exists out, k < n /\ tail = [Attempt r None]
                     /\ result_of run = inr out)%nat
        \/ (exists e, k < n /\ S3_RETRYABLE_ERRORS e = false
                      /\ tail = [Attempt r (Some e)]
                      /\ result_of run
                         = inl (translate_boto_error (S3FileSystem.recover e)))%nat
        \/ (k = n /\ tail = []
            /\ result_of run
               = match (if k is O then err else Some SocketTimeout) with
                 | Some e => inl (translate_boto_error (S3FileSystem.recover e))
                 | None => inl (UnboundLocalError "err")
                 end)).
Proof.
  cbv zeta. revert i err fs. induction n as [|n IH]; intros i err fs.
  - exists 0%nat, []. split; [lia|]. split; [by destruct err|].
    right; right. by destruct err.
  - rewrite call_s3_loop_step.
    destruct (serve T (S3FileSystem.s3 fs) r) as [[e|out] s3'].
    + destruct (S3_RETRYABLE_ERRORS e) eqn:He.
      * assert (e = SocketTimeout) as -> by (by destruct e).
        destruct (IH (S i) (Some SocketTimeout) (S3FileSystem.set_s3 s3' fs))
          as (k & tail & Hk & Htr & Hres).
        destruct (S3FileSystem.call_s3_loop r n (S i) (Some SocketTimeout)
                    (S3FileSystem.set_s3 s3' fs)) as [[res fs2] tr] eqn:Hrun.
        unfold trace_of, result_of in *. cbn in Htr, Hres |- *.
        exists (S k), tail. split; [lia|]. split; [by rewrite Htr|].
        destruct Hres as [(out & ? & ? & ?)|[(e & ? & ? & ? & ?)|(? & ? & Hr)]].
        -- left. exists out. repeat split; [lia|done..].
        -- right; left. exists e. repeat split; [lia|done..].
        -- right; right. repeat split; [lia|done|].
           rewrite Hr. by destruct k.
      * exists 0%nat, [Attempt r (Some e)]. split; [lia|]. split; [done|].
        right; left. exists e. repeat split; [lia|done..].
    + exists 0%nat, [Attempt r None]. split; [lia|]. split; [done|].
      left. exists out. repeat split; [lia|done..].
Qed.

End C7.



(** ** C4: the order of invalidation and remote effect *)

Section C4.
Context `{Client}.

(** A call through [_call_s3] leaves the cache alone and invalidates
    nothing. *)
Lemma call_s3_loop_frame {T} (r : request T) (n i : nat) (err : option exn)
    (fs : S3FileSystem.t) :
  S3FileSystem.dircache (state_of (S3FileSystem.call_s3_loop r n i err fs))
  = S3FileSystem.dircache fs
  /\ S3FileSystem.version_aware (state_of (S3FileSystem.call_s3_loop r n i err fs))
     = S3FileSystem.version_aware fs
  /\ S3FileSystem.retries (state_of (S3FileSystem.call_s3_loop r n i err fs))
     = S3FileSystem.retries fs
  /\ Forall (fun ev => is_invalidate ev = false)
       (trace_of (S3FileSystem.call_s3_loop r n i err fs)).
Proof.
  revert i err fs. induction n as [|n IH]; intros i err fs.
  - by destruct err.
  - rewrite call_s3_loop_step.
    destruct (serve T (S3FileSystem.s3 fs) r) as [[e|out] s3'].
    + destruct (S3_RETRYABLE_ERRORS e).
      * destruct (IH (S i) (Some e) (S3FileSystem.set_s3 s3' fs))
          as (Hd & Hv & Hr & Ht).
        destruct (S3FileSystem.call_s3_loop r n (S i) (Some e) _)
          as [[res fs2] tr].
        unfold state_of, trace_of in *. cbn in *.
        repeat split; try done. by repeat constructor.
      * repeat split; try done. by repeat constructor.
    + repeat split; try done. by repeat constructor.
Qed.

Lemma call_s3_frame {T} (r : request T) (fs : S3FileSystem.t) :
  S3FileSystem.dircache (state_of (S3FileSystem._call_s3 r fs))
  = S3FileSystem.dircache fs
  /\ S3FileSystem.version_aware (state_of (S3FileSystem._call_s3 r fs))
     = S3FileSystem.version_aware fs
  /\ S3FileSystem.retries (state_of (S3FileSystem._call_s3 r fs))
     = S3FileSystem.retries fs
  /\ Forall (fun ev => is_invalidate ev = false)
       (trace_of (S3FileSystem._call_s3 r fs)).
Proof.
  unfold S3FileSystem._call_s3. rewrite bind_get. apply call_s3_loop_frame.
Qed.

(** A call through [_call_s3] that returns ends with the attempt that
    succeeded. *)
Lemma call_s3_success_last {T} (r : request T) (fs : S3FileSystem.t) (out : T) :
  result_of (S3FileSystem._call_s3 r fs) = inr out ->
  exists tr, trace_of (S3FileSystem._call_s3 r fs) = tr ++ [Attempt r None].
Proof.
  unfold S3FileSystem._call_s3. rewrite bind_get.
  destruct (call_s3_loop_shape r (S3FileSystem.retries fs) 0 None fs)
    as (k & tail & Hk & Htr & Hres).
  intros Hout. rewrite Htr.
  destruct Hres as [(? & ? & -> & ?)|[(? & ? & ? & ? & Hr)|(? & ? & Hr)]].
  - by eexists.
  - rewrite Hr in Hout. done.
  - rewrite Hr in Hout. by repeat case_match.
Qed.

(** X3: [_touch] (with [truncate]) invalidates the cache entry of the
    parent only after its [put_object] succeeded, as the last event of
    the run, and not at all when it failed: then no entry is
    invalidated and the cache is as it was. *)
Lemma touch_invalidates_after_put
    (lsc : gmap string (list entry) -> string -> exn + option (list entry))
    (fs : S3FileSystem.t) (path : string) (kw : kwargs) :
  let run := S3FileSystem._touch lsc path true kw fs in
  match result_of run with
  | inr _ =>
      exists tr,
        trace_of run
        = tr ++ [Attempt (put_object (split_path (S3FileSystem.version_aware fs) path).1.1
                            (split_path (S3FileSystem.version_aware fs) path).1.2
                            None kw) None;
                 Invalidate (Some (AbstractFileSystem._parent path))]
        /\ Forall (fun ev => is_invalidate ev = false) tr
  | inl _ =>
      Forall (fun ev => is_invalidate ev = false) (trace_of run)
      /\ S3FileSystem.dircache (state_of run) = S3FileSystem.dircache fs
  end.
Proof.
  cbv zeta. unfold S3FileSystem._touch. rewrite bind_get.
  destruct (split_path _ path) as [[bucket key] v]. cbn [fst snd].
  destruct (Py.truthy_opt v); [by split|].
  cbn [negb]. rewrite bind_ret.
  rewrite bind_unfold. unfold S3FileSystem.translating, try_except.
  pose proof (call_s3_frame (put_object bucket key None kw) fs)
    as (Hd & _ & _ & Hni).
  pose proof (call_s3_success_last (put_object bucket key None kw) fs) as Hlast.
  destruct (S3FileSystem._call_s3 (put_object bucket key None kw) fs)
    as [[[e|wr] fs1] tr1].
  - unfold state_of, trace_of, result_of in *. cbn in *.
    destruct (is_ClientError e); cbn; by rewrite app_nil_r.
  - unfold state_of, trace_of, result_of in *. cbn in *.
    destruct (Hlast wr eq_refl) as [tr Htr]. subst tr1.
    exists tr. split; [by rewrite <- app_assoc|].
    by apply Forall_app in Hni as [? _].
Qed.

End C4.

(** C4, evaluated where it fails: [_bulk_delete] on one path invalidates
    the cache entry of the parent of the path before it issues
    [delete_objects]; the entry is gone even when the remote call then
    fails. The other mutating operations invalidate after their remote
    call succeeded ([touch_invalidates_after_put]). *)
Theorem bulk_delete_invalidates_before_delete `{Client} (fs : S3FileSystem.t) :
  let run := S3FileSystem._bulk_delete ["bucket/dir/file"] [] fs in
  (exists tr, trace_of run = Invalidate (Some "bucket/dir") :: tr
              /\ Forall (fun ev => is_invalidate ev = false) tr)
  /\ S3FileSystem.dircache (state_of run) !! "bucket/dir" = None.
Proof.
  cbv zeta. unfold S3FileSystem._bulk_delete. rewrite bind_get.
  assert (Hsp : split_path (S3FileSystem.version_aware fs) "bucket/dir/file"
                = ("bucket", "dir/file", None)) by (by destruct (S3FileSystem.version_aware fs)).
  cbn [map py_set]. rewrite Hsp. cbn [fst snd filter list_filter length].
  rewrite decide_False by lia. rewrite decide_False by lia.
  cbn [for_each]. rewrite bind_unfold.
  change (AbstractFileSystem._parent "bucket/dir/file") with "bucket/dir".
  cbn -[S3FileSystem._call_s3 S3FileSystem.invalidate_dircache].
  set (fs1 := S3FileSystem.set_dircache _ fs).
  pose proof (call_s3_frame (delete_objects "bucket" ["dir/file"] []) fs1)
    as (Hd & _ & _ & Hni).
  destruct (S3FileSystem._call_s3 _ fs1) as [[res fs2] tr].
  unfold state_of, trace_of in *. cbn in *. split.
  - by exists tr.
  - rewrite Hd.
    change (S3FileSystem.invalidate_dircache (Some "bucket/dir")
              (S3FileSystem.dircache fs) !! "bucket/dir" = None).
    rewrite invalidate_dircache_lookup. reflexivity.
Qed.

Example bulk_delete_failing_run :
  let fs := scripted_fs false [Some (ClientError "AccessDenied" "denied" "DeleteObjects")]
              {[ "bucket/dir" := [S3FileSystem.bare_directory "bucket/dir/file"] ]} in
  let run := S3FileSystem._bulk_delete (H := scripted_client) ["bucket/dir/file"] [] fs in
  trace_of run
  = [Invalidate (Some "bucket/dir");
     Attempt (delete_objects "bucket" ["dir/file"] [])
       (Some (ClientError "AccessDenied" "denied" "DeleteObjects"))]
  /\ result_of run = inl (OSError PermissionK [AStr "denied"])
  /\ S3FileSystem.dircache (state_of run) = ∅.
Proof. vm_compute. repeat split. Qed.

(** ** C3: the three ways of [commit] *)

Section C3.
Context `{Client}.
Variable lsc : gmap string (list entry) -> string -> exn + option (list entry).

Lemma retry_rounds_events {T} (r : request T) (i k : nat) :
  Forall (fun ev => (exists d, ev = Sleep d) \/ (exists o, ev = Attempt r o))
    (S3FileSystem.retry_rounds r i k).
Proof.
  revert i. induction k as [|k IH]; intros i; cbn; [apply Forall_nil_2|].
  apply Forall_cons_2; [right; by eexists|].
  apply Forall_cons_2; [left; by eexists|]. apply IH.
Qed.

(** The events of a call through [_call_s3] are attempts at the
    request of the call, and sleeps. *)
Lemma call_s3_events {T} (r : request T) (fs : S3FileSystem.t) :
  Forall (fun ev => (exists d, ev = Sleep d) \/ (exists o, ev = Attempt r o))
    (trace_of (S3FileSystem._call_s3 r fs)).
Proof.
  unfold S3FileSystem._call_s3. rewrite bind_get.
  destruct (call_s3_loop_shape r (S3FileSystem.retries fs) 0 None fs)
    as (k & tail & _ & -> & Hres).
  apply Forall_app. split; [apply retry_rounds_events|].
  destruct Hres as [(? & ? & -> & ?)|[(? & ? & ? & -> & ?)|(? & -> & ?)]];
    first [apply Forall_nil_2 | apply Forall_singleton; right; by eexists].
Qed.

(** The cache invalidation that ends [commit] emits invalidations
    only. *)
Lemma commit_invalidate_events (path : string) (ps : list string)
    (s : S3File.st) :
  Forall (fun ev => is_invalidate ev = true)
    (trace_of (S3File.commit_invalidate path ps s)).
Proof.
  revert path s. induction ps as [|p ps IH]; intros path s;
    cbn [S3File.commit_invalidate]; [apply Forall_nil_2|].
  rewrite bind_get. rewrite bind_trace. apply Forall_app. split.
  - destruct (S3FileSystem.dircache s.2 !! path); [|apply Forall_nil_2].
    case_bool_decide; [|apply Forall_nil_2].
    rewrite on_fs_trace. by apply Forall_singleton.
  - destruct (result_of _); [apply Forall_nil_2 | apply IH].
Qed.

Lemma commit_rest_events (f : S3File.t) (fs : S3FileSystem.t)
    (wr : option write_result) (s : S3File.st) :
  Forall (fun ev => is_invalidate ev = true)
    (trace_of (S3File.commit_rest f fs wr s)).
Proof.
  unfold S3File.commit_rest. rewrite bind_trace. apply Forall_app. split.
  - destruct (S3FileSystem.version_aware fs); [|apply Forall_nil_2].
    destruct wr; apply Forall_nil_2.
  - destruct (result_of _); [apply Forall_nil_2|].
    rewrite bind_update.
    destruct (Py.split_slash _);
      [apply Forall_nil_2 | apply commit_invalidate_events].
Qed.

Lemma translating_trace {A} (m : M S3FileSystem.t A) (fs : S3FileSystem.t) :
  trace_of (S3FileSystem.translating m fs) = trace_of (m fs).
Proof.
  unfold S3FileSystem.translating, try_except, trace_of.
  destruct (m fs) as [[[e|a] fs1] tr]; [|done].
  destruct (is_ClientError e); cbn; by rewrite app_nil_r.
Qed.







Lemma bind_assoc_trace {S A B C} (m : M S A) (k : A -> M S B)
    (k' : B -> M S C) (s : S) :
  trace_of (bind m (fun a => bind (k a) k') s)
  = trace_of (bind (bind m k) k' s).
Proof.
  rewrite !bind_trace, bind_result, bind_state.
  destruct (result_of (m s)); [by rewrite !app_nil_r|].
  by rewrite bind_trace, app_assoc.
Qed.

(** [commit] is a write followed by [commit_rest]: its events are those
    of the write and then invalidations, and an error of the write is
    its error. *)
Lemma commit_after_write {A} (m : M S3File.st (option write_result))
    (w : M S3File.st A) (f : S3File.t) (fs : S3FileSystem.t) (s : S3File.st) :
  trace_of (m s) = trace_of (w s) ->
  (forall e, result_of (w s) = inl e -> result_of (m s) = inl e) ->
  exists inv,
    trace_of (bind m (S3File.commit_rest f fs) s) = trace_of (w s) ++ inv
    /\ Forall (fun ev => is_invalidate ev = true) inv
    /\ (forall e,
          match result_of (w s) with inl e => Some e | inr _ => None end = Some e ->
          result_of (bind m (S3File.commit_rest f fs) s) = inl e /\ inv = []).
Proof.
  intros Ht Hr. rewrite bind_trace, bind_result, Ht.
  eexists. split; [reflexivity|]. split.
  - destruct (result_of (m s)); [apply Forall_nil_2 | apply commit_rest_events].
  - intros e He. destruct (result_of (w s)) as [e'|] eqn:Hw; [|done].
    simplify_eq. by rewrite (Hr e eq_refl).
Qed.
End C3.




(** Concrete runs of the three ways. *)
Example commit_empty_run :
  trace_of (S3File.commit (H := scripted_client) no_listing
              (scripted_file (5 * 2 ^ 20) 0 (Some []) (Some "upload-1") (Some []) false,
               scripted_fs false [] ∅))
  = [Attempt (abort_multipart_upload "bucket" "key" "upload-1") None;
     Attempt (put_object "bucket" "key" None []) None;
     Invalidate (Some "bucket")].
Proof. vm_compute. reflexivity. Qed.

Example commit_one_shot_run :
  trace_of (S3File.commit (H := scripted_client) no_listing
              (scripted_file (5 * 2 ^ 20) 3 (Some [Byte.x61; Byte.x62; Byte.x63]) None None true,
               scripted_fs false [] ∅))
  = [Attempt (put_object "bucket" "key" (Some [Byte.x61; Byte.x62; Byte.x63]) []) None].
Proof. vm_compute. reflexivity. Qed.

Example commit_multipart_run :
  trace_of (S3File.commit (H := scripted_client) no_listing
              (scripted_file 2 5 (Some []) (Some "upload-1")
                 (Some [{| PartNumber := 1; part_ETag := "e1" |};
                        {| PartNumber := 2; part_ETag := "e2" |}]) true,
               scripted_fs false [] ∅))
  = [Attempt (complete_multipart_upload "bucket" "key" "upload-1"
                [{| PartNumber := 1; part_ETag := "e1" |};
                 {| PartNumber := 2; part_ETag := "e2" |}]) None].
Proof. vm_compute. reflexivity. Qed.

(** ** C8: the integrity precondition of a read handle *)

Lemma bind_inv {S A B} (m : M S A) (k : A -> M S B) (s s' : S) (b : B)
    (t : list event) :
  bind m k s = (inr b, s', t) ->
  exists a s1 t1 t2,
    m s = (inr a, s1, t1) /\ k a s1 = (inr b, s', t2) /\ t = t1 ++ t2.
Proof.
  unfold bind. destruct (m s) as [[[e|a] s1] t1]; [done|].
  destruct (k a s1) as [[r s2] t2] eqn:Hk. intros [= -> -> <-].
  by exists a, s1, t1, t2.
Qed.

Lemma try_except_trace_silent {S A} (m : M S A) (h : exn -> M S A) (s : S) :
  (forall e s1, trace_of (h e s1) = []) ->
  trace_of (try_except m h s) = trace_of (m s).
Proof.
  intros Hh. unfold try_except.
  destruct (m s) as [[[e|a] s1] t1]; [|done].
  specialize (Hh e s1). unfold trace_of in *.
  destruct (h e s1) as [[r s2] t2]. cbn in *. subst. by rewrite app_nil_r.
Qed.

Section C8.
Context `{Client}.
Variable lsc : gmap string (list entry) -> string -> exn + option (list entry).

(** Every remote call of [_fetch_range] is the ranged get with the
    keyword arguments of the handle. *)
Lemma fetch_range_events (f : S3File.t) (fs : S3FileSystem.t) (start end_ : Z) :
  Forall (fun ev => (exists d, ev = Sleep d)
                    \/ (exists o, ev = Attempt (S3File.ranged_get f start end_) o))
    (trace_of (S3File._fetch_range start end_ (f, fs))).
Proof.
  unfold S3File._fetch_range. rewrite bind_self. cbn [fst].
  rewrite try_except_trace_silent.
  - rewrite on_fs_trace. unfold S3File._fetch_range_. cbn [snd default].
    case_bool_decide; [apply Forall_nil_2|]. apply call_s3_events.
  - intros e s1. destruct (is_OSError e); [|done].
    destruct (S3File.precondition_failed e) as [?|[]]; try done.
    cbn. destruct (S3File.details f) as [d|]; [|done].
    by destruct (e_ETag d).
Qed.

(** The handler of [S3File._fetch_range] turns the invalid-argument
    [OSError] whose message names the pre-conditions into
    [FileExpired]. *)
Lemma fetch_range_expired (f : S3File.t) (fs : S3FileSystem.t)
    (start end_ : Z) (k : os_kind) (msg : string) (rest : list pyarg)
    (d : entry) (e_tag : string) :
  start <> end_ ->
  S3File.details f = Some d -> e_ETag d = Some e_tag ->
  result_of (S3FileSystem._call_s3 (S3File.ranged_get f start end_) fs)
  = inl (OSError k (AInt EINVAL :: AStr msg :: rest)) ->
  Py.contains "pre-conditions" msg = true ->
  S3File._fetch_range start end_ (f, fs)
  = (inl (FileExpired (e_name d) e_tag),
     (f, state_of (S3FileSystem._call_s3 (S3File.ranged_get f start end_) fs)),
     trace_of (S3FileSystem._call_s3 (S3File.ranged_get f start end_) fs)).
Proof.
  intros Hse Hd He Hcall Hpre.
  unfold S3File._fetch_range. rewrite bind_self. cbn [fst].
  unfold try_except, S3File.on_fs, S3File._fetch_range_. cbn [snd default].
  rewrite bool_decide_eq_false_2 by done.
  unfold S3File.ranged_get in *. unfold result_of, state_of, trace_of in *.
  destruct (S3FileSystem._call_s3 _ fs) as [[r fs1] t1]. cbn in Hcall. subst r.
  cbn [is_OSError S3File.precondition_failed exn_args fst snd].
  rewrite bool_decide_eq_true_2 by done. cbn [lift_result].
  rewrite bind_ret, Hpre. unfold raise.
  rewrite Hd, He. cbn. by rewrite app_nil_r.
Qed.

(** A read that fails at the gateway fails: no bytes are returned. *)
Lemma fetch_range_fails (f : S3File.t) (fs : S3FileSystem.t)
    (start end_ : Z) (ex : exn) :
  start <> end_ ->
  result_of (S3FileSystem._call_s3 (S3File.ranged_get f start end_) fs) = inl ex ->
  exists ex', result_of (S3File._fetch_range start end_ (f, fs)) = inl ex'.
Proof.
  intros Hse Hcall.
  unfold S3File._fetch_range. rewrite bind_self. cbn [fst].
  unfold try_except, S3File.on_fs, S3File._fetch_range_. cbn [snd default].
  rewrite bool_decide_eq_false_2 by done.
  unfold S3File.ranged_get in *. unfold result_of in *.
  destruct (S3FileSystem._call_s3 _ fs) as [[r fs1] t1]. cbn in Hcall. subst r.
  destruct (is_OSError ex); [|by eexists].
  destruct (S3File.precondition_failed ex) as [e|[]]; cbn; try by eexists.
  destruct (S3File.details f) as [d|]; [|by eexists].
  destruct (e_ETag d); by eexists.
Qed.

(** The gateway on an invocation that fails at once with an error that
    is not retried. *)
Lemma call_s3_first_error {T} (r : request T) (fs : S3FileSystem.t)
    (e : exn) (s3' : remote) :
  (0 < S3FileSystem.retries fs)%nat ->
  serve T (S3FileSystem.s3 fs) r = (inl e, s3') ->
  S3_RETRYABLE_ERRORS e = false ->
  S3FileSystem._call_s3 r fs
  = (inl (translate_boto_error (S3FileSystem.recover e)),
     S3FileSystem.set_s3 s3' fs, [Attempt r (Some e)]).
Proof.
  intros Hn Hserve Hre. unfold S3FileSystem._call_s3. rewrite bind_get.
  destruct (S3FileSystem.retries fs) as [|n]; [lia|].
  by rewrite call_s3_loop_step, Hserve, Hre.
Qed.

(** A handle opened for reading carries the ETag of its details as the
    [IfMatch] keyword. *)
Lemma init_read_if_match (fs fs' : S3FileSystem.t) (path mode : string)
    (block_size : Z) (acl : string) (v : option string) (autocommit rp : bool)
    (f : S3File.t) (tr : list event) :
  S3File.__init__ lsc path mode block_size acl v autocommit rp fs
  = (inr f, fs', tr) ->
  Py.contains "r" mode = true ->
  exists d e_tag,
    S3File.details f = Some d /\ e_ETag d = Some e_tag
    /\ ("IfMatch", e_tag) ∈ S3File.req_kw f.
Proof.
  intros Hrun Hr. revert Hrun. unfold S3File.__init__. rewrite bind_get.
  destruct (split_path _ path) as [[bucket key] pv].
  destruct (Py.truthy key); cbn [negb]; [|done].
  destruct (_coalesce_version_id [v; pv]) as [e|vid]; cbn [lift_result];
    [by rewrite bind_raise|].
  intros Hrun.
  apply bind_inv in Hrun as (vid0 & fs0 & t0 & t0' & Hret & Hrun & _).
  injection Hret as <- <- _. revert Hrun.
  destruct (_ && _); [done|].
  rewrite Hr. cbn [negb].
  intros Hrun.
  apply bind_inv in Hrun as ([[vid' det] sz] & fs1 & t1 & t2 & _ & Hrun & _).
  revert Hrun. case_bool_decide as Hmode; cbn [negb]; [|done].
  assert (mode = "rb") as ->.
  { repeat (apply elem_of_cons in Hmode as [->|Hmode]; [try done|]).
    by apply elem_of_nil in Hmode. }
  rewrite bool_decide_eq_true_2 by done. intros Hrun.
  apply bind_inv in Hrun as ([det' sz'] & fs2 & t3 & t4 & Hdet & Hrun & _).
  apply bind_inv in Hdet as (d & fs3 & t5 & t6 & _ & Hdet & _).
  injection Hdet as <- <- <- _.
  revert Hrun.
  change (Py.contains "a" "rb") with false.
  change (Py.contains "r" "rb") with true.
  cbv iota. rewrite !bind_ret. cbv iota.
  destruct (e_ETag d) as [e_tag|] eqn:He; [|done].
  intros [= <- _ _].
  exists d, e_tag. split; [done|]. split; [done|].
  cbn. apply elem_of_app. right. by apply list_elem_of_singleton.
Qed.
End C8.

(** C8: a handle opened in a read mode holds the ETag of the details it
    recorded when it was opened as its [IfMatch] keyword; every remote
    call of [_fetch_range] on it is the ranged [get_object] with the
    keywords of the handle, hence with that precondition. When the
    gateway raises, for such a get, the invalid-argument [OSError] whose
    message names the pre-conditions, [_fetch_range] raises
    [FileExpired] with the name and the ETag of the handle; so it does
    when the store answers the get with an error that is not retried
    and that the translation of remote errors turns into this
    [OSError]: the events are this one attempt. A read whose get fails
    returns no bytes. *)
Theorem read_handle_sends_etag `{Client}
    (lsc : gmap string (list entry) -> string -> exn + option (list entry))
    (fs fs' : S3FileSystem.t) (path mode : string) (block_size : Z)
    (acl : string) (v : option string) (autocommit rp : bool)
    (f : S3File.t) (tr : list event) :
  S3File.__init__ lsc path mode block_size acl v autocommit rp fs
  = (inr f, fs', tr) ->
  Py.contains "r" mode = true ->
  exists d e_tag,
    S3File.details f = Some d /\ e_ETag d = Some e_tag
    /\ ("IfMatch", e_tag) ∈ S3File.req_kw f
    /\ (forall (fs1 : S3FileSystem.t) (start end_ : Z),
          Forall (fun ev =>
                    (exists dl, ev = Sleep dl)
                    \/ (exists o, ev = Attempt (S3File.ranged_get f start end_) o))
            (trace_of (S3File._fetch_range start end_ (f, fs1))))
    /\ (forall (fs1 : S3FileSystem.t) (start end_ : Z) (k : os_kind)
           (msg : string) (rest : list pyarg),
          start <> end_ ->
          result_of (S3FileSystem._call_s3 (S3File.ranged_get f start end_) fs1)
          = inl (OSError k (AInt EINVAL :: AStr msg :: rest)) ->
          Py.contains "pre-conditions" msg = true ->
          result_of (S3File._fetch_range start end_ (f, fs1))
          = inl (FileExpired (e_name d) e_tag))
    /\ (forall (fs1 : S3FileSystem.t) (start end_ : Z) (e : exn) (s3' : remote)
           (k : os_kind) (msg : string) (rest : list pyarg),
          start <> end_ ->
          (0 < S3FileSystem.retries fs1)%nat ->
          serve bytes (S3FileSystem.s3 fs1) (S3File.ranged_get f start end_)
          = (inl e, s3') ->
          S3_RETRYABLE_ERRORS e = false ->
          translate_boto_error (S3FileSystem.recover e)
          = OSError k (AInt EINVAL :: AStr msg :: rest) ->
          Py.contains "pre-conditions" msg = true ->
          S3File._fetch_range start end_ (f, fs1)
          = (inl (FileExpired (e_name d) e_tag),
             (f, S3FileSystem.set_s3 s3' fs1),
             [Attempt (S3File.ranged_get f start end_) (Some e)]))
    /\ (forall (fs1 : S3FileSystem.t) (start end_ : Z) (ex : exn),
          start <> end_ ->
          result_of (S3FileSystem._call_s3 (S3File.ranged_get f start end_) fs1)
          = inl ex ->
          exists ex', result_of (S3File._fetch_range start end_ (f, fs1)) = inl ex').
Proof.
  intros Hrun Hr.
  destruct (init_read_if_match lsc _ _ _ _ _ _ _ _ _ _ _ Hrun Hr)
    as (d & e_tag & Hd & He & Hkw).
  exists d, e_tag. repeat split; try done.
  - intros. apply fetch_range_events.
  - intros * Hse Hcall Hpre.
    by rewrite (fetch_range_expired _ _ _ _ _ _ _ _ _ Hse Hd He Hcall Hpre).
  - intros * Hse Hn Hserve Hre Htr Hpre.
    pose proof (call_s3_first_error _ _ _ _ Hn Hserve Hre) as Hcall.
    rewrite Htr in Hcall.
    rewrite (fetch_range_expired _ _ _ _ k msg rest _ _ Hse Hd He); [|by rewrite Hcall|done].
    by rewrite Hcall.
  - intros * Hse Hcall. by eapply fetch_range_fails.
Qed.

Lemma read_handle_sends_etag_witness :
  let fs := scripted_fs true
              [None;
               Some (ClientError "PreconditionFailed"
                       "At least one of the pre-conditions you specified did not hold"
                       "GetObject")] ∅ in
  let opened := S3File.__init__ (H := scripted_client) no_listing "b/k" "rb"
                  (5 * 2 ^ 20) "" None true false fs in
  exists f,
    result_of opened = inr f
    /\ ("IfMatch", "etag") ∈ S3File.req_kw f
    /\ result_of (S3File._fetch_range (H := scripted_client) 0 10
                    (f, state_of opened))
       = inl (FileExpired "b/k" "etag").
Proof.
  cbv zeta.
  destruct (S3File.__init__ (H := scripted_client) no_listing "b/k" "rb"
              (5 * 2 ^ 20) "" None true false
              (scripted_fs true
                 [None;
                  Some (ClientError "PreconditionFailed"
                          "At least one of the pre-conditions you specified did not hold"
                          "GetObject")] ∅))
    as [[[e|f] fs'] tr] eqn:Hrun.
  - exfalso. vm_compute in Hrun. discriminate Hrun.
  - pose proof Hrun as Hval. vm_compute in Hval.
    injection Hval as Hf Hfs Htr.
    destruct (read_handle_sends_etag (H := scripted_client) no_listing
                _ _ _ _ _ _ _ _ _ _ _ Hrun eq_refl)
      as (d & e_tag & Hd & He & Hkw & _ & _ & Hexp & _).
    rewrite <- Hf in Hd. injection Hd as Hd. rewrite <- Hd in He.
    injection He as He.
    exists f. split; [reflexivity|]. split; [by rewrite <- He in Hkw|].
    unfold state_of, result_of. cbn [fst snd].
    rewrite (Hexp fs' 0 10
               (ClientError "PreconditionFailed"
                  "At least one of the pre-conditions you specified did not hold"
                  "GetObject")
               [] IOErrorK
               "At least one of the pre-conditions you specified did not hold" []).
    + cbn [fst]. by rewrite <- Hd, <- He.
    + discriminate.
    + rewrite <- Hfs. cbn. lia.
    + rewrite <- Hfs, <- Hf. reflexivity.
    + reflexivity.
    + reflexivity.
    + reflexivity.
Defined.

(** A concrete run: the object changes between the open and the read. *)
Example fetch_range_expired_run :
  let fs := scripted_fs true
              [None;
               Some (ClientError "PreconditionFailed"
                       "At least one of the pre-conditions you specified did not hold"
                       "GetObject")] ∅ in
  let opened := S3File.__init__ (H := scripted_client) no_listing "b/k" "rb"
                  (5 * 2 ^ 20) "" None true false fs in
  match result_of opened with
  | inr f =>
      let read := S3File._fetch_range (H := scripted_client) 0 10
                    (f, state_of opened) in
      result_of read = inl (FileExpired "b/k" "etag")
      /\ trace_of read
         = [Attempt (get_object "b" "k" (Some (Some 0, Some 9)) None
                       [("IfMatch", "etag")])
              (Some (ClientError "PreconditionFailed"
                       "At least one of the pre-conditions you specified did not hold"
                       "GetObject"))]
  | inl _ => False
  end.
Proof. vm_compute. split; reflexivity. Qed.

(** ** C1: the rebalancing of [_upload_chunk] *)

Lemma part_min_value : S3File.part_min = 5242880.
Proof. reflexivity. Qed.

Lemma part_max_value : S3File.part_max = 5368709120.
Proof. reflexivity. Qed.

Lemma read_app (n : Z) (rest : bytes) :
  (S3File.read n rest).1 ++ (S3File.read n rest).2 = rest.
Proof.
  unfold S3File.read. destruct (n <? 0); cbn; [apply app_nil_r | apply take_drop].
Qed.

Lemma read_length (n : Z) (rest : bytes) :
  0 <= n ->
  Z.of_nat (length (S3File.read n rest).1) = Z.min n (Z.of_nat (length rest))
  /\ (Z.of_nat (length (S3File.read n rest).1) < n -> (S3File.read n rest).2 = []).
Proof.
  intros Hn. unfold S3File.read.
  destruct (Z.ltb_spec n 0) as [?|_]; [lia|]. cbn [fst snd].
  rewrite length_take. split; [lia|].
  intros Hlt. apply drop_ge. lia.
Qed.

(** What one step of the rebalancing yields, by the size of the segment
    read after the pending one. *)
Lemma rebalance_cases (b : Z) (data0 data1 : bytes) :
  Z.of_nat (length data0) = b ->
  let r := Z.of_nat (length data1) in
  let out := S3File.rebalance b data0 data1 in
  out.1 ++ out.2 = data0 ++ data1
  /\ ((r = 0 \/ b <= r) -> out = (data0, data1))
  /\ (0 < r < b -> b + r <= S3File.part_max -> out = (data0 ++ data1, []))
  /\ (0 < r < b -> S3File.part_max < b + r ->
      Z.of_nat (length out.1) = (b + r) / 2
      /\ Z.of_nat (length out.2) = (b + r) - (b + r) / 2).
Proof.
  intros Hb. cbv zeta. unfold S3File.rebalance.
  set (r := Z.of_nat (length data1)).
  destruct (Z.ltb_spec 0 r) as [Hr0|Hr0]; cbn [andb].
  - destruct (Z.ltb_spec r b) as [Hrb|Hrb].
    + destruct (Z.leb_spec (b + r) S3File.part_max) as [Hle|Hgt].
      * cbn [fst snd]. rewrite app_nil_r. repeat split; try done; lia.
      * cbn [fst snd]. rewrite take_drop. split; [done|].
        split; [lia|]. split; [lia|]. intros _ _.
        assert (0 <= (b + r) / 2 <= b + r) by (split; [apply Z.div_pos | apply Z.div_le_upper_bound]; lia).
        rewrite length_take, length_drop, length_app. subst r. lia.
    + repeat split; try done; lia.
  - repeat split; try done; lia.
Qed.

Lemma rebalance_nil (b : Z) (data0 : bytes) :
  S3File.rebalance b data0 [] = (data0, []).
Proof. reflexivity. Qed.

Lemma rebalanced_nil (fuel : nat) (b : Z) (rest : bytes) :
  S3File.rebalanced fuel b [] rest = [].
Proof. by destruct fuel. Qed.

(** The parts of a buffer are the buffer, cut. *)
Lemma rebalanced_concat (fuel : nat) (b : Z) (data1 rest : bytes) :
  0 < b ->
  (length data1 + length rest <= fuel)%nat ->
  (rest <> [] -> Z.of_nat (length data1) = b) ->
  concat (S3File.rebalanced fuel b data1 rest) = data1 ++ rest.
Proof.
  intros Hb. revert data1 rest.
  induction fuel as [|fuel IH]; intros data1 rest Hfuel Hfull.
  - destruct data1; [|cbn in Hfuel; lia]. destruct rest; [done | cbn in Hfuel; lia].
  - destruct data1 as [|x data1].
    { destruct rest as [|y rest]; [done|]. specialize (Hfull ltac:(done)). cbn in Hfull. lia. }
    cbn [S3File.rebalanced].
    destruct (S3File.read b rest) as [d1 rest'] eqn:Hread.
    pose proof (read_app b rest) as Happ. pose proof (read_length b rest ltac:(lia)) as [Hlen Hshort].
    rewrite Hread in Happ, Hlen, Hshort. cbn [fst snd] in *.
    destruct (decide (rest = [])) as [->|Hrest].
    + assert (d1 = [] /\ rest' = []) as [-> ->].
      { destruct d1; [|cbn in Hlen; lia]. by rewrite app_nil_l in Happ. }
      rewrite rebalance_nil, rebalanced_nil. cbn. by rewrite !app_nil_r.
    + specialize (Hfull Hrest).
      pose proof (rebalance_cases b (x :: data1) d1 Hfull) as (Hcat & Hsame & Hmerge & Hsplit).
      cbv zeta in *.
      destruct (S3File.rebalance b (x :: data1) d1) as [d0 d1'] eqn:Hreb.
      cbn [fst snd] in *. cbn [concat].
      assert (Hd1 : Z.of_nat (length d1) = 0 \/ b <= Z.of_nat (length d1)
                    \/ 0 < Z.of_nat (length d1) < b) by lia.
      destruct Hd1 as [H0|[Hfullb|Hmid]].
      * destruct d1; [|cbn in H0; lia]. rewrite app_nil_l in Happ. subst rest'.
        destruct rest; [done|]. cbn in Hlen. lia.
      * injection (Hsame (or_intror Hfullb)) as -> ->.
        rewrite IH.
        -- by rewrite <- Happ.
        -- rewrite <- Happ in Hfuel. rewrite length_app in Hfuel. cbn in Hfuel. lia.
        -- intros _. lia.
      * rewrite (Hshort ltac:(lia)) in *. rewrite app_nil_r in Happ. subst d1.
        destruct (Z.leb_spec (b + Z.of_nat (length rest)) S3File.part_max) as [Hle|Hgt].
        -- injection (Hmerge Hmid Hle) as -> ->.
           rewrite rebalanced_nil. cbn. by rewrite !app_nil_r.
        -- destruct (Hsplit Hmid Hgt) as [Hl0 Hl1].
           rewrite IH.
           ++ by rewrite app_nil_r, Hcat.
           ++ assert (1 <= (b + Z.of_nat (length rest)) / 2)
                by (apply Z.div_le_lower_bound; lia).
              cbn [length] in *. lia.
           ++ done.
Qed.

Ltac size_lia :=
  unfold S3File.part_size_ok in *; cbn [length] in *;
  rewrite ?length_app, ?Nat2Z.inj_add in *; lia.

(** A pending segment with nothing left to read is uploaded as it is. *)
Lemma rebalanced_last (fuel : nat) (b : Z) (data1 : bytes) :
  data1 <> [] -> 0 <= b ->
  S3File.rebalanced (S fuel) b data1 [] = [data1].
Proof.
  intros Hne Hb. destruct data1 as [|x data1]; [done|].
  cbn [S3File.rebalanced].
  assert (S3File.read b [] = ([], [])) as ->.
  { unfold S3File.read. destruct (b <? 0); [done|]. by rewrite take_nil, drop_nil. }
  by rewrite rebalance_nil, rebalanced_nil.
Qed.

(** With a block size between the bounds, the parts cut from whole
    blocks are of an allowed size. *)
Lemma rebalanced_sizes (fuel : nat) (b : Z) (data1 rest : bytes) :
  S3File.part_min <= b <= S3File.part_max ->
  (Z.of_nat (length data1) = b
   \/ (rest = [] /\ (data1 = [] \/ S3File.part_size_ok data1))) ->
  Forall S3File.part_size_ok (S3File.rebalanced fuel b data1 rest).
Proof.
  intros Hb. pose proof part_min_value as Hmin. pose proof part_max_value as Hmax.
  revert data1 rest. induction fuel as [|fuel IH]; intros data1 rest Hinv.
  - destruct data1; apply Forall_nil_2.
  - destruct data1 as [|x data1]; [apply Forall_nil_2|].
    destruct Hinv as [Hfull|[-> [?|Hok]]]; [| done |].
    + cbn [S3File.rebalanced].
      destruct (S3File.read b rest) as [d1 rest'] eqn:Hread.
      pose proof (read_length b rest ltac:(lia)) as [Hlen Hshort].
      rewrite Hread in Hlen, Hshort. cbn [fst snd] in *.
      pose proof (rebalance_cases b (x :: data1) d1 Hfull) as (Hcat & Hsame & Hmerge & Hsplit).
      cbv zeta in *.
      destruct (S3File.rebalance b (x :: data1) d1) as [d0 d1'] eqn:Hreb.
      cbn [fst snd] in *.
      assert (Hd1 : Z.of_nat (length d1) = 0 \/ Z.of_nat (length d1) = b
                    \/ 0 < Z.of_nat (length d1) < b) by lia.
      destruct Hd1 as [H0|[Hfullb|Hmid]].
      * injection (Hsame (or_introl H0)) as -> ->.
        apply Forall_cons_2; [size_lia|].
        destruct d1; [|cbn [length] in H0; lia]. rewrite rebalanced_nil. apply Forall_nil_2.
      * assert (Hge : b <= Z.of_nat (length d1)) by lia.
        injection (Hsame (or_intror Hge)) as -> ->.
        apply Forall_cons_2; [size_lia|].
        apply IH. by left.
      * rewrite (Hshort ltac:(lia)) in *.
        destruct (Z.leb_spec (b + Z.of_nat (length d1)) S3File.part_max) as [Hle|Hgt].
        -- injection (Hmerge Hmid Hle) as -> ->.
           apply Forall_cons_2.
           ++ size_lia.
           ++ rewrite rebalanced_nil. apply Forall_nil_2.
        -- destruct (Hsplit Hmid Hgt) as [Hl0 Hl1].
           assert (Hhalf : S3File.part_min <= (b + Z.of_nat (length d1)) / 2
                           /\ (b + Z.of_nat (length d1)) / 2 <= S3File.part_max
                           /\ S3File.part_min
                              <= (b + Z.of_nat (length d1))
                                 - (b + Z.of_nat (length d1)) / 2
                              <= S3File.part_max).
           { pose proof (Z.div_mod (b + Z.of_nat (length d1)) 2 ltac:(lia)).
             pose proof (Z.mod_pos_bound (b + Z.of_nat (length d1)) 2 ltac:(lia)).
             lia. }
           apply Forall_cons_2; [size_lia|].
           apply IH. right. split; [done|]. right. size_lia.
    + cbn [S3File.rebalanced].
      assert (S3File.read b [] = ([], [])) as ->.
      { unfold S3File.read. destruct (b <? 0); [done|]. by rewrite take_nil, drop_nil. }
      rewrite rebalance_nil, rebalanced_nil.
      apply Forall_cons_2; [done | apply Forall_nil_2].
Qed.

(** The parts of a non-empty buffer that holds at least one block. *)
Lemma rebalanced_buffer_sizes (b : Z) (buf : bytes) :
  S3File.part_min <= b <= S3File.part_max ->
  b <= Z.of_nat (length buf) ->
  Forall S3File.part_size_ok
    (S3File.rebalanced (length buf) b (S3File.read b buf).1 (S3File.read b buf).2).
Proof.
  intros Hb Hlen. pose proof part_min_value.
  apply rebalanced_sizes; [done|]. left.
  pose proof (read_length b buf ltac:(lia)) as [Hl _]. lia.
Qed.

Lemma rebalanced_buffer_concat (b : Z) (buf : bytes) :
  0 < b ->
  concat (S3File.rebalanced (length buf) b (S3File.read b buf).1 (S3File.read b buf).2)
  = buf.
Proof.
  intros Hb. pose proof (read_app b buf) as Happ.
  pose proof (read_length b buf ltac:(lia)) as [Hl Hshort].
  rewrite rebalanced_concat; [done|done| |].
  - rewrite <- Happ at 3. by rewrite length_app.
  - intros Hne. destruct (decide (Z.of_nat (length (S3File.read b buf).1) < b)) as [Hlt|?]; [|lia].
    by specialize (Hshort Hlt).
Qed.

(** A buffer below one block gives one part, the buffer. *)
Lemma rebalanced_small_buffer (b : Z) (buf : bytes) :
  Z.of_nat (length buf) < b -> buf <> [] ->
  S3File.rebalanced (length buf) b (S3File.read b buf).1 (S3File.read b buf).2
  = [buf].
Proof.
  intros Hlt Hne. unfold S3File.read.
  destruct (Z.ltb_spec b 0) as [?|?]; [lia|]. cbn [fst snd].
  rewrite take_ge, drop_ge by lia.
  destruct buf as [|x buf]; [done|]. by apply rebalanced_last.
Qed.

(** *** Computations that upload no part *)

Lemma uploads_app (tr1 tr2 : list event) :
  uploads (tr1 ++ tr2) = uploads tr1 ++ uploads tr2.
Proof. apply omap_app. Qed.

Lemma quiet_ret {S A} (a : A) : quiet (ret a : M S A).
Proof. done. Qed.

Lemma quiet_raise {S A} (e : exn) : quiet (raise e : M S A).
Proof. done. Qed.

Lemma quiet_get {S} : quiet (get : M S S).
Proof. done. Qed.

Lemma quiet_modify {S} (g : S -> S) : quiet (modify g).
Proof. done. Qed.

Lemma quiet_lift_result {S A} (r : exn + A) : quiet (lift_result r : M S A).
Proof. by destruct r. Qed.

Lemma quiet_bind {S A B} (m : M S A) (k : A -> M S B) :
  quiet m -> (forall a, quiet (k a)) -> quiet (bind m k).
Proof.
  intros Hm Hk s. rewrite bind_trace, uploads_app, Hm.
  destruct (result_of (m s)); [done | apply Hk].
Qed.

Lemma quiet_try_except {S A} (m : M S A) (h : exn -> M S A) :
  quiet m -> (forall e, quiet (h e)) -> quiet (try_except m h).
Proof.
  intros Hm Hh s. specialize (Hm s). unfold try_except, trace_of, uploads in *.
  destruct (m s) as [[[e|a] s1] t1]; [|done].
  specialize (Hh e s1). unfold trace_of, uploads in Hh.
  destruct (h e s1) as [[r s2] t2]. cbn [fst snd] in *.
  by rewrite omap_app, Hm, Hh.
Qed.

Lemma quiet_for_each {S A} (l : list A) (g : A -> M S unit) :
  (forall x, quiet (g x)) -> quiet (for_each l g).
Proof.
  intros Hg. induction l as [|x l IH]; [done|].
  cbn [for_each]. apply quiet_bind; [apply Hg | by intros _].
Qed.

Section Quiet.
Context `{Client}.
Variable lsc : gmap string (list entry) -> string -> exn + option (list entry).

Lemma quiet_call_s3 {T} (r : request T) :
  (forall o, uploaded (Attempt r o) = None) ->
  quiet (S3FileSystem._call_s3 r).
Proof.
  intros Hr fs. pose proof (call_s3_events r fs) as Hev.
  unfold uploads. induction Hev as [|ev tr Hev _ IH]; [done|].
  cbn -[uploaded]. destruct Hev as [[d ->]|[o ->]]; [done|]. by rewrite Hr.
Qed.

Lemma quiet_invoke {T} (r : request T) :
  (forall o, uploaded (Attempt r o) = None) ->
  quiet (S3FileSystem.invoke r).
Proof.
  intros Hr fs. unfold S3FileSystem.invoke, trace_of, uploads.
  destruct (serve _ _ _) as [out s3']. cbn -[uploaded]. by rewrite Hr.
Qed.

Lemma quiet_translating {A} (m : M S3FileSystem.t A) :
  quiet m -> quiet (S3FileSystem.translating m).
Proof.
  intros Hm. apply quiet_try_except; [done|].
  intros e. destruct (is_ClientError e); apply quiet_raise.
Qed.

Lemma quiet_invalidate_cache (p : option string) :
  quiet (S3FileSystem.invalidate_cache p).
Proof. done. Qed.

Lemma quiet_on_fs {A} (m : M S3FileSystem.t A) :
  quiet m -> quiet (S3File.on_fs m).
Proof. intros Hm s. rewrite on_fs_trace. apply Hm. Qed.

Lemma quiet_self : quiet S3File.self.
Proof. done. Qed.

Lemma quiet_update (g : S3File.t -> S3File.t) : quiet (S3File.update g).
Proof. done. Qed.

Lemma quiet_file_call_s3 {T} (r : request T) :
  (forall o, uploaded (Attempt r o) = None) -> quiet (S3File._call_s3 r).
Proof. intros Hr. by apply quiet_on_fs, quiet_call_s3. Qed.
End Quiet.

(** The steps that prove a computation quiet. *)
Ltac quiet_step :=
  match goal with
  | |- quiet (bind _ _) => apply quiet_bind; [|intros ?]
  | |- quiet (ret _) => apply quiet_ret
  | |- quiet (raise _) => apply quiet_raise
  | |- quiet get => apply quiet_get
  | |- quiet (modify _) => apply quiet_modify
  | |- quiet (lift_result _) => apply quiet_lift_result
  | |- quiet (try_except _ _) => apply quiet_try_except; [|intros ?]
  | |- quiet (for_each _ _) => apply quiet_for_each; intros ?
  | |- quiet (S3FileSystem.translating _) => apply quiet_translating
  | |- quiet (S3FileSystem.invalidate_cache _) => apply quiet_invalidate_cache
  | |- quiet (S3FileSystem._call_s3 _) => apply quiet_call_s3; intros []; reflexivity
  | |- quiet (S3FileSystem.invoke _) => apply quiet_invoke; intros []; reflexivity
  | |- quiet (S3File._call_s3 _) => apply quiet_file_call_s3; intros []; reflexivity
  | |- quiet (S3File.on_fs _) => apply quiet_on_fs
  | |- quiet S3File.self => apply quiet_self
  | |- quiet (S3File.update _) => apply quiet_update
  | |- quiet (if ?b then _ else _) => destruct b
  | |- quiet (match ?x with _ => _ end) => destruct x
  | |- quiet (let '(_, _) := ?x in _) => destruct x
  end.

Ltac quiet := repeat quiet_step.

Section QuietOps.
Context `{Client}.
Variable lsc : gmap string (list entry) -> string -> exn + option (list entry).

Lemma quiet_simple_info (path : string) : quiet (S3FileSystem._simple_info path).
Proof. unfold S3FileSystem._simple_info. quiet. Qed.

Lemma quiet_version_aware_info (path : string) (v : option string) :
  quiet (S3FileSystem._version_aware_info path v).
Proof. unfold S3FileSystem._version_aware_info. quiet. Qed.

Lemma quiet_info_probe (path bucket key : string) (v : option string) :
  quiet (S3FileSystem.info_probe path bucket key v).
Proof.
  unfold S3FileSystem.info_probe. quiet;
    first [apply quiet_version_aware_info | apply quiet_simple_info].
Qed.

Lemma quiet_info (path : string) (refresh : bool) (v : option string) :
  quiet (S3FileSystem._info lsc path refresh v).
Proof. unfold S3FileSystem._info. quiet; apply quiet_info_probe. Qed.

Lemma quiet_exists (path : string) : quiet (S3FileSystem._exists lsc path).
Proof. unfold S3FileSystem._exists. quiet; apply quiet_info. Qed.

Lemma quiet_touch (path : string) (truncate : bool) (kw : kwargs) :
  quiet (S3FileSystem._touch lsc path truncate kw).
Proof. unfold S3FileSystem._touch. quiet; apply quiet_exists. Qed.

Lemma quiet_abort_mpu : quiet S3File._abort_mpu.
Proof. unfold S3File._abort_mpu. quiet. Qed.

Lemma quiet_commit_invalidate (path : string) (ps : list string) :
  quiet (S3File.commit_invalidate path ps).
Proof.
  revert path. induction ps as [|p ps IH]; intros path;
    cbn [S3File.commit_invalidate]; [apply quiet_ret|].
  quiet; apply IH.
Qed.

Lemma quiet_commit_rest (f : S3File.t) (fs : S3FileSystem.t)
    (wr : option write_result) : quiet (S3File.commit_rest f fs wr).
Proof. unfold S3File.commit_rest. quiet; apply quiet_commit_invalidate. Qed.

Lemma quiet_commit : quiet (S3File.commit lsc).
Proof.
  unfold S3File.commit. quiet;
    first [apply quiet_commit_rest | apply quiet_abort_mpu | apply quiet_touch].
Qed.

Lemma quiet_initiate_upload : quiet S3File._initiate_upload.
Proof. unfold S3File._initiate_upload. quiet. Qed.
End QuietOps.

(** ** C1: multipart rebalancing *)

Lemma bind_ok {S A B} (m : M S A) (k : A -> M S B) (s : S) (b : B) :
  result_of (bind m k s) = inr b ->
  exists a,
    result_of (m s) = inr a
    /\ result_of (k a (state_of (m s))) = inr b
    /\ state_of (bind m k s) = state_of (k a (state_of (m s)))
    /\ trace_of (bind m k s) = trace_of (m s) ++ trace_of (k a (state_of (m s))).
Proof.
  rewrite bind_result, bind_state, bind_trace.
  destruct (result_of (m s)) as [e|a]; [done|]. intros Hb. by exists a.
Qed.

(** A handler that always raises lets only the runs of the body that
    return through. *)
Lemma try_except_ok {S A} (m : M S A) (h : exn -> M S A) (s : S) (a : A) :
  (forall e s1, exists e', result_of (h e s1) = inl e') ->
  result_of (try_except m h s) = inr a ->
  try_except m h s = m s.
Proof.
  intros Hh. unfold try_except.
  destruct (m s) as [[[e|a'] s1] t1]; [|done].
  destruct (Hh e s1) as [e' He']. unfold result_of in *.
  destruct (h e s1) as [[r s2] t2]. cbn in *. by subst.
Qed.

Lemma numbered_app (n : Z) (l1 l2 : list bytes) :
  numbered n (l1 ++ l2) = numbered n l1 ++ numbered (n + Z.of_nat (length l1)) l2.
Proof.
  revert n. induction l1 as [|x l1 IH]; intros n.
  - cbn. by rewrite Z.add_0_r.
  - cbn [numbered app length]. rewrite IH. do 3 f_equal. lia.
Qed.

Lemma numbered_bodies (n : Z) (l : list bytes) : map snd (numbered n l) = l.
Proof. revert n. induction l as [|x l IH]; intros n; [done|]. cbn. by rewrite IH. Qed.

Lemma uploads_retry_rounds `{Client} {T} (r : request T) (i k : nat) :
  uploads (S3FileSystem.retry_rounds r i k) = [].
Proof. revert i. induction k as [|k IH]; intros i; [done|]. cbn. apply IH. Qed.

Section C1.
Context `{Client}.
Variable lsc : gmap string (list entry) -> string -> exn + option (list entry).

Lemma file_call_s3_self {T} (r : request T) (s : S3File.st) :
  (state_of (S3File._call_s3 r s)).1 = s.1.
Proof. unfold S3File._call_s3. by rewrite on_fs_state. Qed.

(** A call of [upload_part] that returns has uploaded its part, once. *)
Lemma call_s3_upload_part (bucket key : string) (n : Z) (uid : string)
    (body : bytes) (s : S3File.st) out :
  result_of (S3File._call_s3 (upload_part bucket key n uid body) s) = inr out ->
  uploads (trace_of (S3File._call_s3 (upload_part bucket key n uid body) s))
  = [(n, body)].
Proof.
  unfold S3File._call_s3. rewrite on_fs_result, on_fs_trace.
  unfold S3FileSystem._call_s3. rewrite !bind_get. intros Hout.
  destruct (call_s3_loop_shape (upload_part bucket key n uid body)
              (S3FileSystem.retries s.2) 0 None s.2)
    as (k & tail & Hk & Htr & Hres).
  rewrite Htr, uploads_app, uploads_retry_rounds.
  destruct Hres as [(? & ? & -> & ?)|[(? & ? & ? & ? & Hr)|(? & ? & Hr)]].
  - done.
  - rewrite Hr in Hout; done.
  - rewrite Hr in Hout. by repeat case_match.
Qed.

(** The loop of [_upload_chunk], when every upload returns: the parts
    uploaded are the segments of the rebalancing, numbered after the
    parts the session holds, and each is recorded in the session. *)
Lemma upload_loop_spec (bucket key : string) (fuel : nat) :
  forall (data1 rest : bytes) (f : S3File.t) (fs : S3FileSystem.t)
         (ps : list part) (uid : string),
  S3File.parts f = Some ps -> S3File.mpu f = Some uid ->
  result_of (S3File.upload_loop fuel bucket key data1 rest (f, fs)) = inr tt ->
  exists ps',
    (state_of (S3File.upload_loop fuel bucket key data1 rest (f, fs))).1
    = S3File.set_parts (Some ps') f
    /\ length ps'
       = (length ps
          + length (S3File.rebalanced fuel (S3File.blocksize f) data1 rest))%nat
    /\ uploads (trace_of (S3File.upload_loop fuel bucket key data1 rest (f, fs)))
       = numbered (Z.of_nat (length ps) + 1)
           (S3File.rebalanced fuel (S3File.blocksize f) data1 rest).
Proof.
  induction fuel as [|fuel IH]; intros data1 rest f fs ps uid Hps Hmpu Hok.
  - exists ps. destruct data1; (split; [|done]);
      destruct f; cbn in *; by subst.
  - destruct data1 as [|x data1].
    { exists ps. split; [|done]. destruct f; cbn in *; by subst. }
    cbn [S3File.upload_loop S3File.rebalanced] in *.
    rewrite bind_self in *. cbn [fst] in *.
    destruct (S3File.read (S3File.blocksize f) rest) as [d1 rest'].
    destruct (S3File.rebalance (S3File.blocksize f) (x :: data1) d1) as [d0 d1'].
    rewrite Hps, bind_ret, Hmpu, bind_ret in *.
    apply bind_ok in Hok as (out & Hcall & Hok & Hst & Htr).
    rewrite Hst, Htr, uploads_app, (call_s3_upload_part _ _ _ _ _ _ _ Hcall).
    clear Hst Htr.
    pose proof (file_call_s3_self
      (upload_part bucket key (Z.of_nat (length ps) + 1) uid d0) (f, fs)) as Hself.
    destruct (state_of (S3File._call_s3 _ _)) as [f1 fs1].
    cbn [fst] in Hself. subst f1.
    rewrite bind_update in *. cbn [fst snd] in *.
    set (p := {| PartNumber := Z.of_nat (length ps) + 1; part_ETag := out |}) in *.
    destruct (IH d1' rest' (S3File.set_parts (Some (ps ++ [p])) f) fs1
                (ps ++ [p]) uid eq_refl Hmpu Hok) as (ps' & Hst & Hlen & Hup).
    exists ps'. split; [exact Hst|]. split.
    + rewrite Hlen, length_app. cbn [length S3File.blocksize S3File.set_parts]. lia.
    + rewrite Hup. cbn [numbered app S3File.blocksize S3File.set_parts].
      do 2 f_equal. rewrite length_app. cbn [length]. lia.
Qed.

(** [_initiate_upload], when it returns, has either left the handle as
    it is (the small file that will be sent in one request) or opened
    a session. *)
Lemma initiate_upload_spec (f : S3File.t) (fs : S3FileSystem.t) :
  result_of (S3File._initiate_upload (f, fs)) = inr tt ->
  if S3File.autocommit f && negb (S3File.append_block f)
     && bool_decide (S3File.tell f < S3File.blocksize f)
  then (state_of (S3File._initiate_upload (f, fs))).1 = f
  else exists uid ps,
    (state_of (S3File._initiate_upload (f, fs))).1
    = S3File.set_parts (Some ps) (S3File.set_mpu (Some uid) f).
Proof.
  unfold S3File._initiate_upload. rewrite bind_self. cbn [fst].
  destruct (S3File.autocommit f && negb (S3File.append_block f)
            && bool_decide (S3File.tell f < S3File.blocksize f)); [done|].
  rewrite bind_update. cbn [fst snd].
  intros Hok. apply bind_ok in Hok as (uid & Hcall & Hok & Hst & _).
  rewrite Hst. clear Hst.
  pose proof (file_call_s3_self
    (create_multipart_upload (S3File.bucket f) (S3File.key f)
       [("ACL", S3File.acl f)]) (S3File.set_parts (Some []) f, fs)) as Hself.
  destruct (state_of (S3File._call_s3 _ _)) as [f1 fs1].
  cbn [fst] in Hself. subst f1.
  rewrite bind_update in *. cbn [fst snd] in *.
  destruct (S3File.append_block f).
  - apply bind_ok in Hok as (out & Hcall2 & Hok & Hst & _).
    rewrite Hst. clear Hst.
    pose proof (file_call_s3_self
      (upload_part_copy (S3File.bucket f) (S3File.key f) 1 uid
         (S3File.path f) None)
      (S3File.set_mpu (Some uid) (S3File.set_parts (Some []) f), fs1)) as Hself.
    destruct (state_of (S3File._call_s3 _ _)) as [f2 fs2].
    cbn [fst] in Hself. subst f2.
    rewrite bind_self in *. cbn [fst snd] in *.
    by exists uid, [{| PartNumber := 1; part_ETag := out |}].
  - by exists uid, [].
Qed.

(** One call of [_upload_chunk] into an open session, when it returns:
    the parts uploaded are the segments of the rebalancing of the
    buffer, numbered after the parts the session holds. *)
Lemma upload_chunk_spec (final : bool) (f : S3File.t) (fs : S3FileSystem.t)
    (ps : list part) (uid : string) (buf : bytes) (more : bool) :
  S3File.parts f = Some ps -> S3File.mpu f = Some uid ->
  S3File.buffer f = Some buf ->
  S3File.one_shot f final = false ->
  result_of (S3File._upload_chunk lsc final (f, fs)) = inr more ->
  more = negb final
  /\ uploads (trace_of (S3File._upload_chunk lsc final (f, fs)))
     = numbered (Z.of_nat (length ps) + 1)
         (S3File.rebalanced (length buf) (S3File.blocksize f)
            (S3File.read (S3File.blocksize f) buf).1
            (S3File.read (S3File.blocksize f) buf).2)
  /\ (final = false ->
      exists ps',
        (state_of (S3File._upload_chunk lsc final (f, fs))).1
        = S3File.set_parts (Some ps') f
        /\ length ps'
           = (length ps
              + length (S3File.rebalanced (length buf) (S3File.blocksize f)
                          (S3File.read (S3File.blocksize f) buf).1
                          (S3File.read (S3File.blocksize f) buf).2))%nat).
Proof.
  intros Hps Hmpu Hbuf Hone. unfold S3File._upload_chunk.
  rewrite bind_self, bind_on_fs_get. cbn [fst snd].
  destruct (split_path _ _) as [[bucket key] v].
  rewrite Hone, Hbuf, bind_ret.
  destruct (S3File.read (S3File.blocksize f) buf) as [d1 rest]. cbn [fst snd].
  intros Hok.
  apply bind_ok in Hok as ([] & Hloop & Hok & Hst & Htr).
  destruct (upload_loop_spec bucket key (length buf) d1 rest f fs ps uid
              Hps Hmpu Hloop) as (ps' & Hst1 & Hlen & Hup).
  apply bind_ok in Hok as ([] & Hcommit & Hok & Hst2 & Htr2).
  rewrite Hst, Hst2, Htr, Htr2, !uploads_app, Hup. clear Hst Hst2 Htr Htr2.
  split; [by injection Hok|]. split.
  - assert (quiet (if S3File.autocommit f && final
                   then S3File.commit lsc else ret tt)) as ->
      by (destruct (_ && _); [apply quiet_commit | apply quiet_ret]).
    cbn. by rewrite app_nil_r.
  - intros ->. rewrite andb_false_r. exists ps'. by split.
Qed.
End C1.

Lemma numbered_length (n : Z) (l : list bytes) : length (numbered n l) = length l.
Proof. revert n. induction l as [|x l IH]; intros n; [done|]. cbn. by rewrite IH. Qed.

(** Parts numbered consecutively stay so when the next ones follow. *)
Lemma numbered_extend (n0 : Z) (ups : list (Z * bytes)) (plan : list bytes) :
  ups = numbered n0 (map snd ups) ->
  ups ++ numbered (n0 + Z.of_nat (length ups)) plan
  = numbered n0 (map snd (ups ++ numbered (n0 + Z.of_nat (length ups)) plan)).
Proof.
  intros Hups. rewrite map_app, numbered_bodies, numbered_app, length_map.
  by rewrite <- Hups.
Qed.

Lemma Forall_removelast {A} (P : A -> Prop) (l : list A) :
  Forall P l -> Forall P (removelast l).
Proof.
  induction 1 as [|x l Hx Hl IH]; [constructor|].
  cbn [removelast]. destruct l; [constructor | by constructor].
Qed.

Section C1Flush.
Context `{Client}.
Variable lsc : gmap string (list entry) -> string -> exn + option (list entry).

Lemma quiet_upload_chunk_one_shot (f : S3File.t) (fs : S3FileSystem.t) :
  S3File.one_shot f true = true ->
  uploads (trace_of (S3File._upload_chunk lsc true (f, fs))) = [].
Proof.
  intros Hone. unfold S3File._upload_chunk.
  rewrite bind_self, bind_on_fs_get. cbn [fst snd].
  destruct (split_path _ _) as [[bucket key] v]. rewrite Hone.
  destruct (S3File.buffer f); [|by rewrite bind_raise].
  rewrite !bind_ret.
  assert (quiet ((if S3File.autocommit f && true
                  then S3File.commit lsc else ret tt) >> ret (negb true)
                 : M S3File.st bool)) as Hq; [|apply Hq].
  quiet. apply quiet_commit.
Qed.

(** The first flush opens the session of the handle, unless the file
    is small enough to be sent in one request when it is closed; a
    later flush finds the session open. No part is uploaded by
    this. *)
Lemma open_session_spec (f : S3File.t) (fs : S3FileSystem.t)
    (ups : list (Z * bytes)) :
  let m : M S3File.st unit :=
    match S3File.offset f with
    | None =>
        S3File.update (S3File.set_offset (Some 0)) >>
        try_except S3File._initiate_upload
          (fun e => S3File.update (S3File.set_closed true) >> raise e)
    | Some _ => ret tt
    end in
  S3File.session_state f ups ->
  result_of (m (f, fs)) = inr tt ->
  uploads (trace_of (m (f, fs))) = []
  /\ exists f1,
       (state_of (m (f, fs))).1 = f1
       /\ f1 = S3File.set_parts (S3File.parts f1)
                 (S3File.set_mpu (S3File.mpu f1)
                    (S3File.set_offset (S3File.offset f1) f))
       /\ S3File.offset f1 <> None
       /\ ((exists uid ps n0,
              S3File.mpu f1 = Some uid /\ S3File.parts f1 = Some ps
              /\ ups = numbered n0 (map snd ups)
              /\ Z.of_nat (length ps) + 1 = n0 + Z.of_nat (length ups)
              /\ forall final, S3File.one_shot f1 final = false)
           \/ (ups = [] /\ S3File.one_shot f1 true = true)).
Proof.
  intros m [(Hoff & Hmpu & Hps & ->)|(Hoff & Hloc & uid & ps & n0 & Hmpu & Hps & Hups & Hn)];
    subst m.
  - rewrite Hoff, bind_update. cbn [fst snd].
    set (f0 := S3File.set_offset (Some 0) f).
    intros Hok.
    assert (try_except S3File._initiate_upload
              (fun e => S3File.update (S3File.set_closed true) >> raise e)
              (f0, fs)
            = S3File._initiate_upload (f0, fs)) as Hte
      by (eapply try_except_ok; [intros e s1; by exists e | exact Hok]).
    rewrite Hte in *. clear Hte.
    split; [apply quiet_initiate_upload|].
    pose proof (initiate_upload_spec f0 fs Hok) as Hinit.
    eexists; split; [reflexivity|].
    destruct (S3File.autocommit f0 && negb (S3File.append_block f0)
              && bool_decide (S3File.tell f0 < S3File.blocksize f0)) eqn:Hc.
    + rewrite Hinit. split; [subst f0; by destruct f|]. split; [done|].
      right. split; [done|].
      unfold S3File.one_shot. rewrite andb_true_r.
      apply andb_prop in Hc as [Hc ->]. by rewrite Hc.
    + destruct Hinit as (uid & ps & ->). split; [done|]. split; [done|].
      left. exists uid, ps, (Z.of_nat (length ps) + 1).
      repeat split; [cbn; lia|].
      intros final. unfold S3File.one_shot.
      change (S3File.autocommit (S3File.set_parts _ _)) with (S3File.autocommit f0).
      change (S3File.append_block (S3File.set_parts _ _)) with (S3File.append_block f0).
      change (S3File.tell (S3File.set_parts _ _)) with (S3File.tell f0).
      change (S3File.blocksize (S3File.set_parts _ _)) with (S3File.blocksize f0).
      destruct final; [by rewrite andb_true_r|].
      by rewrite andb_false_r.
  - destruct (S3File.offset f) as [o|] eqn:Ho; [|done]. intros _.
    split; [done|]. exists f. split; [done|].
    split; [destruct f; cbn in *; by subst|]. split; [by rewrite Ho|].
    left. exists uid, ps, n0. repeat split; try done.
    intros final. unfold S3File.one_shot.
    rewrite (bool_decide_eq_false_2 (S3File.tell f < S3File.blocksize f))
      by (unfold S3File.tell; lia).
    apply andb_false_r.
Qed.

(** A flush that is not the final one, of a buffer that holds at least
    one block: the parts uploaded are the segments of the rebalancing
    of the buffer, they follow the parts uploaded before, and the
    buffer is left empty. *)
Lemma flush_false_spec (f : S3File.t) (fs : S3FileSystem.t) (buf : bytes)
    (ups : list (Z * bytes)) :
  S3File.between_writes f buf ups ->
  S3File.blocksize f <= Z.of_nat (length buf) ->
  result_of (S3File.flush lsc false (f, fs)) = inr tt ->
  S3File.blocksize (state_of (S3File.flush lsc false (f, fs))).1
  = S3File.blocksize f
  /\ S3File.loc (state_of (S3File.flush lsc false (f, fs))).1 = S3File.loc f
  /\ S3File.between_writes (state_of (S3File.flush lsc false (f, fs))).1 []
       (ups ++ uploads (trace_of (S3File.flush lsc false (f, fs))))
  /\ map snd (uploads (trace_of (S3File.flush lsc false (f, fs))))
     = S3File.rebalanced (length buf) (S3File.blocksize f)
         (S3File.read (S3File.blocksize f) buf).1
         (S3File.read (S3File.blocksize f) buf).2.
Proof.
  intros (Hmode & Hcl & Hfo & Hbuf & Hloc & Hses) Hfull.
  unfold S3File.flush. rewrite bind_self. cbn [fst].
  rewrite Hcl. cbn [andb]. rewrite bind_ret.
  assert (negb (bool_decide (S3File.mode f = "wb")
                || bool_decide (S3File.mode f = "ab")) = false) as ->
    by (destruct Hmode as [-> | ->]; reflexivity).
  rewrite Hbuf. cbn [negb andb].
  rewrite (bool_decide_eq_false_2 (Z.of_nat (length buf) < S3File.blocksize f))
    by lia.
  intros Hok.
  apply bind_ok in Hok as ([] & Hopen & Hok & Hst & Htr).
  rewrite Hst, Htr, uploads_app. clear Hst Htr.
  destruct (open_session_spec f fs ups Hses Hopen)
    as (Hq & f1 & Hf1 & Heq & Hoff1 & Hcase).
  rewrite Hq. cbn [app]. clear Hq.
  destruct (state_of _) as [f1' fs1] in Hf1, Hok |- *.
  cbn [fst] in Hf1. subst f1'.
  assert (S3File.loc f1 = S3File.loc f) as Hloc1 by (rewrite Heq; reflexivity).
  assert (S3File.blocksize f1 = S3File.blocksize f) as Hbs1
    by (rewrite Heq; reflexivity).
  assert (S3File.buffer f1 = Some buf) as Hbuf1 by (rewrite Heq; exact Hbuf).
  assert (S3File.mode f1 = S3File.mode f) as Hmode1 by (rewrite Heq; reflexivity).
  assert (S3File.closed f1 = false) as Hcl1 by (rewrite Heq; exact Hcl).
  assert (S3File.forced f1 = false) as Hfo1 by (rewrite Heq; exact Hfo).
  clear Heq.
  destruct Hcase as [(uid & ps & n0 & Hmpu1 & Hps1 & Hups & Hn & Hone)|[_ Hone]]; cycle 1.
  { unfold S3File.one_shot, S3File.tell in Hone.
    rewrite bool_decide_eq_false_2, andb_false_r in Hone by lia. done. }
  apply bind_ok in Hok as (more & Hchunk & Hok & Hst & Htr).
  destruct (upload_chunk_spec lsc false f1 fs1 ps uid buf more
              Hps1 Hmpu1 Hbuf1 (Hone false) Hchunk) as (-> & Hup & Hstate).
  destruct (Hstate eq_refl) as (ps' & Hst' & Hlen). clear Hstate.
  rewrite Hst, Htr, uploads_app, Hup. clear Hst Htr.
  destruct (state_of _) as [f2 fs2] in Hst', Hok |- *.
  cbn [fst] in Hst'. subst f2. cbn [negb].
  rewrite bind_self. cbn [fst]. rewrite !bind_update. cbn [fst snd].
  change (uploads (trace_of (S3File.update _ _))) with (@nil (Z * bytes)).
  rewrite app_nil_r. rewrite Hbs1 in Hlen |- *.
  set (plan := S3File.rebalanced _ _ _ _) in *.
  split; [exact Hbs1|]. split; [exact Hloc1|].
  split; [|apply numbered_bodies].
  split. { change (S3File.mode f1 = "wb" \/ S3File.mode f1 = "ab").
           by rewrite Hmode1. }
  split; [exact Hcl1|]. split; [exact Hfo1|]. split; [reflexivity|].
  split. { change (0 <= S3File.loc f1). lia. }
  right. split; [done|].
  split. { change (S3File.blocksize f1 <= S3File.loc f1). lia. }
  exists uid, ps', n0. split; [exact Hmpu1|]. split; [reflexivity|]. split.
  - replace (Z.of_nat (length ps) + 1) with (n0 + Z.of_nat (length ups)) by lia.
    by apply numbered_extend.
  - rewrite length_app, numbered_length, Hlen. lia.
Qed.

(** The final flush, of a buffer that holds less than one block: at
    most one part is uploaded, the buffer itself, after the parts
    uploaded before; nothing is uploaded when the whole file goes in
    one request. *)
Lemma flush_true_spec (f : S3File.t) (fs : S3FileSystem.t) (buf : bytes)
    (ups : list (Z * bytes)) :
  S3File.between_writes f buf ups ->
  Z.of_nat (length buf) < S3File.blocksize f ->
  result_of (S3File.flush lsc true (f, fs)) = inr tt ->
  let total := ups ++ uploads (trace_of (S3File.flush lsc true (f, fs))) in
  (exists n0, total = numbered n0 (map snd total))
  /\ (total <> [] -> concat (map snd total) = concat (map snd ups) ++ buf)
  /\ (map snd total = map snd ups \/ map snd total = map snd ups ++ [buf]).
Proof.
  intros (Hmode & Hcl & Hfo & Hbuf & Hloc & Hses) Hsmall.
  unfold S3File.flush. rewrite bind_self. cbn [fst].
  rewrite Hcl, Hfo. cbn [andb]. rewrite bind_update. cbn [fst snd].
  assert (negb (bool_decide (S3File.mode f = "wb")
                || bool_decide (S3File.mode f = "ab")) = false) as ->
    by (destruct Hmode as [-> | ->]; reflexivity).
  rewrite Hbuf. cbn [negb andb].
  change (S3File.offset f) with (S3File.offset (S3File.set_forced true f)).
  intros Hok.
  apply bind_ok in Hok as ([] & Hopen & Hok & _ & Htr).
  rewrite Htr, uploads_app. clear Htr.
  destruct (open_session_spec (S3File.set_forced true f) fs ups Hses Hopen)
    as (Hq & f1 & Hf1 & Heq & Hoff1 & Hcase).
  rewrite Hq. cbn [app]. clear Hq.
  destruct (state_of _) as [f1' fs1] in Hf1, Hok |- *.
  cbn [fst] in Hf1. subst f1'.
  assert (S3File.blocksize f1 = S3File.blocksize f) as Hbs1
    by (rewrite Heq; reflexivity).
  assert (S3File.buffer f1 = Some buf) as Hbuf1 by (rewrite Heq; exact Hbuf).
  clear Heq.
  apply bind_ok in Hok as (more & Hchunk & Hok & _ & Htr).
  rewrite Htr, uploads_app. clear Htr.
  assert (forall s, uploads (trace_of
            ((if more
              then let* f := S3File.self in
                   S3File.update
                     (S3File.set_offset
                        (Some (default 0 (S3File.offset f)
                               + Z.of_nat (length buf)))) >>
                   S3File.update (S3File.set_buffer (Some []))
              else ret tt) s)) = []) as ->
    by (intros s; by destruct more).
  rewrite app_nil_r.
  destruct Hcase as [(uid & ps & n0 & Hmpu1 & Hps1 & Hups & Hn & Hone)|[-> Hone]];
    cycle 1.
  { rewrite (quiet_upload_chunk_one_shot _ _ Hone). cbn.
    split; [by exists 0|]. split; [done | by left]. }
  destruct (upload_chunk_spec lsc true f1 fs1 ps uid buf more
              Hps1 Hmpu1 Hbuf1 (Hone true) Hchunk) as (_ & Hup & _).
  rewrite Hup, Hbs1. clear Hup.
  destruct (decide (buf = [])) as [->|Hne].
  - assert ((S3File.read (S3File.blocksize f) []).1 = []) as ->
      by (unfold S3File.read; destruct (_ <? _); cbn; by rewrite ?take_nil).
    rewrite rebalanced_nil. cbn [numbered]. rewrite !app_nil_r.
    split; [by exists n0|]. split; [done | by left].
  - rewrite (rebalanced_small_buffer _ _ Hsmall Hne).
    split; [|split].
    + exists n0.
      replace (Z.of_nat (length ps) + 1) with (n0 + Z.of_nat (length ups)) by lia.
      by apply numbered_extend.
    + intros _. rewrite map_app, concat_app. cbn. by rewrite app_nil_r.
    + right. by rewrite map_app.
Qed.

(** A write keeps the invariant of the handle. *)
Lemma write_spec (b : Z) (data w : bytes) (f : S3File.t) (fs : S3FileSystem.t)
    (ups : list (Z * bytes)) (out : Z) :
  S3File.part_min <= b <= S3File.part_max ->
  S3File.written b data f ups ->
  result_of (S3File.write lsc w (f, fs)) = inr out ->
  S3File.written b (data ++ w) (state_of (S3File.write lsc w (f, fs))).1
    (ups ++ uploads (trace_of (S3File.write lsc w (f, fs)))).
Proof.
  intros Hb (Hbs & buf & (Hmode & Hcl & Hfo & Hbuf & Hloc & Hses)
                  & Hsmall & Hdata & Hsizes).
  pose proof part_min_value as Hmin.
  unfold S3File.write, S3File.write_. rewrite bind_self. cbn [fst].
  assert (negb (bool_decide (S3File.mode f = "wb")
                || bool_decide (S3File.mode f = "ab")) = false) as ->
    by (destruct Hmode as [-> | ->]; reflexivity).
  rewrite Hcl, Hfo, Hbuf, !bind_update. cbn [fst snd].
  set (f0 := S3File.set_loc _ _).
  assert (S3File.between_writes f0 (buf ++ w) ups) as Hbw.
  { split; [exact Hmode|]. split; [exact Hcl|]. split; [exact Hfo|].
    split; [reflexivity|].
    split. { change (Z.of_nat (length (buf ++ w))
                     <= S3File.loc f + Z.of_nat (length w)).
             rewrite length_app. lia. }
    destruct Hses as [Hses|(Hoff & Hl & Hses)]; [by left|].
    right. split; [exact Hoff|]. split; [|exact Hses].
    change (S3File.blocksize f <= S3File.loc f + Z.of_nat (length w)). lia. }
  intros Hok.
  apply bind_ok in Hok as ([] & Hflush & _ & Hst & Htr).
  rewrite Hst, Htr. clear Hst Htr.
  change (trace_of (ret out _)) with (@nil event).
  change (state_of (ret out ?s)) with s.
  rewrite app_nil_r. subst b.
  change (S3File.blocksize f) with (S3File.blocksize f0) in *.
  case_bool_decide as Hfull.
  - destruct (flush_false_spec f0 fs (buf ++ w) ups Hbw Hfull Hflush)
      as (Hbs' & _ & Hbw' & Hplan).
    split; [exact Hbs'|]. exists []. split; [exact Hbw'|].
    split; [cbn [length]; lia|].
    rewrite map_app, Hplan, concat_app, app_nil_r.
    rewrite rebalanced_buffer_concat by lia.
    split; [by rewrite app_assoc, Hdata|].
    apply Forall_app. split; [exact Hsizes|].
    by apply rebalanced_buffer_sizes.
  - split; [reflexivity|]. exists (buf ++ w).
    change (uploads (trace_of (ret tt _))) with (@nil (Z * bytes)).
    rewrite app_nil_r. split; [exact Hbw|]. split; [lia|].
    split; [by rewrite app_assoc, Hdata | exact Hsizes].
Qed.

(** A sequence of writes keeps the invariant of the handle. *)
Lemma write_all_spec (b : Z) (ws : list bytes) :
  S3File.part_min <= b <= S3File.part_max ->
  forall (data : bytes) (f : S3File.t) (fs : S3FileSystem.t)
         (ups : list (Z * bytes)),
  S3File.written b data f ups ->
  result_of (S3File.write_all lsc ws (f, fs)) = inr tt ->
  S3File.written b (data ++ concat ws)
    (state_of (S3File.write_all lsc ws (f, fs))).1
    (ups ++ uploads (trace_of (S3File.write_all lsc ws (f, fs)))).
Proof.
  intros Hb. induction ws as [|w ws IH]; intros data f fs ups Hinv Hok.
  - cbn. by rewrite !app_nil_r.
  - unfold S3File.write_all in *. cbn [for_each concat] in *.
    apply bind_ok in Hok as ([] & Hw & Hok & Hst & Htr).
    rewrite Hst, Htr, uploads_app. clear Hst Htr.
    apply bind_ok in Hw as (out & Hw & _ & Hst & Htr).
    rewrite Hst, Htr in *. clear Hst Htr.
    change (trace_of (ret tt _)) with (@nil event) in *.
    change (state_of (ret tt ?s)) with s in *.
    rewrite app_nil_r in *.
    pose proof (write_spec b data w f fs ups out Hb Hinv Hw) as Hinv'.
    destruct (state_of (S3File.write lsc w (f, fs))) as [f' fs'].
    rewrite !app_assoc. by apply IH.
Qed.

(** Closing the handle uploads at most one part more: what is left in
    the buffer. *)
Lemma close_spec (b : Z) (data : bytes) (f : S3File.t) (fs : S3FileSystem.t)
    (ups : list (Z * bytes)) :
  S3File.written b data f ups ->
  result_of (S3File.close lsc (f, fs)) = inr tt ->
  (exists n0,
     ups ++ uploads (trace_of (S3File.close lsc (f, fs)))
     = numbered n0
         (map snd (ups ++ uploads (trace_of (S3File.close lsc (f, fs))))))
  /\ (ups ++ uploads (trace_of (S3File.close lsc (f, fs))) <> [] ->
      concat (map snd (ups ++ uploads (trace_of (S3File.close lsc (f, fs)))))
      = data)
  /\ Forall S3File.part_size_ok
       (removelast
          (map snd (ups ++ uploads (trace_of (S3File.close lsc (f, fs)))))).
Proof.
  intros (Hbs & buf & Hbw & Hsmall & Hdata & Hsizes).
  pose proof Hbw as (Hmode & Hcl & Hfo & _).
  unfold S3File.close. rewrite bind_self. cbn [fst].
  rewrite Hcl, Hfo.
  assert (bool_decide (S3File.mode f = "rb") = false) as ->
    by (destruct Hmode as [-> | ->]; reflexivity).
  cbn [negb]. intros Hok.
  apply bind_ok in Hok as ([] & Hok & _ & _ & Htr).
  rewrite Htr. clear Htr.
  change (trace_of (S3File.update _ _)) with (@nil event). rewrite app_nil_r.
  apply bind_ok in Hok as ([] & Hflush & _ & _ & Htr).
  rewrite Htr, uploads_app. clear Htr.
  assert (quiet (S3File.on_fs (S3FileSystem.invalidate_cache
                                 (Some (S3File.path f))) >>
                 S3File.on_fs (S3FileSystem.invalidate_cache
                   (Some (AbstractFileSystem._parent (S3File.path f))))))
    as -> by quiet.
  rewrite !app_nil_r. subst b.
  destruct (flush_true_spec f fs buf ups Hbw Hsmall Hflush)
    as (Hnum & Hconcat & Hcases).
  split; [exact Hnum|]. split.
  - intros Hne. by rewrite (Hconcat Hne).
  - destruct Hcases as [-> | ->].
    + by apply Forall_removelast.
    + by rewrite removelast_last.
Qed.
End C1Flush.

(** *** One block through [_upload_chunk] on the scripted client *)

Lemma read_all (b : Z) (block : bytes) :
  0 <= b -> Z.of_nat (length block) <= b -> S3File.read b block = (block, []).
Proof.
  intros Hb Hlen. unfold S3File.read.
  rewrite (proj2 (Z.ltb_ge b 0)) by lia.
  rewrite take_ge, drop_ge by lia. done.
Qed.

Lemma upload_loop_nil `{Client} (fuel : nat) (bucket key : string) (rest : bytes) :
  S3File.upload_loop fuel bucket key [] rest = ret tt.
Proof. by destruct fuel. Qed.

(** The loop of [_upload_chunk] on a buffer of one block: the block is
    uploaded as one part. *)
Lemma scripted_upload_loop_block (b : Z) (block : bytes) (ps : list part) :
  0 < b -> block <> [] ->
  S3File.upload_loop (H := scripted_client) (length block) "bucket" "key" block []
    (scripted_file b b (Some block) (Some "upload-1") (Some ps) true,
     scripted_fs false [] ∅)
  = (inr tt,
     (scripted_file b b (Some block) (Some "upload-1")
        (Some (ps ++ [{| PartNumber := Z.of_nat (length ps) + 1;
                         part_ETag := "etag" |}])) true,
      scripted_fs false [] ∅),
     [Attempt (upload_part "bucket" "key" (Z.of_nat (length ps) + 1)
                 "upload-1" block) None]).
Proof.
  intros Hb Hne. destruct block as [|x block]; [done|].
  cbn [length S3File.upload_loop].
  rewrite (bind_self (H := scripted_client)). cbn [fst].
  change (S3File.blocksize (scripted_file _ _ _ _ _ _)) with b.
  rewrite (read_all b []) by (cbn; lia). rewrite rebalance_nil.
  cbv iota beta.
  change (S3File.parts (scripted_file _ _ _ _ _ _)) with (Some ps).
  change (S3File.mpu (scripted_file _ _ _ _ _ _)) with (Some "upload-1").
  cbv iota. rewrite !bind_ret. rewrite upload_loop_nil.
  reflexivity.
Qed.

Lemma scripted_upload_chunk_block (b : Z) (block : bytes) (ps : list part) :
  0 < b -> Z.of_nat (length block) = b ->
  S3File._upload_chunk (H := scripted_client) no_listing false
    (scripted_file b b (Some block) (Some "upload-1") (Some ps) true,
     scripted_fs false [] ∅)
  = (inr true,
     (scripted_file b b (Some block) (Some "upload-1")
        (Some (ps ++ [{| PartNumber := Z.of_nat (length ps) + 1;
                         part_ETag := "etag" |}])) true,
      scripted_fs false [] ∅),
     [Attempt (upload_part "bucket" "key" (Z.of_nat (length ps) + 1)
                 "upload-1" block) None]).
Proof.
  intros Hb Hlen. unfold S3File._upload_chunk.
  rewrite (bind_self (H := scripted_client)),
    (bind_on_fs_get (H := scripted_client)). cbn [fst snd].
  change (split_path _ _) with ("bucket", "key", @None string).
  cbv iota beta.
  change (S3File.one_shot _ false) with false.
  cbv iota.
  change (S3File.buffer (scripted_file _ _ _ _ _ _)) with (Some block).
  cbv iota. rewrite bind_ret.
  change (S3File.blocksize (scripted_file _ _ _ _ _ _)) with b.
  rewrite read_all by lia. cbv iota beta.
  rewrite bind_unfold, scripted_upload_loop_block
    by (try lia; intros ->; cbn in Hlen; lia).
  reflexivity.
Qed.

(** Two flushes of one block each: two parts, each the block. *)
Lemma scripted_two_blocks (b : Z) (block : bytes) :
  0 < b -> Z.of_nat (length block) = b ->
  map snd (uploads (trace_of
    ((S3File._upload_chunk (H := scripted_client) no_listing false >>
      S3File._upload_chunk (H := scripted_client) no_listing false)
       (scripted_file b b (Some block) (Some "upload-1") (Some []) true,
        scripted_fs false [] ∅))))
  = [block; block].
Proof.
  intros Hb Hlen.
  rewrite bind_unfold, (scripted_upload_chunk_block b block [] Hb Hlen).
  cbv iota beta.
  rewrite (scripted_upload_chunk_block b block _ Hb Hlen).
  reflexivity.
Qed.

Lemma oversized_block_length :
  Z.of_nat (length oversized_block) = S3File.part_max + 1.
Proof.
  unfold oversized_block. rewrite repeat_length, Z2Nat.id; [reflexivity|].
  rewrite part_max_value. lia.
Qed.

(** C1, as stated, fails: the constructor accepts a block size above
    [part_max] (it rejects only block sizes below 5 MiB), and on such a
    handle two flushes of one block each through [_upload_chunk] upload
    two parts of [part_max + 1] bytes: the first one is not the last
    part, and its size is not within [part_min, part_max]. *)
Lemma upload_chunk_oversized_parts :
  result_of (S3File.__init__ (H := scripted_client) no_listing "bucket/key" "wb"
               (S3File.part_max + 1) "" None true false (scripted_fs false [] ∅))
  = inr (scripted_file (S3File.part_max + 1) 0 (Some []) None None true)
  /\ map snd (uploads (trace_of
       ((S3File._upload_chunk (H := scripted_client) no_listing false >>
         S3File._upload_chunk (H := scripted_client) no_listing false)
          (scripted_file (S3File.part_max + 1) (S3File.part_max + 1)
             (Some oversized_block) (Some "upload-1") (Some []) true,
           scripted_fs false [] ∅))))
     = [oversized_block; oversized_block]
  /\ ~ S3File.part_size_ok oversized_block.
Proof.
  pose proof oversized_block_length as Hlen.
  pose proof part_max_value as Hmax.
  split; [vm_compute; reflexivity|]. split.
  - apply scripted_two_blocks; [lia | exact Hlen].
  - unfold S3File.part_size_ok. rewrite Hlen. lia.
Qed.

(** C1, amended: on a handle opened for writing whose block size lies
    within [part_min, part_max], for every sequence of writes followed
    by the close of the handle, when the calls return: the parts
    uploaded into the multipart session are numbered consecutively in
    the order of their upload, the concatenation of their bodies in that
    order is exactly the bytes written (after the bytes the buffer held
    at first) whenever a part was uploaded at all, and every part except
    the last has a size within [part_min, part_max]. *)
Theorem multipart_parts_rebalanced `{Client}
    (lsc : gmap string (list entry) -> string -> exn + option (list entry))
    (f : S3File.t) (fs : S3FileSystem.t) (buf0 : bytes) (ws : list bytes) :
  S3File.part_min <= S3File.blocksize f <= S3File.part_max ->
  S3File.opened_for_writing f buf0 ->
  result_of (S3File.write_then_close lsc ws (f, fs)) = inr tt ->
  (exists n0,
     uploads (trace_of (S3File.write_then_close lsc ws (f, fs)))
     = numbered n0
         (map snd (uploads (trace_of (S3File.write_then_close lsc ws (f, fs))))))
  /\ (uploads (trace_of (S3File.write_then_close lsc ws (f, fs))) <> [] ->
      concat (map snd (uploads (trace_of (S3File.write_then_close lsc ws (f, fs)))))
      = buf0 ++ concat ws)
  /\ Forall S3File.part_size_ok
       (removelast
          (map snd (uploads (trace_of (S3File.write_then_close lsc ws (f, fs)))))).
Proof.
  intros Hb (Hmode & Hcl & Hfo & Hoff & Hmpu & Hps & Hbuf & Hsmall & Hloc).
  assert (S3File.written (S3File.blocksize f) buf0 f []) as Hinv.
  { split; [done|]. exists buf0. split; [|by split].
    split; [done|]. split; [done|]. split; [done|]. split; [done|].
    split; [done|]. by left. }
  unfold S3File.write_then_close. intros Hok.
  apply bind_ok in Hok as ([] & Hw & Hclose & _ & Htr).
  rewrite Htr, uploads_app. clear Htr.
  pose proof (write_all_spec lsc _ ws Hb buf0 f fs [] Hinv Hw) as Hinv'.
  cbn [app] in Hinv'.
  destruct (state_of (S3File.write_all lsc ws (f, fs))) as [f' fs'].
  exact (close_spec lsc _ _ f' fs' _ Hinv' Hclose).
Qed.

Lemma multipart_parts_rebalanced_witness :
  (exists n0,
     uploads (trace_of (S3File.write_then_close (H := scripted_client) no_listing
                          [[Byte.x61]; [Byte.x62; Byte.x63]]
                          (scripted_file (5 * 2 ^ 20) 0 (Some []) None None false,
                           scripted_fs false [] ∅)))
     = numbered n0
         (map snd (uploads (trace_of
            (S3File.write_then_close (H := scripted_client) no_listing
               [[Byte.x61]; [Byte.x62; Byte.x63]]
               (scripted_file (5 * 2 ^ 20) 0 (Some []) None None false,
                scripted_fs false [] ∅))))))
  /\ (uploads (trace_of (S3File.write_then_close (H := scripted_client) no_listing
                          [[Byte.x61]; [Byte.x62; Byte.x63]]
                          (scripted_file (5 * 2 ^ 20) 0 (Some []) None None false,
                           scripted_fs false [] ∅))) <> [] ->
      concat (map snd (uploads (trace_of
        (S3File.write_then_close (H := scripted_client) no_listing
           [[Byte.x61]; [Byte.x62; Byte.x63]]
           (scripted_file (5 * 2 ^ 20) 0 (Some []) None None false,
            scripted_fs false [] ∅)))))
      = [] ++ concat [[Byte.x61]; [Byte.x62; Byte.x63]])
  /\ Forall S3File.part_size_ok
       (removelast (map snd (uploads (trace_of
          (S3File.write_then_close (H := scripted_client) no_listing
             [[Byte.x61]; [Byte.x62; Byte.x63]]
             (scripted_file (5 * 2 ^ 20) 0 (Some []) None None false,
              scripted_fs false [] ∅)))))).
Proof.
  apply (multipart_parts_rebalanced (H := scripted_client) no_listing
           (scripted_file (5 * 2 ^ 20) 0 (Some []) None None false)
           (scripted_fs false [] ∅) [] [[Byte.x61]; [Byte.x62; Byte.x63]]).
  - change (5242880 <= 5242880 <= 5368709120). lia.
  - repeat split; try reflexivity; try discriminate. by left.
  - vm_compute. reflexivity.
Defined.

(** The run of the witness: the three bytes go up as one part. *)
Example write_then_close_run :
  uploads (trace_of (S3File.write_then_close (H := scripted_client) no_listing
                       [[Byte.x61]; [Byte.x62; Byte.x63]]
                       (scripted_file (5 * 2 ^ 20) 0 (Some []) None None false,
                        scripted_fs false [] ∅)))
  = [(1, [Byte.x61; Byte.x62; Byte.x63])].
Proof. vm_compute. reflexivity. Qed.

(* ===================================================================== *)
(** * Further properties of the code *)
(* ===================================================================== *)

(** ** Paths and version ids *)

Lemma split_slash_1_head (s : string) :
  Py.has_slash (Py.split_slash_1 s).1 = false.
Proof.
  induction s as [|c s IH]; [done|]. cbn [Py.split_slash_1].
  destruct (Py.is_slash c) eqn:Hc; [done|].
  destruct (Py.split_slash_1 s) as [a b]. cbn [fst Py.has_slash] in *.
  by rewrite Hc, IH.
Qed.

Lemma split_slash_1_join (s : string) :
  Py.has_slash s = true ->
  (Py.split_slash_1 s).1 +:+ "/" +:+ (Py.split_slash_1 s).2 = s.
Proof.
  induction s as [|c s IH]; [done|]. cbn [Py.has_slash Py.split_slash_1].
  destruct (Py.is_slash c) eqn:Hc.
  - intros _. unfold Py.is_slash in Hc. apply bool_decide_eq_true in Hc.
    by subst c.
  - cbn [orb]. intros Hs. specialize (IH Hs).
    destruct (Py.split_slash_1 s) as [a b]. cbn [fst snd] in *.
    by rewrite append_cons, IH.
Qed.

Lemma startswith_drop (p s : string) :
  Py.startswith p s = true -> p +:+ Py.drop (String.length p) s = s.
Proof.
  revert s. induction p as [|a p IH]; intros s; [done|].
  destruct s as [|b s]; [done|]. cbn [Py.startswith String.length Py.drop].
  intros Hs. apply andb_prop in Hs as [Hab Hs].
  apply bool_decide_eq_true in Hab. subst b.
  by rewrite append_cons, IH.
Qed.

Lemma partition_join (sep s : string) :
  (Py.partition sep s).1.1 +:+ (Py.partition sep s).1.2 +:+ (Py.partition sep s).2
  = s.
Proof.
  induction s as [|c s IH].
  - cbn [Py.partition]. destruct (Py.startswith sep "") eqn:Hs; [|done].
    destruct sep; [done | discriminate].
  - cbn [Py.partition]. destruct (Py.startswith sep (String c s)) eqn:Hs.
    + cbn [fst snd]. rewrite append_nil. by apply startswith_drop.
    + destruct (Py.partition sep s) as [[a m] b]. cbn [fst snd] in *.
      by rewrite append_cons, IH.
Qed.

(** X8: the bucket [split_path] returns never holds a separator, a
    filesystem that is not version aware never gets a version id, a
    version id that is returned is not empty, and the components
    reassemble to the path: when a version id [v] is returned, the path
    (without protocol and leading separators) is
    [bucket/key?versionId=v]. *)
Theorem split_path_components (version_aware : bool) (path : string) :
  Py.has_slash (split_path version_aware path).1.1 = false
  /\ (split_path false path).2 = None
  /\ (forall v, (split_path version_aware path).2 = Some v ->
        version_aware = true /\ v <> ""
        /\ Py.lstrip_slash (AbstractFileSystem._strip_protocol path)
           = (split_path version_aware path).1.1 +:+ "/"
             +:+ (split_path version_aware path).1.2 +:+ "?versionId=" +:+ v).
Proof.
  unfold split_path.
  set (p := Py.lstrip_slash (AbstractFileSystem._strip_protocol path)).
  destruct (Py.has_slash p) eqn:Hp; cbn [negb fst snd]; [|by rewrite Hp].
  pose proof (split_slash_1_head p) as Hhead.
  pose proof (split_slash_1_join p Hp) as Hjoin.
  destruct (Py.split_slash_1 p) as [bucket keypart]. cbn [fst snd] in *.
  pose proof (partition_join "?versionId=" keypart) as Hpart.
  destruct (Py.partition "?versionId=" keypart) as [[key m] vid] eqn:Hkp.
  cbn [fst snd andb] in *.
  split; [exact Hhead|]. split; [done|].
  intros v Hv. destruct version_aware; [|done]. cbn [andb] in Hv.
  destruct (Py.truthy vid) eqn:Hvid; [|done]. injection Hv as ->.
  split; [done|]. split.
  { intros ->. done. }
  assert (m = "?versionId=") as ->.
  { clear -Hkp Hvid. revert key m Hkp.
    induction keypart as [|c k IH]; intros key m Hkp.
    - cbn in Hkp. injection Hkp as <- <- <-. done.
    - cbn [Py.partition] in Hkp.
      destruct (Py.startswith "?versionId=" (String c k)); [congruence|].
      destruct (Py.partition "?versionId=" k) as [[a m'] b].
      injection Hkp as <- <- <-. by eapply IH. }
  by rewrite <- Hjoin, <- Hpart.
Qed.

Lemma py_set_elem_of {A} `{EqDecision A} (l : list A) (x : A) :
  x ∈ py_set l <-> x ∈ l.
Proof.
  induction l as [|y l IH]; [done|]. cbn [py_set].
  rewrite !elem_of_cons, list_elem_of_filter, IH.
  destruct (decide (x = y)); naive_solver.
Qed.

Lemma py_set_NoDup {A} `{EqDecision A} (l : list A) : NoDup (py_set l).
Proof.
  induction l as [|y l IH]; [constructor|]. cbn [py_set].
  constructor; [|by apply NoDup_filter].
  rewrite list_elem_of_filter. naive_solver.
Qed.

(** The version ids left of the arguments do not depend on the order of
    the arguments. *)
Lemma coalesce_same_elements (args args' : list (option string)) :
  (forall v, v ∈ args <-> v ∈ args') ->
  _coalesce_version_id args = _coalesce_version_id args'.
Proof.
  intros Hsame. unfold _coalesce_version_id. cbv zeta.
  assert (filter (λ v, v ≠ None) (py_set args)
          ≡ₚ filter (λ v, v ≠ None) (py_set args')) as Hperm.
  { apply NoDup_Permutation;
      [apply NoDup_filter, py_set_NoDup | apply NoDup_filter, py_set_NoDup |].
    intros v. rewrite !list_elem_of_filter, !py_set_elem_of. naive_solver. }
  pose proof (Permutation_length Hperm) as Hlen.
  destruct (filter _ (py_set args)) as [|v [|w l]];
    destruct (filter _ (py_set args')) as [|v' [|w' l']];
    cbn [length] in Hlen; try lia; try done.
  apply Permutation_singleton_l in Hperm. by injection Hperm as ->.
Qed.

(** X9: the outcome of [_coalesce_version_id] does not depend on the
    order of its arguments, nor on how often one is repeated: for any
    two argument lists with the same elements, either both calls return
    the same version id, or both fail with [ValueError]. *)
Theorem coalesce_version_id_unordered (args args' : list (option string)) :
  (forall v, v ∈ args <-> v ∈ args') ->
  (forall v, _coalesce_version_id args = inr v
             <-> _coalesce_version_id args' = inr v)
  /\ ((exists msg, _coalesce_version_id args = inl (ValueError msg))
      <-> (exists msg, _coalesce_version_id args' = inl (ValueError msg))).
Proof.
  intros Hsame. by rewrite (coalesce_same_elements args args' Hsame).
Qed.

Lemma coalesce_version_id_unordered_witness :
  _coalesce_version_id [None; Some "v"; None] = inr (Some "v")
  <-> _coalesce_version_id [Some "v"; Some "v"; None] = inr (Some "v").
Proof.
  apply (coalesce_version_id_unordered [None; Some "v"; None]
           [Some "v"; Some "v"; None]).
  intros v. rewrite !elem_of_cons, !elem_of_nil. tauto.
Defined.

(** ** Calls that are decided without the object store *)

(** X1: on a filesystem configured for no attempt at all, a call
    through [_call_s3] never reaches the client: the loop is not
    entered, no error was bound, and the call fails with
    [UnboundLocalError], leaving the filesystem as it was. *)
Theorem call_s3_without_attempts `{Client} {T} (r : request T)
    (fs : S3FileSystem.t) :
  S3FileSystem.retries fs = 0%nat ->
  S3FileSystem._call_s3 r fs = (inl (UnboundLocalError "err"), fs, []).
Proof.
  intros Hr. unfold S3FileSystem._call_s3. rewrite bind_get, Hr. reflexivity.
Qed.

Lemma call_s3_without_attempts_witness :
  S3FileSystem._call_s3 (H := scripted_client) list_buckets
    (@S3FileSystem.Build_t scripted_client false false 0%nat (5 * 2 ^ 20)
       [] [] [] ∅ [])
  = (inl (UnboundLocalError "err"),
     @S3FileSystem.Build_t scripted_client false false 0%nat (5 * 2 ^ 20)
       [] [] [] ∅ [],
     []).
Proof. apply call_s3_without_attempts. reflexivity. Defined.

(** X2: [_touch] on a path that names a version fails with [ValueError]
    before anything else: no existence probe, no [put_object], no cache
    invalidation. *)
Theorem touch_rejects_version `{Client}
    (lsc : gmap string (list entry) -> string -> exn + option (list entry))
    (fs : S3FileSystem.t) (path : string) (truncate : bool) (kw : kwargs) :
  Py.truthy_opt (split_path (S3FileSystem.version_aware fs) path).2 = true ->
  S3FileSystem._touch lsc path truncate kw fs
  = (inl (ValueError "S3 does not support touching existing versions of files"),
     fs, []).
Proof.
  intros Hv. unfold S3FileSystem._touch. rewrite bind_get.
  destruct (split_path _ path) as [[bucket key] v]. cbn [snd] in Hv.
  by rewrite Hv.
Qed.

Lemma touch_rejects_version_witness :
  S3FileSystem._touch (H := scripted_client) no_listing
    "bucket/key?versionId=v" true [] (scripted_fs true [] ∅)
  = (inl (ValueError "S3 does not support touching existing versions of files"),
     scripted_fs true [] ∅, []).
Proof. apply touch_rejects_version. reflexivity. Defined.

(** X6: [_bulk_delete] validates its batch before it does anything: an
    empty batch is a no-operation, and a batch that spans more than one
    bucket or holds more than 1000 paths fails with [ValueError]; in all
    three cases no cache entry is invalidated and no remote call is
    made. *)
Theorem bulk_delete_validates `{Client} (fs : S3FileSystem.t) (kw : kwargs) :
  S3FileSystem._bulk_delete [] kw fs = (inr tt, fs, [])
  /\ (forall pathlist,
        (1 < length (py_set (map (λ p, (split_path (S3FileSystem.version_aware fs) p).1.1)
                               pathlist)))%nat ->
        S3FileSystem._bulk_delete pathlist kw fs
        = (inl (ValueError "Bulk delete files should refer to only one bucket"),
           fs, []))
  /\ (forall pathlist,
        (length (py_set (map (λ p, (split_path (S3FileSystem.version_aware fs) p).1.1)
                           pathlist)) <= 1)%nat ->
        (1000 < length pathlist)%nat ->
        S3FileSystem._bulk_delete pathlist kw fs
        = (inl (ValueError "Max number of files to delete in one call is 1000"),
           fs, [])).
Proof.
  split; [reflexivity|]. split.
  - intros pathlist Hb. unfold S3FileSystem._bulk_delete. rewrite bind_get.
    destruct pathlist as [|p l]; [cbn in Hb; lia|].
    case_decide; [done | lia].
  - intros pathlist Hb Hn. unfold S3FileSystem._bulk_delete. rewrite bind_get.
    destruct pathlist as [|p l]; [cbn in Hn; lia|].
    case_decide; [lia|]. case_decide; [done | lia].
Qed.

Example bulk_delete_two_buckets :
  S3FileSystem._bulk_delete (H := scripted_client) ["a/x"; "b/y"] []
    (scripted_fs false [] ∅)
  = (inl (ValueError "Bulk delete files should refer to only one bucket"),
     scripted_fs false [] ∅, []).
Proof. vm_compute. reflexivity. Qed.

(** X7: a ranged read of an empty range returns no bytes without a
    remote call, whatever the handle: the module-level [_fetch_range]
    returns at once when [start = end], and so does the method of the
    handle. *)
Theorem fetch_empty_range `{Client} (f : S3File.t) (fs : S3FileSystem.t)
    (bucket key : string) (v : option string) (start : Z)
    (req_kw : option kwargs) :
  S3File._fetch_range_ bucket key v start start req_kw fs = (inr [], fs, [])
  /\ S3File._fetch_range start start (f, fs) = (inr [], (f, fs), []).
Proof.
  split.
  - unfold S3File._fetch_range_. by rewrite bool_decide_eq_true_2.
  - unfold S3File._fetch_range. rewrite bind_self. cbn [fst].
    unfold try_except, S3File.on_fs, S3File._fetch_range_. cbn [snd].
    by rewrite bool_decide_eq_true_2.
Qed.

(** X11: [_open] with a version id on a filesystem that is not version
    aware fails with [ValueError] before the handle is built: no remote
    call is made. *)
Theorem open_rejects_version_when_unaware `{Client}
    (lsc : gmap string (list entry) -> string -> exn + option (list entry))
    (fs : S3FileSystem.t) (path mode : string) (block_size : option Z)
    (acl : string) (v : string) (autocommit : bool) (rp : option bool) :
  S3FileSystem.version_aware fs = false -> v <> "" ->
  S3File._open lsc path mode block_size acl (Some v) autocommit rp fs
  = (inl (ValueError
       "version_id cannot be specified if the filesystem is not version aware"),
     fs, []).
Proof.
  intros Hva Hv. unfold S3File._open. rewrite bind_get, Hva.
  unfold Py.truthy_opt, Py.truthy. by rewrite bool_decide_eq_false_2.
Qed.

Lemma open_rejects_version_when_unaware_witness :
  S3File._open (H := scripted_client) no_listing "bucket/key" "rb" None ""
    (Some "v") true None (scripted_fs false [] ∅)
  = (inl (ValueError
       "version_id cannot be specified if the filesystem is not version aware"),
     scripted_fs false [] ∅, []).
Proof. apply open_rejects_version_when_unaware; [reflexivity | discriminate]. Defined.

(** X15: [_lsdir] answers from the cache when the path is cached, no
    refresh is asked for and a delimiter is used: the cached listing is
    returned, no remote call is made and the cache stays as it is. *)
Theorem lsdir_cache_hit `{Client} (fs : S3FileSystem.t) (path : string)
    (max_items : option Z) (delimiter prefix : string) (files : list entry) :
  S3FileSystem.dircache fs !! path = Some files ->
  delimiter <> "" ->
  S3FileSystem._lsdir path false max_items delimiter prefix fs
  = (inr files, fs, []).
Proof.
  intros Hc Hd. unfold S3FileSystem._lsdir. rewrite bind_get.
  destruct (split_path _ path) as [[bucket key] v].
  rewrite Hc. rewrite (bool_decide_eq_true_2 (is_Some (Some files))) by done.
  unfold Py.truthy. by rewrite bool_decide_eq_false_2.
Qed.

Lemma lsdir_cache_hit_witness :
  S3FileSystem._lsdir (H := scripted_client) "bucket/dir" false None "/" ""
    (scripted_fs false [] {[ "bucket/dir" := [] ]})
  = (inr [], scripted_fs false [] {[ "bucket/dir" := [] ]}, []).
Proof.
  apply lsdir_cache_hit; [apply lookup_singleton_eq | discriminate].
Defined.

(** ** Handles *)

(** X10: a handle that [S3File.__init__] builds in mode [wb] is opened
    for writing with an empty buffer, at position 0, without a session,
    and with the block size asked for, which is at least [part_min];
    building it, or failing to, makes no remote call and leaves the
    filesystem as it was; with a block size below 5 MiB the constructor
    fails. *)
Theorem init_write_handle `{Client}
    (lsc : gmap string (list entry) -> string -> exn + option (list entry))
    (fs : S3FileSystem.t) (path : string) (block_size : Z) (acl : string)
    (v : option string) (autocommit rp : bool) :
  match S3File.__init__ lsc path "wb" block_size acl v autocommit rp fs with
  | (inr f, fs', tr) =>
      S3File.opened_for_writing f []
      /\ S3File.loc f = 0
      /\ S3File.buffer f = Some []
      /\ S3File.mpu f = None /\ S3File.parts f = None
      /\ S3File.part_min <= S3File.blocksize f
      /\ S3File.blocksize f = block_size
      /\ S3File.autocommit f = autocommit
      /\ S3File.append_block f = false
      /\ fs' = fs /\ tr = []
  | (inl e, fs', tr) => fs' = fs /\ tr = []
  end
  /\ (block_size < S3File.part_min ->
      exists e,
        result_of (S3File.__init__ lsc path "wb" block_size acl v autocommit rp fs)
        = inl e).
Proof.
  assert (match S3File.__init__ lsc path "wb" block_size acl v autocommit rp fs with
          | (inr f, fs', tr) =>
              S3File.opened_for_writing f []
              /\ S3File.loc f = 0
              /\ S3File.buffer f = Some []
              /\ S3File.mpu f = None /\ S3File.parts f = None
              /\ S3File.part_min <= S3File.blocksize f
              /\ S3File.blocksize f = block_size
              /\ S3File.autocommit f = autocommit
              /\ S3File.append_block f = false
              /\ fs' = fs /\ tr = []
          | (inl e, fs', tr) => fs' = fs /\ tr = []
          end) as Hrun.
  { unfold S3File.__init__. rewrite bind_get.
    destruct (split_path _ path) as [[bucket key] pv].
    destruct (Py.truthy key); cbn [negb]; [|done].
    destruct (_coalesce_version_id [v; pv]) as [e|vid]; cbn [lift_result];
      [by rewrite bind_raise|].
    rewrite bind_ret.
    destruct (_ && _); [done|].
    change (Py.contains "r" "wb") with false.
    change (Py.contains "a" "wb") with false. cbn [negb].
    case_bool_decide as Hbs; [by rewrite bind_raise|].
    rewrite bind_ret. cbn -[bool_decide Z.pow Z.mul S3File.part_min].
    pose proof part_min_value as Hmin.
    change (5 * 2 ^ 20) with 5242880 in Hbs.
    repeat split; try done; try (by left);
      cbn [S3File.blocksize length]; lia. }
  split; [exact Hrun|].
  intros Hsmall.
  destruct (S3File.__init__ lsc path "wb" block_size acl v autocommit rp fs)
    as [[[e|f] fs'] tr]; [by exists e|].
  destruct Hrun as (_ & _ & _ & _ & _ & Hmin & Hbs & _). lia.
Qed.

Example init_write_handle_run :
  S3File.__init__ (H := scripted_client) no_listing "bucket/key" "wb"
    (5 * 2 ^ 20) "" None true false (scripted_fs false [] ∅)
  = (inr (scripted_file (5 * 2 ^ 20) 0 (Some []) None None true),
     scripted_fs false [] ∅, []).
Proof. vm_compute. reflexivity. Qed.

(** X12: [_abort_mpu] is idempotent. When it returns, the handle holds
    no session, and a second [_abort_mpu] makes no remote call and
    changes nothing; when the abort fails, the session stays recorded in
    the handle. *)
Theorem abort_mpu_idempotent `{Client} (s : S3File.st) :
  match result_of (S3File._abort_mpu s) with
  | inr _ =>
      S3File.mpu (state_of (S3File._abort_mpu s)).1 = None
      /\ S3File._abort_mpu (state_of (S3File._abort_mpu s))
         = (inr tt, state_of (S3File._abort_mpu s), [])
  | inl _ => S3File.mpu (state_of (S3File._abort_mpu s)).1 = S3File.mpu s.1
  end.
Proof.
  destruct s as [f fs].
  assert (S3File._abort_mpu (f, fs)
          = match S3File.mpu f with
            | Some uid =>
                (S3File._call_s3
                   (abort_multipart_upload (S3File.bucket f) (S3File.key f) uid) >>
                 S3File.update (S3File.set_mpu None)) (f, fs)
            | None => (inr tt, (f, fs), [])
            end) as Hrun.
  { unfold S3File._abort_mpu. rewrite bind_self. cbn [fst].
    by destruct (S3File.mpu f). }
  rewrite Hrun. clear Hrun.
  destruct (S3File.mpu f) as [uid|] eqn:Hmpu.
  - rewrite bind_result, bind_state.
    pose proof (file_call_s3_self
      (abort_multipart_upload (S3File.bucket f) (S3File.key f) uid) (f, fs)) as Hself.
    destruct (result_of (S3File._call_s3 _ _)) as [e|[]].
    + by rewrite Hself.
    + destruct (state_of (S3File._call_s3 _ _)) as [f1 fs1].
      cbn [fst] in Hself. subst f1.
      unfold S3File.update, state_of. cbn [fst snd]. split; [done|].
      unfold S3File._abort_mpu. by rewrite bind_self.
  - unfold result_of, state_of. cbn [fst snd]. split; [done|].
    unfold S3File._abort_mpu. rewrite bind_self.
    cbn [fst]. by rewrite Hmpu.
Qed.

(** ** Cache invalidation after a mutation *)

Section Mutations.
Context `{Client}.

(** X4: [_rmdir] invalidates the cache only after [delete_bucket]
    returned: then the entries of the path and of the root are
    invalidated, in this order, after the events of the call. When the
    call fails, [_rmdir] fails, nothing is invalidated and the cache
    is as before. *)
Theorem rmdir_invalidates_after_delete (fs : S3FileSystem.t) (path : string) :
  match result_of (S3FileSystem._call_s3 (delete_bucket path) fs) with
  | inr _ =>
      result_of (S3FileSystem._rmdir path fs) = inr tt
      /\ trace_of (S3FileSystem._rmdir path fs)
         = trace_of (S3FileSystem._call_s3 (delete_bucket path) fs)
           ++ [Invalidate (Some path); Invalidate (Some "")]
      /\ S3FileSystem.dircache (state_of (S3FileSystem._rmdir path fs))
         = S3FileSystem.invalidate_dircache (Some "")
             (S3FileSystem.invalidate_dircache (Some path)
                (S3FileSystem.dircache fs))
  | inl _ =>
      (exists e, result_of (S3FileSystem._rmdir path fs) = inl e)
      /\ trace_of (S3FileSystem._rmdir path fs)
         = trace_of (S3FileSystem._call_s3 (delete_bucket path) fs)
      /\ S3FileSystem.dircache (state_of (S3FileSystem._rmdir path fs))
         = S3FileSystem.dircache fs
  end.
Proof.
  unfold S3FileSystem._rmdir. rewrite bind_unfold. unfold try_except.
  pose proof (call_s3_frame (delete_bucket path) fs) as (Hd & _).
  destruct (S3FileSystem._call_s3 (delete_bucket path) fs)
    as [[[e|[]] fs1] tr1]; unfold state_of, trace_of, result_of in *;
    cbn [fst snd] in *.
  - destruct (is_ClientError e); [|cbn; rewrite app_nil_r; eauto].
    destruct (Py.contains "NoSuchBucket" (exn_str e));
      [cbn; rewrite app_nil_r; eauto|].
    destruct (Py.contains "BucketNotEmpty" (exn_str e));
      cbn; rewrite app_nil_r; eauto.
  - cbn. by rewrite Hd.
Qed.

(** X5: [_copy_basic] refuses a versioned target before any remote
    call; otherwise it invalidates the cache entry of the target only
    after [copy_object] returned, and when the copy fails nothing is
    invalidated and the cache is as before. *)
Theorem copy_basic_invalidates_after_copy (fs : S3FileSystem.t)
    (path1 path2 : string) (kw : kwargs) :
  let va := S3FileSystem.version_aware fs in
  let call :=
    S3FileSystem._call_s3
      (copy_object (split_path va path2).1.1 (split_path va path2).1.2
         ((split_path va path1).1.1, (split_path va path1).1.2,
          version_id_kw (split_path va path1).2) kw) fs in
  if Py.truthy_opt (split_path va path2).2 then
    S3FileSystem._copy_basic path1 path2 kw fs
    = (inl (ValueError "Cannot copy to a versioned file!"), fs, [])
  else
    match result_of call with
    | inr _ =>
        result_of (S3FileSystem._copy_basic path1 path2 kw fs) = inr tt
        /\ trace_of (S3FileSystem._copy_basic path1 path2 kw fs)
           = trace_of call ++ [Invalidate (Some path2)]
    | inl _ =>
        (exists e, result_of (S3FileSystem._copy_basic path1 path2 kw fs) = inl e)
        /\ trace_of (S3FileSystem._copy_basic path1 path2 kw fs) = trace_of call
        /\ S3FileSystem.dircache
             (state_of (S3FileSystem._copy_basic path1 path2 kw fs))
           = S3FileSystem.dircache fs
    end.
Proof.
  cbv zeta. unfold S3FileSystem._copy_basic. rewrite bind_get.
  destruct (split_path _ path1) as [[buc1 key1] ver1].
  destruct (split_path _ path2) as [[buc2 key2] ver2]. cbn [fst snd].
  destruct (Py.truthy_opt ver2); [done|].
  rewrite bind_unfold. unfold try_except.
  pose proof (call_s3_frame
    (copy_object buc2 key2 (buc1, key1, version_id_kw ver1) kw) fs) as (Hd & _).
  destruct (S3FileSystem._call_s3 _ fs) as [[[e|[]] fs1] tr1];
    unfold state_of, trace_of, result_of in *; cbn [fst snd] in *.
  - destruct (is_ClientError e); [cbn; rewrite app_nil_r; eauto|].
    destruct (is_ParamValidationError e); cbn; rewrite app_nil_r; eauto.
  - done.
Qed.
End Mutations.

(** A concrete run: the bucket does not exist. The gateway raises the
    translated error, which is not a [ClientError] any more and passes
    the handler of [_rmdir] as it is. *)
Example rmdir_missing_bucket_run :
  let fs := scripted_fs false
              [Some (ClientError "NoSuchBucket"
                       "The specified bucket does not exist" "DeleteBucket")]
              {[ "" := [S3FileSystem.bucket_entry "b"] ]} in
  let run := S3FileSystem._rmdir (H := scripted_client) "b" fs in
  result_of run
  = inl (OSError FileNotFoundK [AStr "The specified bucket does not exist"])
  /\ trace_of run
     = [Attempt (delete_bucket "b")
          (Some (ClientError "NoSuchBucket"
                   "The specified bucket does not exist" "DeleteBucket"))]
  /\ S3FileSystem.dircache (state_of run)
     = {[ "" := [S3FileSystem.bucket_entry "b"] ]}.
Proof. vm_compute. repeat split. Qed.

(** ** Computations that avoid events, and computations that leave the
    cache alone *)

Section Avoids.
Variable P : event -> bool.

Lemma avoids_ret {S A} (a : A) : avoids P (ret a : M S A).
Proof. intros s. apply Forall_nil_2. Qed.

Lemma avoids_raise {S A} (e : exn) : avoids P (raise e : M S A).
Proof. intros s. apply Forall_nil_2. Qed.

Lemma avoids_get {S} : avoids P (get : M S S).
Proof. intros s. apply Forall_nil_2. Qed.

Lemma avoids_modify {S} (g : S -> S) : avoids P (modify g).
Proof. intros s. apply Forall_nil_2. Qed.

Lemma avoids_emit {S} (ev : event) : P ev = false -> avoids P (emit ev : M S unit).
Proof. intros Hev s. by apply Forall_singleton. Qed.

Lemma avoids_lift_result {S A} (r : exn + A) : avoids P (lift_result r : M S A).
Proof. destruct r; [apply avoids_raise | apply avoids_ret]. Qed.

Lemma avoids_bind {S A B} (m : M S A) (k : A -> M S B) :
  avoids P m -> (forall a, avoids P (k a)) -> avoids P (bind m k).
Proof.
  intros Hm Hk s. rewrite bind_trace. apply Forall_app. split; [apply Hm|].
  destruct (result_of (m s)); [apply Forall_nil_2 | apply Hk].
Qed.

Lemma avoids_try_except {S A} (m : M S A) (h : exn -> M S A) :
  avoids P m -> (forall e, avoids P (h e)) -> avoids P (try_except m h).
Proof.
  intros Hm Hh s. specialize (Hm s). unfold try_except, trace_of in *.
  destruct (m s) as [[[e|a] s1] t1]; [|done].
  specialize (Hh e s1). unfold trace_of in Hh.
  destruct (h e s1) as [[r s2] t2]. cbn [fst snd] in *.
  apply Forall_app. by split.
Qed.

Lemma avoids_for_each {S A} (l : list A) (g : A -> M S unit) :
  (forall x, avoids P (g x)) -> avoids P (for_each l g).
Proof.
  intros Hg. induction l as [|x l IH]; [apply avoids_ret|].
  cbn [for_each]. apply avoids_bind; [apply Hg | by intros _].
Qed.

Context `{Client}.
Hypothesis P_sleep : forall d, P (Sleep d) = false.

Lemma avoids_call_s3 {T} (r : request T) :
  (forall o, P (Attempt r o) = false) -> avoids P (S3FileSystem._call_s3 r).
Proof.
  intros Hr fs. eapply Forall_impl; [apply call_s3_events|].
  intros ev [[d ->]|[o ->]]; [apply P_sleep | apply Hr].
Qed.

Lemma avoids_invoke {T} (r : request T) :
  (forall o, P (Attempt r o) = false) -> avoids P (S3FileSystem.invoke r).
Proof.
  intros Hr fs. unfold S3FileSystem.invoke, trace_of.
  destruct (serve _ _ _) as [out s3']. by apply Forall_singleton.
Qed.

Lemma avoids_translating {A} (m : M S3FileSystem.t A) :
  avoids P m -> avoids P (S3FileSystem.translating m).
Proof.
  intros Hm. apply avoids_try_except; [done|].
  intros e. destruct (is_ClientError e); apply avoids_raise.
Qed.

Lemma avoids_invalidate_cache (p : option string) :
  P (Invalidate p) = false -> avoids P (S3FileSystem.invalidate_cache p).
Proof.
  intros Hp. apply avoids_bind; [by apply avoids_emit|].
  intros _. apply avoids_modify.
Qed.

Lemma avoids_on_fs {A} (m : M S3FileSystem.t A) :
  avoids P m -> avoids P (S3File.on_fs m).
Proof. intros Hm s. rewrite on_fs_trace. apply Hm. Qed.

Lemma avoids_self : avoids P S3File.self.
Proof. intros s. apply Forall_nil_2. Qed.

Lemma avoids_update (g : S3File.t -> S3File.t) : avoids P (S3File.update g).
Proof. intros s. apply Forall_nil_2. Qed.
End Avoids.

(** The steps that prove that a computation avoids events; what is left
    are the calls whose events have to be looked at. *)
Ltac avoid_step :=
  match goal with
  | |- avoids _ (bind _ _) => apply avoids_bind; [|intros ?]
  | |- avoids _ (ret _) => apply avoids_ret
  | |- avoids _ (raise _) => apply avoids_raise
  | |- avoids _ get => apply avoids_get
  | |- avoids _ (modify _) => apply avoids_modify
  | |- avoids _ (lift_result _) => apply avoids_lift_result
  | |- avoids _ (try_except _ _) => apply avoids_try_except; [|intros ?]
  | |- avoids _ (for_each _ _) => apply avoids_for_each; intros ?
  | |- avoids _ (S3FileSystem.translating _) => apply avoids_translating
  | |- avoids _ (S3FileSystem._call_s3 _) =>
      apply avoids_call_s3; [intros ?; reflexivity | intros []; reflexivity]
  | |- avoids _ (S3FileSystem.invoke _) =>
      apply avoids_invoke; intros []; reflexivity
  | |- avoids _ (S3File.on_fs _) => apply avoids_on_fs
  | |- avoids _ S3File.self => apply avoids_self
  | |- avoids _ (S3File.update _) => apply avoids_update
  | |- avoids _ (if ?b then _ else _) => destruct b
  | |- avoids _ (match ?x with _ => _ end) => destruct x
  | |- avoids _ (let '(_, _) := ?x in _) => destruct x
  end.

Ltac avoid := repeat avoid_step.

Section CacheStable.
Context `{Client}.

Lemma cache_stable_ret {A} (a : A) : cache_stable (ret a).
Proof. done. Qed.

Lemma cache_stable_raise {A} (e : exn) : cache_stable (raise e : M _ A).
Proof. done. Qed.

Lemma cache_stable_get : cache_stable get.
Proof. done. Qed.

Lemma cache_stable_lift_result {A} (r : exn + A) :
  cache_stable (lift_result r : M _ A).
Proof. by destruct r. Qed.

Lemma cache_stable_bind {A B} (m : M S3FileSystem.t A)
    (k : A -> M S3FileSystem.t B) :
  cache_stable m -> (forall a, cache_stable (k a)) -> cache_stable (bind m k).
Proof.
  intros Hm Hk fs. rewrite bind_state.
  destruct (result_of (m fs)); [apply Hm | by rewrite Hk].
Qed.

Lemma cache_stable_try_except {A} (m : M S3FileSystem.t A)
    (h : exn -> M S3FileSystem.t A) :
  cache_stable m -> (forall e, cache_stable (h e)) ->
  cache_stable (try_except m h).
Proof.
  intros Hm Hh fs. specialize (Hm fs). unfold try_except, state_of in *.
  destruct (m fs) as [[[e|a] s1] t1]; [|done].
  specialize (Hh e s1). unfold state_of in Hh.
  destruct (h e s1) as [[r s2] t2]. cbn [fst snd] in *. congruence.
Qed.

Lemma cache_stable_call_s3 {T} (r : request T) :
  cache_stable (S3FileSystem._call_s3 r).
Proof. intros fs. apply call_s3_frame. Qed.

Lemma cache_stable_translating {A} (m : M S3FileSystem.t A) :
  cache_stable m -> cache_stable (S3FileSystem.translating m).
Proof.
  intros Hm. apply cache_stable_try_except; [done|].
  intros e. destruct (is_ClientError e); apply cache_stable_raise.
Qed.
End CacheStable.

Ltac stable_step :=
  match goal with
  | |- cache_stable (bind _ _) => apply cache_stable_bind; [|intros ?]
  | |- cache_stable (ret _) => apply cache_stable_ret
  | |- cache_stable (raise _) => apply cache_stable_raise
  | |- cache_stable get => apply cache_stable_get
  | |- cache_stable (lift_result _) => apply cache_stable_lift_result
  | |- cache_stable (try_except _ _) => apply cache_stable_try_except; [|intros ?]
  | |- cache_stable (S3FileSystem.translating _) => apply cache_stable_translating
  | |- cache_stable (S3FileSystem._call_s3 _) => apply cache_stable_call_s3
  | |- cache_stable (if ?b then _ else _) => destruct b
  | |- cache_stable (match ?x with _ => _ end) => destruct x
  | |- cache_stable (let '(_, _) := ?x in _) => destruct x
  end.

Ltac stable := repeat stable_step.

(** ** Operations that only read *)

Section ReadOnly.
Context `{Client}.
Variable lsc : gmap string (list entry) -> string -> exn + option (list entry).

Lemma simple_info_reads (path : string) :
  avoids is_effect (S3FileSystem._simple_info path)
  /\ cache_stable (S3FileSystem._simple_info path).
Proof. unfold S3FileSystem._simple_info. split; [avoid | stable]. Qed.

Lemma version_aware_info_reads (path : string) (v : option string) :
  avoids is_effect (S3FileSystem._version_aware_info path v)
  /\ cache_stable (S3FileSystem._version_aware_info path v).
Proof. unfold S3FileSystem._version_aware_info. split; [avoid | stable]. Qed.

Lemma info_probe_reads (path bucket key : string) (v : option string) :
  avoids is_effect (S3FileSystem.info_probe path bucket key v)
  /\ cache_stable (S3FileSystem.info_probe path bucket key v).
Proof.
  unfold S3FileSystem.info_probe. split.
  - avoid; first [apply version_aware_info_reads | apply simple_info_reads].
  - stable; first [apply version_aware_info_reads | apply simple_info_reads].
Qed.

Lemma info_reads (path : string) (refresh : bool) (v : option string) :
  avoids is_effect (S3FileSystem._info lsc path refresh v)
  /\ cache_stable (S3FileSystem._info lsc path refresh v).
Proof.
  unfold S3FileSystem._info. split.
  - avoid; apply info_probe_reads.
  - stable; apply info_probe_reads.
Qed.

Lemma exists_reads (path : string) :
  avoids is_effect (S3FileSystem._exists lsc path)
  /\ cache_stable (S3FileSystem._exists lsc path).
Proof.
  unfold S3FileSystem._exists. split.
  - avoid; apply info_reads.
  - stable; apply info_reads.
Qed.

Lemma size_or_info_reads (size : option Z) (url : string) :
  avoids is_effect (S3FileSystem.size_or_info lsc size url)
  /\ cache_stable (S3FileSystem.size_or_info lsc size url).
Proof.
  unfold S3FileSystem.size_or_info. split.
  - avoid; apply info_reads.
  - stable; apply info_reads.
Qed.

Lemma process_limits_reads (url : string) (start end_ : option Z) :
  avoids is_effect (S3FileSystem._process_limits lsc url start end_)
  /\ cache_stable (S3FileSystem._process_limits lsc url start end_).
Proof.
  unfold S3FileSystem._process_limits. split.
  - avoid; apply size_or_info_reads.
  - stable; apply size_or_info_reads.
Qed.

(** X13: the metadata resolver and the readers only read. No run of
    [_info], [_exists] or [_cat_file], with or without a byte range,
    invokes a client method that changes the object store or
    invalidates a cache entry, and each leaves the directory cache
    exactly as it was: what [_info] finds out remotely is not written
    to the cache. *)
Theorem readers_only_read (path : string) (refresh : bool)
    (v : option string) (start end_ : option Z) :
  (avoids is_effect (S3FileSystem._info lsc path refresh v)
   /\ cache_stable (S3FileSystem._info lsc path refresh v))
  /\ (avoids is_effect (S3FileSystem._exists lsc path)
      /\ cache_stable (S3FileSystem._exists lsc path))
  /\ (avoids is_effect (S3FileSystem._cat_file lsc path v start end_)
      /\ cache_stable (S3FileSystem._cat_file lsc path v start end_)).
Proof.
  split; [apply info_reads|]. split; [apply exists_reads|].
  unfold S3FileSystem._cat_file. split.
  - avoid; apply process_limits_reads.
  - stable; apply process_limits_reads.
Qed.

Lemma lsdir_avoids_effects (path : string) (refresh : bool)
    (max_items : option Z) (delimiter prefix : string) :
  avoids is_effect (S3FileSystem._lsdir path refresh max_items delimiter prefix).
Proof. unfold S3FileSystem._lsdir. avoid. Qed.

Lemma lsbuckets_avoids_effects (refresh : bool) :
  avoids is_effect (S3FileSystem._lsbuckets refresh).
Proof. unfold S3FileSystem._lsbuckets. avoid. Qed.

Lemma ls_avoids_effects (path : string) (detail refresh : bool) :
  avoids is_effect (S3FileSystem._ls path detail refresh).
Proof.
  unfold S3FileSystem._ls. avoid;
    first [apply lsbuckets_avoids_effects | apply lsdir_avoids_effects].
Qed.

(** X14: the listings never change the object store and never
    invalidate a cache entry: no run of [_lsdir], [_lsbuckets] or [_ls]
    invokes a mutating client method or calls [invalidate_cache]; they
    only add listings to the cache. *)
Theorem listings_avoid_effects (path : string) (detail refresh : bool)
    (max_items : option Z) (delimiter prefix : string) :
  avoids is_effect (S3FileSystem._lsdir path refresh max_items delimiter prefix)
  /\ avoids is_effect (S3FileSystem._lsbuckets refresh)
  /\ avoids is_effect (S3FileSystem._ls path detail refresh).
Proof.
  split; [apply lsdir_avoids_effects|].
  split; [apply lsbuckets_avoids_effects | apply ls_avoids_effects].
Qed.
End ReadOnly.

(** ** C10: which version id is used *)

Lemma coalesce_explicit (a : string) (y x : option string) :
  _coalesce_version_id [Some a; y] = inr x -> x = Some a.
Proof.
  unfold _coalesce_version_id. cbn.
  destruct y as [b|];
    repeat (case_decide; simplify_eq/=; try lia); try (intros; by simplify_eq/=).
Qed.

Lemma try_except_trace {S A} (m : M S A) (h : exn -> M S A) (s : S) :
  trace_of (try_except m h s)
  = trace_of (m s)
    ++ match result_of (m s) with
       | inl e => trace_of (h e (state_of (m s)))
       | inr _ => []
       end.
Proof.
  unfold try_except, trace_of, result_of, state_of.
  destruct (m s) as [[[e|a] s1] t1]; cbn.
  - by destruct (h e s1) as [[r s2] t2].
  - by rewrite app_nil_r.
Qed.

Section C10Conflict.
Context `{Client}.
Variable lsc : gmap string (list entry) -> string -> exn + option (list entry).

(** [_info] refuses two different version ids on every filesystem: a
    version-aware one fails to coalesce them, and one that is not
    version aware refuses the argument. *)
Lemma info_conflict (fs : S3FileSystem.t) (path : string) (refresh : bool)
    (a b : string) :
  (split_path true (AbstractFileSystem._strip_protocol path)).2 = Some b ->
  a <> b ->
  exists msg,
    S3FileSystem._info lsc path refresh (Some a) fs
    = (inl (ValueError msg), fs, []).
Proof.
  intros Hp Hab. destruct (S3FileSystem.version_aware fs) eqn:Hva.
  - destruct (split_path true (AbstractFileSystem._strip_protocol path))
      as [[bucket key] pv] eqn:Hsp.
    cbn [snd] in Hp. subst pv.
    eapply info_version_conflict; [by rewrite Hva | done].
  - unfold S3FileSystem._info. rewrite bind_get, Hva.
    destruct (split_path false _) as [[bucket key] pv].
    rewrite bool_decide_eq_true_2 by done. cbn [andb negb].
    rewrite bind_raise. by eexists.
Qed.

(** [_open] refuses them on a version-aware filesystem, and on one that
    is not version aware when the argument is not empty. *)
Lemma open_conflict (fs : S3FileSystem.t) (path mode : string)
    (block_size : option Z) (acl a b : string) (autocommit : bool)
    (rp : option bool) :
  (split_path true path).2 = Some b ->
  a <> b ->
  S3FileSystem.version_aware fs = true \/ a <> "" ->
  exists msg,
    S3File._open lsc path mode block_size acl (Some a) autocommit rp fs
    = (inl (ValueError msg), fs, []).
Proof.
  intros Hp Hab Hor. destruct (S3FileSystem.version_aware fs) eqn:Hva.
  - destruct (split_path true path) as [[bucket key] pv] eqn:Hsp.
    cbn [snd] in Hp. subst pv.
    eapply open_version_conflict; [by rewrite Hva | done].
  - destruct Hor as [|Ha]; [done|].
    unfold S3File._open. rewrite bind_get, Hva. cbn [negb andb].
    assert (Py.truthy_opt (Some a) = true) as ->
      by (unfold Py.truthy_opt, Py.truthy; by rewrite bool_decide_eq_false_2).
    by eexists.
Qed.

(** [S3File.__init__] refuses them on a version-aware filesystem. *)
Lemma init_conflict (fs : S3FileSystem.t) (path mode : string)
    (block_size : Z) (acl a b : string) (autocommit rp : bool) :
  S3FileSystem.version_aware fs = true ->
  (split_path true path).2 = Some b ->
  a <> b ->
  exists msg,
    S3File.__init__ lsc path mode block_size acl (Some a) autocommit rp fs
    = (inl (ValueError msg), fs, []).
Proof.
  intros Hva Hp Hab.
  destruct (split_path true path) as [[bucket key] pv] eqn:Hsp.
  cbn [snd] in Hp. subst pv.
  eapply init_version_conflict; [by rewrite Hva | done].
Qed.
End C10Conflict.

Section C10Sends.
Context `{Client}.
Variable lsc : gmap string (list entry) -> string -> exn + option (list entry).

Lemma version_aware_info_sends (path : string) (vid : option string) :
  avoids (sends_other_version (version_id_kw vid))
    (S3FileSystem._version_aware_info path vid).
Proof.
  unfold S3FileSystem._version_aware_info. avoid.
  apply avoids_call_s3; [done|]. intros ?. cbn.
  by rewrite bool_decide_eq_true_2.
Qed.

Lemma simple_info_sends (path : string) (v : option string) :
  avoids (sends_other_version v) (S3FileSystem._simple_info path).
Proof. unfold S3FileSystem._simple_info. avoid. Qed.

Lemma info_probe_sends (path bucket key : string) (vid : option string) :
  avoids (sends_other_version (version_id_kw vid))
    (S3FileSystem.info_probe path bucket key vid).
Proof.
  unfold S3FileSystem.info_probe.
  avoid; first [apply version_aware_info_sends | apply simple_info_sends].
Qed.

(** Every [head_object] that [_info] sends names the coalesced version
    id. *)
Lemma info_sends (fs : S3FileSystem.t) (path : string) (refresh : bool)
    (v vid : option string) :
  _coalesce_version_id
    [(split_path (S3FileSystem.version_aware fs)
        (AbstractFileSystem._strip_protocol path)).2; v] = inr vid ->
  Forall (fun ev => sends_other_version (version_id_kw vid) ev = false)
    (trace_of (S3FileSystem._info lsc path refresh v fs)).
Proof.
  intros Hc. unfold S3FileSystem._info. rewrite bind_get.
  destruct (split_path _ _) as [[bucket key] pv]. cbn [snd] in Hc.
  destruct (_ && _); [rewrite bind_raise; apply Forall_nil_2|].
  rewrite bind_ret.
  destruct (_ || _); [apply Forall_nil_2|].
  rewrite Hc. cbn [lift_result]. rewrite bind_ret.
  match goal with
  | |- Forall _ (trace_of (?m fs)) =>
      assert (avoids (sends_other_version (version_id_kw vid)) m) as Hav
  end; [|apply Hav].
  avoid. apply info_probe_sends.
Qed.

(** The gateway starts with an invocation. *)
Lemma call_s3_starts {T} (r : request T) (fs : S3FileSystem.t) :
  (0 < S3FileSystem.retries fs)%nat ->
  exists o tl, trace_of (S3FileSystem._call_s3 r fs) = Attempt r o :: tl.
Proof.
  intros Hn. unfold S3FileSystem._call_s3. rewrite bind_get.
  destruct (S3FileSystem.retries fs) as [|n]; [lia|].
  rewrite call_s3_loop_step.
  destruct (serve T (S3FileSystem.s3 fs) r) as [[e|out] s3']; [|by eexists _, _].
  destruct (S3_RETRYABLE_ERRORS e); [|by eexists _, _].
  destruct (S3FileSystem.call_s3_loop _ _ _ _ _) as [[res fs2] tr].
  by eexists _, _.
Qed.

(** On a version-aware filesystem, [_info] on a key that is not
    answered from the cache starts with the [head_object] of the
    coalesced version id. *)
Lemma info_probes_version (fs : S3FileSystem.t) (path bucket key : string)
    (pv v vid : option string) (refresh : bool) :
  S3FileSystem.version_aware fs = true ->
  (0 < S3FileSystem.retries fs)%nat ->
  split_path true (AbstractFileSystem._strip_protocol path) = (bucket, key, pv) ->
  key <> "" ->
  refresh = true
  \/ lsc (S3FileSystem.dircache fs) (AbstractFileSystem._strip_protocol path)
     = inr None ->
  _coalesce_version_id [pv; v] = inr vid ->
  exists o tl,
    trace_of (S3FileSystem._info lsc path refresh v fs)
    = Attempt (head_object bucket key (version_id_kw vid)
                 (S3FileSystem.fs_kwargs fs ++ S3FileSystem.req_kw fs)) o
      :: tl.
Proof.
  intros Hva Hn Hp Hkey Hmiss Hc.
  unfold S3FileSystem._info. rewrite bind_get, Hva, Hp.
  rewrite andb_false_r, bind_ret.
  assert (AbstractFileSystem._strip_protocol path <> "/"
          /\ AbstractFileSystem._strip_protocol path <> "") as [H1 H2].
  { split; intros Heq; rewrite Heq in Hp; by injection Hp as <- <- <-. }
  rewrite !bool_decide_eq_false_2 by done. cbn [orb].
  rewrite Hc. cbn [lift_result]. rewrite bind_ret.
  assert ((if refresh then ret None
           else lift_result
                  (lsc (S3FileSystem.dircache fs)
                     (AbstractFileSystem._strip_protocol path)))
          = (ret None : M S3FileSystem.t (option (list entry)))) as ->.
  { destruct refresh; [done|]. destruct Hmiss as [Hr|Hl]; [done|].
    by rewrite Hl. }
  rewrite bind_ret.
  unfold S3FileSystem.info_probe. rewrite bind_get.
  assert (Py.truthy key = true) as ->
    by (unfold Py.truthy; by rewrite bool_decide_eq_false_2).
  rewrite Hva.
  destruct (call_s3_starts
              (head_object bucket key (version_id_kw vid)
                 (S3FileSystem.fs_kwargs fs ++ S3FileSystem.req_kw fs)) fs Hn)
    as (o & tl & Hcall).
  rewrite bind_trace. unfold S3FileSystem.translating at 1.
  rewrite try_except_trace.
  unfold S3FileSystem._version_aware_info at 1.
  rewrite bind_get, Hva, Hp, try_except_trace, bind_trace, Hcall.
  rewrite <- !app_assoc. cbn [app]. by eexists _, _.
Qed.
End C10Sends.

(** *** The version id of a handle *)

Section KeepsVersion.
Context `{Client}.

Lemma keeps_ret {A} (a : A) : keeps_version_id (ret a).
Proof. done. Qed.

Lemma keeps_raise {A} (e : exn) : keeps_version_id (raise e : M _ A).
Proof. done. Qed.

Lemma keeps_bind {A B} (m : M S3File.st A) (k : A -> M S3File.st B) :
  keeps_version_id m -> (forall a, keeps_version_id (k a)) ->
  keeps_version_id (bind m k).
Proof.
  intros Hm Hk s. rewrite bind_state.
  destruct (result_of (m s)); [apply Hm | by rewrite Hk].
Qed.

Lemma keeps_try_except {A} (m : M S3File.st A) (h : exn -> M S3File.st A) :
  keeps_version_id m -> (forall e, keeps_version_id (h e)) ->
  keeps_version_id (try_except m h).
Proof.
  intros Hm Hh s. specialize (Hm s). unfold try_except, state_of in *.
  destruct (m s) as [[[e|a] s1] t1]; [|done].
  specialize (Hh e s1). unfold state_of in Hh.
  destruct (h e s1) as [[r s2] t2]. cbn [fst snd] in *. congruence.
Qed.

Lemma keeps_for_each {A} (l : list A) (g : A -> M S3File.st unit) :
  (forall x, keeps_version_id (g x)) -> keeps_version_id (for_each l g).
Proof.
  intros Hg. induction l as [|x l IH]; [apply keeps_ret|].
  cbn [for_each]. apply keeps_bind; [apply Hg | by intros _].
Qed.

Lemma keeps_on_fs {A} (m : M S3FileSystem.t A) :
  keeps_version_id (S3File.on_fs m).
Proof. intros s. by rewrite on_fs_state. Qed.

Lemma keeps_self : keeps_version_id S3File.self.
Proof. done. Qed.

Lemma keeps_get : keeps_version_id get.
Proof. done. Qed.

Lemma keeps_update (g : S3File.t -> S3File.t) :
  (forall f, S3File.version_id (g f) = S3File.version_id f) ->
  keeps_version_id (S3File.update g).
Proof. intros Hg s. apply Hg. Qed.

Lemma keeps_call_s3 {T} (r : request T) : keeps_version_id (S3File._call_s3 r).
Proof. apply keeps_on_fs. Qed.
End KeepsVersion.

Ltac keep_step :=
  match goal with
  | |- keeps_version_id (bind _ _) => apply keeps_bind; [|intros ?]
  | |- keeps_version_id (ret _) => apply keeps_ret
  | |- keeps_version_id (raise _) => apply keeps_raise
  | |- keeps_version_id (try_except _ _) => apply keeps_try_except; [|intros ?]
  | |- keeps_version_id (for_each _ _) => apply keeps_for_each; intros ?
  | |- keeps_version_id (S3File.on_fs _) => apply keeps_on_fs
  | |- keeps_version_id S3File.self => apply keeps_self
  | |- keeps_version_id get => apply keeps_get
  | |- keeps_version_id (S3File.update _) =>
      apply keeps_update; intros ?; reflexivity
  | |- keeps_version_id (S3File._call_s3 _) => apply keeps_call_s3
  | |- keeps_version_id (if ?b then _ else _) => destruct b
  | |- keeps_version_id (match ?x with _ => _ end) => destruct x
  | |- keeps_version_id (let '(_, _) := ?x in _) => destruct x
  end.

Ltac keep := repeat keep_step.

Section HandleVersion.
Context `{Client}.
Variable lsc : gmap string (list entry) -> string -> exn + option (list entry).

Lemma initiate_upload_keeps : keeps_version_id S3File._initiate_upload.
Proof. unfold S3File._initiate_upload. keep. Qed.

Lemma upload_loop_keeps (fuel : nat) (bucket key : string) (data1 rest : bytes) :
  keeps_version_id (S3File.upload_loop fuel bucket key data1 rest).
Proof.
  revert data1 rest. induction fuel as [|fuel IH]; intros data1 rest.
  - destruct data1; apply keeps_ret.
  - destruct data1 as [|b data1]; [apply keeps_ret|].
    cbn [S3File.upload_loop]. keep. apply IH.
Qed.

(** A flush that is not the final one does not commit, and leaves the
    version id alone. *)
Lemma upload_chunk_keeps : keeps_version_id (S3File._upload_chunk lsc false).
Proof.
  unfold S3File._upload_chunk.
  apply keeps_bind; [apply keeps_self | intros f].
  apply keeps_bind; [apply keeps_on_fs | intros fs].
  destruct (split_path _ _) as [[bucket key] v].
  rewrite andb_false_r. keep. apply upload_loop_keeps.
Qed.

Lemma flush_keeps : keeps_version_id (S3File.flush lsc false).
Proof.
  unfold S3File.flush.
  keep; first [apply initiate_upload_keeps | apply upload_chunk_keeps].
Qed.

Lemma write_keeps (data : bytes) : keeps_version_id (S3File.write lsc data).
Proof. unfold S3File.write, S3File.write_. keep. apply flush_keeps. Qed.

Lemma with_self_keeps {A} (m : M S3File.st A) (f f' : S3File.t) (a : A)
    (fs fs' : S3FileSystem.t) (tr : list event) :
  keeps_version_id m ->
  S3File.with_self f m fs = (inr (a, f'), fs', tr) ->
  S3File.version_id f' = S3File.version_id f.
Proof.
  intros Hm. specialize (Hm (f, fs)). unfold S3File.with_self, state_of in *.
  destruct (m (f, fs)) as [[[e|a'] s'] tr']; [done|].
  intros [= <- <- <- <-]. exact Hm.
Qed.


Ltac run_done :=
  let Heq := fresh "Heq" in
  intros Heq; unfold ret, raise in Heq; cbn beta in Heq; by simplify_eq.

Lemma init_version_id (fs fs' : S3FileSystem.t) (path mode : string)
    (block_size : Z) (acl : string) (v : option string) (autocommit rp : bool)
    (f : S3File.t) (tr : list event) :
  S3File.__init__ lsc path mode block_size acl v autocommit rp fs
  = (inr f, fs', tr) ->
  Py.contains "r" mode = false \/ S3FileSystem.version_aware fs = false
  \/ Py.truthy_opt v = true ->
  _coalesce_version_id [v; (split_path (S3FileSystem.version_aware fs) path).2]
  = inr (S3File.version_id f).
Proof.
  intros Hrun Hcase. revert Hrun. unfold S3File.__init__. rewrite bind_get.
  destruct (split_path _ path) as [[bucket key] pv]. cbn [snd].
  destruct (Py.truthy key); cbn [negb]; [|run_done].
  destruct (_coalesce_version_id [v; pv]) as [e|vid] eqn:Hc; cbn [lift_result];
    [by rewrite bind_raise|].
  rewrite bind_ret.
  destruct (_ && _); [run_done|].
  intros Hrun.
  apply bind_inv in Hrun as ([[vid' det] sz] & fs1 & t1 & t2 & Hsetup & Hrun & _).
  assert (vid' = vid) as ->.
  { revert Hsetup. destruct (Py.contains "r" mode) eqn:Hr; cbn [negb].
    - destruct (Py.truthy_opt v) eqn:Hv; cbn [andb].
      + destruct (S3FileSystem.version_aware fs).
        * intros Hs.
          apply bind_inv in Hs as (d & fs2 & t3 & t4 & _ & Hret & _).
          unfold ret in Hret. assert (vid' = v) as -> by congruence.
          destruct v as [a|]; [|done].
          symmetry. by eapply coalesce_explicit.
        * run_done.
      + destruct (S3FileSystem.version_aware fs).
        * by destruct Hcase as [?|[?|?]].
        * run_done.
    - destruct (bool_decide (block_size < _));
        run_done. }
  clear Hsetup.
  revert Hrun. case_bool_decide as Hmode; cbn [negb]; [|run_done].
  intros Hrun.
  apply bind_inv in Hrun as ([det' sz'] & fs2 & t3 & t4 & _ & Hrun & _).
  apply bind_inv in Hrun as (present & fs3 & t5 & t6 & _ & Hrun & _).
  apply bind_inv in Hrun as (f1 & fs4 & t7 & t8 & Happ & Hfin & _).
  assert (S3File.version_id f1 = vid) as Hf1.
  { revert Happ. destruct present.
    - intros Ha.
      apply bind_inv in Ha as (d & fs5 & t9 & t10 & _ & Ha & _).
      apply bind_inv in Ha as (f2 & fs6 & t11 & t12 & Hw & Hret & _).
      unfold ret in Hret. simplify_eq.
      change (S3File.version_id (S3File.set_loc (e_size d) f2))
        with (S3File.version_id f2).
      revert Hw. case_bool_decide.
      + intros Hw.
        apply bind_inv in Hw as (data & fs7 & t13 & t14 & _ & Hw & _).
        apply bind_inv in Hw as ([z f3] & fs8 & t15 & t16 & Hws & Hret & _).
        unfold ret in Hret. simplify_eq.
        by rewrite (with_self_keeps _ _ _ _ _ _ _ (write_keeps data) Hws).
      + run_done.
    - run_done. }
  revert Hfin. destruct (Py.contains "r" mode).
  - destruct det' as [d|]; [|run_done]. destruct (e_ETag d); run_done.
  - run_done.
Qed.

Lemma init_version_reported (fs fs' : S3FileSystem.t) (path mode : string)
    (block_size : Z) (acl : string) (v : option string) (autocommit rp : bool)
    (f : S3File.t) (tr : list event) :
  S3File.__init__ lsc path mode block_size acl v autocommit rp fs
  = (inr f, fs', tr) ->
  Py.contains "r" mode = true ->
  S3FileSystem.version_aware fs = true ->
  Py.truthy_opt v = false ->
  exists d,
    S3File.details f = Some d /\ S3File.version_id f = e_VersionId d.
Proof.
  intros Hrun Hr Hva Hv. revert Hrun. unfold S3File.__init__. rewrite bind_get.
  destruct (split_path _ path) as [[bucket key] pv].
  destruct (Py.truthy key); cbn [negb]; [|run_done].
  destruct (_coalesce_version_id [v; pv]) as [e|vid] eqn:Hc; cbn [lift_result];
    [by rewrite bind_raise|].
  rewrite bind_ret.
  destruct (_ && _); [run_done|].
  rewrite Hr, Hv, Hva. cbn [negb andb].
  intros Hrun.
  apply bind_inv in Hrun as ([[vid' det] sz] & fs1 & t1 & t2 & Hsetup & Hrun & _).
  apply bind_inv in Hsetup as ([] & fs2 & t3 & t4 & _ & Hsetup & _).
  apply bind_inv in Hsetup as (d & fs3 & t5 & t6 & _ & Hret & _).
  unfold ret in Hret. simplify_eq.
  revert Hrun. case_bool_decide as Hmode; cbn [negb]; [|run_done].
  assert (mode = "rb") as ->.
  { repeat (apply elem_of_cons in Hmode as [->|Hmode]; [try done|]).
    by apply elem_of_nil in Hmode. }
  rewrite bool_decide_eq_true_2 by done.
  change (Py.contains "a" "rb") with false.
  intros Hrun.
  apply bind_inv in Hrun as ([det' sz'] & fs4 & t7 & t8 & Hdet & Hrun & _).
  apply bind_inv in Hdet as (d' & fs5 & t9 & t10 & Hd' & Hdet & _).
  unfold ret in Hd', Hdet. simplify_eq.
  revert Hrun. cbv iota. rewrite !bind_ret. cbv iota.
  destruct (e_ETag d') as [e_tag|]; [|run_done].
  intros Heq. unfold ret in Heq. simplify_eq. by exists d'.
Qed.

(** A handle built with a version id of its own has this version id. *)
Lemma init_explicit_version (fs fs' : S3FileSystem.t) (path mode : string)
    (block_size : Z) (acl a : string) (autocommit rp : bool)
    (f : S3File.t) (tr : list event) :
  S3File.__init__ lsc path mode block_size acl (Some a) autocommit rp fs
  = (inr f, fs', tr) ->
  a <> "" ->
  S3File.version_id f = Some a.
Proof.
  intros Hrun Ha. eapply coalesce_explicit.
  apply (init_version_id _ _ _ _ _ _ _ _ _ _ _ Hrun).
  right. right. unfold Py.truthy_opt, Py.truthy.
  by rewrite bool_decide_eq_false_2.
Qed.

Lemma open_explicit_version (fs fs' : S3FileSystem.t) (path mode : string)
    (block_size : option Z) (acl a : string) (autocommit : bool)
    (rp : option bool) (f : S3File.t) (tr : list event) :
  S3File._open lsc path mode block_size acl (Some a) autocommit rp fs
  = (inr f, fs', tr) ->
  a <> "" ->
  S3File.version_id f = Some a.
Proof.
  unfold S3File._open. rewrite bind_get.
  destruct (_ && _); [run_done|].
  intros Hrun Ha. by eapply init_explicit_version.
Qed.

(** Every ranged get of a handle names the version id of the handle. *)
Lemma fetch_range_sends (f : S3File.t) (fs : S3FileSystem.t) (start end_ : Z) :
  Forall (fun ev =>
            sends_other_version (version_id_kw (S3File.version_id f)) ev = false)
    (trace_of (S3File._fetch_range start end_ (f, fs))).
Proof.
  eapply Forall_impl; [apply fetch_range_events|].
  intros ev [[d ->]|[o ->]]; [done|].
  cbn. by rewrite bool_decide_eq_true_2.
Qed.
End HandleVersion.

(** C10, as stated, fails. On a filesystem that is not version aware,
    [split_path] drops the version id of the path, and [S3File.__init__]
    builds a handle from a path that names the version [v1] and the
    argument [v2], on the key without the marker and with [v2]: no
    [ValueError]. And [_info] answers from the cache without looking at
    the version id: asked for the version [old] of a key that the cached
    listing of its bucket holds, it returns the cached entry, here of
    another version, with no remote call. *)
Lemma version_conflict_unnoticed :
  match S3File.__init__ (H := scripted_client) no_listing "b/k?versionId=v1"
          "wb" (5 * 2 ^ 20) "" (Some "v2") true false (scripted_fs false [] ∅)
  with
  | (inr f, fs', tr) =>
      S3File.key f = "k" /\ S3File.version_id f = Some "v2" /\ tr = []
  | (inl _, _, _) => False
  end
  /\ (let cached :=
        {| e_Key := "b/k"; e_name := "b/k"; e_Size := 3; e_size := 3;
           e_type := "file"; e_StorageClass := "STANDARD";
           e_ETag := Some "etag"; e_LastModified := None;
           e_VersionId := Some "new" |} in
      let fs := scripted_fs true [] {[ "b" := [cached] ]} in
      S3FileSystem._info (H := scripted_client) ls_from_cache "b/k" false
        (Some "old") fs
      = (inr cached, fs, [])).
Proof. split; [by vm_compute | by vm_compute]. Qed.

(** C10, amended. [_coalesce_version_id] fails with [ValueError] on two
    different version ids and returns the one that is given when at most
    one distinct version id is. Where the path names one version id (the
    one a version-aware [split_path] finds) and the argument is another,
    [_info] fails with [ValueError] on every filesystem, [_open] on a
    version-aware one and, when the argument is not empty, on the
    others, and [S3File.__init__] on a version-aware one; the filesystem
    is left as it was and there is no event: no remote call was made.
    The version id that is used: every [head_object] that [_info] sends
    names the coalesced version id, and on a version-aware filesystem
    [_info] on a key that is not answered from the cache starts with
    this [head_object]. A handle has the coalesced version id, but for a
    read handle built without a version id of its own on a version-aware
    filesystem, which takes the version id its details report; a handle
    built or opened with a version id of its own, not empty, has it; and
    every ranged get of a handle names the version id of the handle. *)
Theorem version_ids_coalesced `{Client}
    (lsc : gmap string (list entry) -> string -> exn + option (list entry)) :
  (forall a b : string, a <> b ->
     exists msg, _coalesce_version_id [Some a; Some b] = inl (ValueError msg))
  /\ (forall x y : option string, x = None \/ y = None \/ x = y ->
        _coalesce_version_id [x; y]
        = inr (match x with Some _ => x | None => y end))
  /\ (forall (fs : S3FileSystem.t) (path : string) (refresh : bool)
        (a b : string),
        (split_path true (AbstractFileSystem._strip_protocol path)).2 = Some b ->
        a <> b ->
        exists msg,
          S3FileSystem._info lsc path refresh (Some a) fs
          = (inl (ValueError msg), fs, []))
  /\ (forall (fs : S3FileSystem.t) (path mode : string) (block_size : option Z)
        (acl a b : string) (autocommit : bool) (rp : option bool),
        (split_path true path).2 = Some b ->
        a <> b ->
        S3FileSystem.version_aware fs = true \/ a <> "" ->
        exists msg,
          S3File._open lsc path mode block_size acl (Some a) autocommit rp fs
          = (inl (ValueError msg), fs, []))
  /\ (forall (fs : S3FileSystem.t) (path mode : string) (block_size : Z)
        (acl a b : string) (autocommit rp : bool),
        S3FileSystem.version_aware fs = true ->
        (split_path true path).2 = Some b ->
        a <> b ->
        exists msg,
          S3File.__init__ lsc path mode block_size acl (Some a) autocommit rp fs
          = (inl (ValueError msg), fs, []))
  /\ (forall (fs : S3FileSystem.t) (path : string) (refresh : bool)
        (v vid : option string),
        _coalesce_version_id
          [(split_path (S3FileSystem.version_aware fs)
              (AbstractFileSystem._strip_protocol path)).2; v] = inr vid ->
        Forall (fun ev => sends_other_version (version_id_kw vid) ev = false)
          (trace_of (S3FileSystem._info lsc path refresh v fs)))
  /\ (forall (fs : S3FileSystem.t) (path bucket key : string)
        (pv v vid : option string) (refresh : bool),
        S3FileSystem.version_aware fs = true ->
        (0 < S3FileSystem.retries fs)%nat ->
        split_path true (AbstractFileSystem._strip_protocol path)
        = (bucket, key, pv) ->
        key <> "" ->
        refresh = true
        \/ lsc (S3FileSystem.dircache fs) (AbstractFileSystem._strip_protocol path)
           = inr None ->
        _coalesce_version_id [pv; v] = inr vid ->
        exists o tl,
          trace_of (S3FileSystem._info lsc path refresh v fs)
          = Attempt (head_object bucket key (version_id_kw vid)
                       (S3FileSystem.fs_kwargs fs ++ S3FileSystem.req_kw fs)) o
            :: tl)
  /\ (forall (fs fs' : S3FileSystem.t) (path mode : string) (block_size : Z)
        (acl : string) (v : option string) (autocommit rp : bool)
        (f : S3File.t) (tr : list event),
        S3File.__init__ lsc path mode block_size acl v autocommit rp fs
        = (inr f, fs', tr) ->
        (Py.contains "r" mode = false \/ S3FileSystem.version_aware fs = false
         \/ Py.truthy_opt v = true ->
         _coalesce_version_id
           [v; (split_path (S3FileSystem.version_aware fs) path).2]
         = inr (S3File.version_id f))
        /\ (Py.contains "r" mode = true ->
            S3FileSystem.version_aware fs = true ->
            Py.truthy_opt v = false ->
            exists d,
              S3File.details f = Some d
              /\ S3File.version_id f = e_VersionId d))
  /\ (forall (fs fs' : S3FileSystem.t) (path mode : string) (acl a : string)
        (autocommit : bool) (f : S3File.t) (tr : list event),
        a <> "" ->
        (forall (block_size : Z) (rp : bool),
           S3File.__init__ lsc path mode block_size acl (Some a) autocommit rp fs
           = (inr f, fs', tr) ->
           S3File.version_id f = Some a)
        /\ (forall (block_size : option Z) (rp : option bool),
              S3File._open lsc path mode block_size acl (Some a) autocommit rp fs
              = (inr f, fs', tr) ->
              S3File.version_id f = Some a))
  /\ (forall (f : S3File.t) (fs : S3FileSystem.t) (start end_ : Z),
        Forall (fun ev =>
                  sends_other_version (version_id_kw (S3File.version_id f)) ev
                  = false)
          (trace_of (S3File._fetch_range start end_ (f, fs)))).
Proof.
  split; [|split; [|split; [|split; [|split; [|split; [|split; [|split;
    [|split]]]]]]]].
  - intros a b Hab. rewrite (coalesce_differ _ _ Hab). by eexists.
  - apply coalesce_agree.
  - intros. by eapply info_conflict.
  - intros. by eapply open_conflict.
  - intros. by eapply init_conflict.
  - intros. by apply info_sends.
  - intros. by eapply info_probes_version.
  - intros * Hrun. split.
    + intros Hcase. by eapply init_version_id.
    + intros Hr Hva Hv. by eapply init_version_reported.
  - intros * Ha. split.
    + intros * Hrun. by eapply init_explicit_version.
    + intros * Hrun. by eapply open_explicit_version.
  - intros. apply fetch_range_sends.
Qed.

(** Concrete runs: a conflict on a version-aware filesystem and on one
    that is not, the probe of [_info], and a handle opened on a version
    of its own that reads with it. *)
Example open_conflict_run :
  S3File._open (H := scripted_client) no_listing "b/k?versionId=v1" "rb" None ""
    (Some "v2") true None (scripted_fs true [] ∅)
  = (inl (ValueError "Cannot coalesce version_ids where more than one are defined"),
     scripted_fs true [] ∅, []).
Proof. vm_compute. reflexivity. Qed.

Example info_conflict_run :
  S3FileSystem._info (H := scripted_client) no_listing "b/k?versionId=v1" false
    (Some "v2") (scripted_fs true [] ∅)
  = (inl (ValueError "Cannot coalesce version_ids where more than one are defined"),
     scripted_fs true [] ∅, []).
Proof. vm_compute. reflexivity. Qed.

Example info_unaware_run :
  S3FileSystem._info (H := scripted_client) no_listing "b/k?versionId=v1" false
    (Some "v2") (scripted_fs false [] ∅)
  = (inl (ValueError
       "version_id cannot be specified if the filesystem is not version aware"),
     scripted_fs false [] ∅, []).
Proof. vm_compute. reflexivity. Qed.

Example info_probe_run :
  trace_of (S3FileSystem._info (H := scripted_client) no_listing
              "b/k?versionId=v1" true None (scripted_fs true [] ∅))
  = [Attempt (head_object "b" "k" (Some "v1") []) None].
Proof. vm_compute. reflexivity. Qed.

Example open_version_run :
  let opened := S3File._open (H := scripted_client) no_listing "b/k" "rb" None ""
                  (Some "v1") true None (scripted_fs true [] ∅) in
  match result_of opened with
  | inr f =>
      S3File.version_id f = Some "v1"
      /\ trace_of opened = [Attempt (head_object "b" "k" (Some "v1") []) None]
      /\ trace_of (S3File._fetch_range (H := scripted_client) 0 10
                     (f, state_of opened))
         = [Attempt (get_object "b" "k" (Some (Some 0, Some 9)) (Some "v1")
                       [("IfMatch", "etag")]) None]
  | inl _ => False
  end.
Proof. vm_compute. repeat split. Qed.

(** ** Buckets *)

Lemma avoids_weaken {S A} (P Q : event -> bool) (m : M S A) :
  (forall ev, P ev = false -> Q ev = false) -> avoids P m -> avoids Q m.
Proof. intros HPQ Hm s. eapply Forall_impl; [apply Hm | exact HPQ]. Qed.

Lemma effect_not_invalidate (ev : event) :
  is_effect ev = false -> is_invalidate ev = false.
Proof. unfold is_effect. intros Hev. by apply orb_false_elim in Hev as [_ ?]. Qed.

Lemma effect_not_create_bucket (ev : event) :
  is_effect ev = false -> is_create_bucket ev = false.
Proof.
  unfold is_effect. intros Hev. apply orb_false_elim in Hev as [Hm _].
  destruct ev as [T r o|d|p]; [|done|done]. by destruct r.
Qed.

Section Buckets.
Context `{Client}.
Variable lsc : gmap string (list entry) -> string -> exn + option (list entry).

(** X22: [_lsbuckets] on an anonymous filesystem returns no bucket
    without a remote call and without touching the cache; a cached
    listing of the root is returned as it is, without a remote call,
    unless a refresh is asked for; and a listing that is returned with
    buckets in it is the listing the cache holds for the root
    afterwards. *)
Theorem lsbuckets_cache (fs : S3FileSystem.t) (refresh : bool) :
  (S3FileSystem.anon fs = true ->
   S3FileSystem.dircache fs !! "" = None \/ refresh = true ->
   S3FileSystem._lsbuckets refresh fs = (inr [], fs, []))
  /\ (forall files,
        S3FileSystem.dircache fs !! "" = Some files ->
        S3FileSystem._lsbuckets false fs = (inr files, fs, []))
  /\ (forall files,
        result_of (S3FileSystem._lsbuckets refresh fs) = inr files ->
        files <> [] ->
        S3FileSystem.dircache (state_of (S3FileSystem._lsbuckets refresh fs)) !! ""
        = Some files).
Proof.
  split; [|split].
  - intros Hanon Hc. unfold S3FileSystem._lsbuckets. rewrite bind_get.
    destruct Hc as [Hc | ->].
    + rewrite Hc, (bool_decide_eq_false_2 (is_Some None)) by (by intros [? ?]).
      cbn [negb orb]. by rewrite Hanon.
    + rewrite orb_true_r. by rewrite Hanon.
  - intros files Hc. unfold S3FileSystem._lsbuckets. rewrite bind_get.
    rewrite Hc, (bool_decide_eq_true_2 (is_Some (Some files))) by done.
    reflexivity.
  - intros files. unfold S3FileSystem._lsbuckets. rewrite bind_get.
    destruct (negb (bool_decide (is_Some (S3FileSystem.dircache fs !! "")))
              || refresh).
    + destruct (S3FileSystem.anon fs); [by intros [= <-]|].
      rewrite bind_unfold. unfold try_except. rewrite bind_unfold.
      pose proof (call_s3_frame list_buckets fs) as (Hd & _).
      destruct (S3FileSystem._call_s3 list_buckets fs) as [[[e|names] fs1] tr1];
        unfold state_of, result_of in *; cbn [fst snd] in *.
      * destruct (is_ClientError e); cbn; [by intros [= <-] | done].
      * cbn. intros [= <-] _. apply lookup_insert_eq.
    + destruct (S3FileSystem.dircache fs !! "") as [l|] eqn:Hc; [|done].
      cbn. by intros [= <-].
Qed.

(** X19: [_mkdir] checks before it creates. An empty path is refused
    with [ValueError] without any remote call; with an ACL that is not
    a bucket ACL no [create_bucket] is ever attempted; and the cache is
    invalidated only after [create_bucket] returned: the events of
    every run are events without invalidation, followed either by
    nothing or, when the bucket was created, by the invalidation of
    the root and of the bucket, right after the successful
    [create_bucket]. *)
Theorem mkdir_creates_after_checks (fs : S3FileSystem.t) (path acl : string)
    (create_parents : bool) (region : option string) :
  (Py.rstrip_slash (AbstractFileSystem._strip_protocol path) = "" ->
   S3FileSystem._mkdir lsc path acl create_parents region fs
   = (inl (ValueError ""), fs, []))
  /\ (Py.truthy acl = true -> acl ∉ buck_acls ->
      Forall (fun ev => is_create_bucket ev = false)
        (trace_of (S3FileSystem._mkdir lsc path acl create_parents region fs)))
  /\ (exists tr inv,
        trace_of (S3FileSystem._mkdir lsc path acl create_parents region fs)
        = tr ++ inv
        /\ Forall (fun ev => is_invalidate ev = false) tr
        /\ (inv = []
            \/ (result_of (S3FileSystem._mkdir lsc path acl create_parents region fs)
                = inr tt
                /\ exists tr' bucket region',
                     tr = tr' ++ [Attempt (create_bucket bucket acl region') None]
                     /\ inv = [Invalidate (Some ""); Invalidate (Some bucket)]))).
Proof.
  unfold S3FileSystem._mkdir.
  set (p := Py.rstrip_slash (AbstractFileSystem._strip_protocol path)).
  split; [by intros ->|].
  destruct (Py.truthy p); cbn [negb]; cycle 1.
  { split; [intros _ _; apply Forall_nil_2|]. exists [], []. by repeat split; [|left]. }
  rewrite bind_get.
  destruct (split_path _ p) as [[bucket key] v].
  rewrite bind_trace, bind_result.
  pose proof (proj1 (exists_reads lsc bucket) fs) as Hex.
  destruct (result_of (S3FileSystem._exists lsc bucket fs)) as [e|present].
  { rewrite app_nil_r. split.
    - intros _ _. eapply Forall_impl; [exact Hex | apply effect_not_create_bucket].
    - exists (trace_of (S3FileSystem._exists lsc bucket fs)), [].
      rewrite app_nil_r. split; [done|]. split; [|by left].
      eapply Forall_impl; [exact Hex | apply effect_not_invalidate]. }
  set (fs1 := state_of (S3FileSystem._exists lsc bucket fs)).
  destruct present.
  { assert (trace_of ((if negb (Py.truthy key)
                       then raise FileExistsError else ret tt) fs1) = [])
      as -> by (by destruct (Py.truthy key)).
    rewrite app_nil_r. split.
    - intros _ _. eapply Forall_impl; [exact Hex | apply effect_not_create_bucket].
    - exists (trace_of (S3FileSystem._exists lsc bucket fs)), [].
      rewrite app_nil_r. split; [done|]. split; [|by left].
      eapply Forall_impl; [exact Hex | apply effect_not_invalidate]. }
  destruct (negb (Py.truthy key) || create_parents); cycle 1.
  { pose proof (ls_avoids_effects bucket false false fs1) as Hls.
    rewrite bind_trace.
    assert (match result_of (S3FileSystem._ls bucket false false fs1) with
            | inl _ => []
            | inr a => trace_of (ret tt (state_of (S3FileSystem._ls bucket false false fs1)))
            end = []) as -> by (by destruct (result_of _)).
    rewrite app_nil_r. split.
    - intros _ _. apply Forall_app. split;
        (eapply Forall_impl; [eassumption | apply effect_not_create_bucket]).
    - eexists _, []. rewrite app_nil_r. split; [done|]. split; [|by left].
      apply Forall_app. split;
        (eapply Forall_impl; [eassumption | apply effect_not_invalidate]). }
  destruct (Py.truthy acl && negb (bool_decide (acl ∈ buck_acls))) eqn:Hacl.
  { change (trace_of (raise _ fs1)) with (@nil event). rewrite app_nil_r. split.
    - intros _ _. eapply Forall_impl; [exact Hex | apply effect_not_create_bucket].
    - exists (trace_of (S3FileSystem._exists lsc bucket fs)), [].
      rewrite app_nil_r. split; [done|]. split; [|by left].
      eapply Forall_impl; [exact Hex | apply effect_not_invalidate]. }
  split.
  { intros Ht Hnot. rewrite Ht in Hacl.
    rewrite bool_decide_eq_false_2 in Hacl by done. done. }
  set (r := create_bucket bucket acl
              (if Py.truthy_opt region then region else None)).
  unfold try_except. rewrite bind_unfold.
  pose proof (call_s3_frame r fs1) as (_ & _ & _ & Hni).
  pose proof (call_s3_success_last r fs1) as Hlast.
  destruct (S3FileSystem._call_s3 r fs1) as [[[e|[]] fs2] tr2];
    unfold state_of, trace_of, result_of in *; cbn [fst snd] in *.
  - exists (trace_of (S3FileSystem._exists lsc bucket fs) ++ tr2), [].
    split.
    { destruct (is_ClientError e); [cbn; by rewrite !app_nil_r|].
      destruct (is_ParamValidationError e); cbn; by rewrite !app_nil_r. }
    split; [|by left]. apply Forall_app. split; [|done].
    eapply Forall_impl; [exact Hex | apply effect_not_invalidate].
  - destruct (Hlast tt eq_refl) as [tr' ->].
    exists (trace_of (S3FileSystem._exists lsc bucket fs)
            ++ tr' ++ [Attempt r None]),
           [Invalidate (Some ""); Invalidate (Some bucket)].
    split; [cbn; by rewrite <- !app_assoc|]. split.
    { apply Forall_app. split; [|done].
      eapply Forall_impl; [exact Hex | apply effect_not_invalidate]. }
    right. split; [done|].
    eexists _, bucket, _. split; [|done]. by rewrite app_assoc.
Qed.

(** X20: [_makedirs] with [exist_ok] never fails because the bucket
    exists: the [FileExistsError] of [_mkdir] is swallowed, every other
    error is passed on; without [exist_ok] it is [_mkdir] with
    [create_parents]. It makes the remote calls of that [_mkdir] in
    both cases. *)
Theorem makedirs_exist_ok (fs : S3FileSystem.t) (path : string)
    (region : option string) :
  (forall e,
     result_of (S3FileSystem._makedirs lsc path true region fs) = inl e ->
     is_FileExistsError e = false
     /\ result_of (S3FileSystem._mkdir lsc path "" true region fs) = inl e)
  /\ S3FileSystem._makedirs lsc path false region fs
     = S3FileSystem._mkdir lsc path "" true region fs
  /\ (forall exist_ok,
        trace_of (S3FileSystem._makedirs lsc path exist_ok region fs)
        = trace_of (S3FileSystem._mkdir lsc path "" true region fs)).
Proof.
  unfold S3FileSystem._makedirs, try_except.
  destruct (S3FileSystem._mkdir lsc path "" true region fs)
    as [[[e|[]] fs1] tr1]; unfold result_of, trace_of; cbn [fst snd].
  - split; [|split].
    + intros e'. destruct (is_FileExistsError e) eqn:He; cbn; [done|].
      by intros [= <-].
    + destruct (is_FileExistsError e); cbn; by rewrite app_nil_r.
    + intros exist_ok. destruct (is_FileExistsError e); [destruct exist_ok|];
        cbn; by rewrite app_nil_r.
  - done.
Qed.

(** X21: [_rm_file] deletes one object and does nothing else: its
    events are attempts at the [delete_object] of the key (and the
    sleeps between them); it never invalidates a cache entry and
    leaves the directory cache as it was, also when the object was
    deleted. *)
Theorem rm_file_leaves_cache (fs : S3FileSystem.t) (path : string) :
  Forall (fun ev =>
            (exists d, ev = Sleep d)
            \/ (exists o,
                  ev = Attempt
                         (delete_object
                            (split_path (S3FileSystem.version_aware fs) path).1.1
                            (split_path (S3FileSystem.version_aware fs) path).1.2)
                         o))
    (trace_of (S3FileSystem._rm_file path fs))
  /\ S3FileSystem.dircache (state_of (S3FileSystem._rm_file path fs))
     = S3FileSystem.dircache fs.
Proof.
  unfold S3FileSystem._rm_file. rewrite bind_get.
  destruct (split_path _ path) as [[bucket key] v]. cbn [fst snd]. split.
  - rewrite translating_trace. apply call_s3_events.
  - apply (cache_stable_translating _ (cache_stable_call_s3 _)).
Qed.
End Buckets.

(** ** [_pipe_file] *)

Lemma chunks_concat (fuel n : nat) (data : bytes) :
  (0 < n)%nat -> (length data <= fuel)%nat ->
  concat (S3FileSystem.chunks fuel n data) = data.
Proof.
  intros Hn. revert data. induction fuel as [|fuel IH]; intros data Hlen.
  - destruct data; [done | cbn in Hlen; lia].
  - destruct data as [|x data]; [done|].
    cbn [S3FileSystem.chunks concat]. rewrite IH; [apply take_drop|].
    rewrite length_drop. cbn [length] in *. lia.
Qed.

Lemma chunks_sizes (fuel n : nat) (data : bytes) :
  (0 < n)%nat -> (length data <= fuel)%nat ->
  Forall (fun b => (0 < length b <= n)%nat) (S3FileSystem.chunks fuel n data)
  /\ Forall (fun b => length b = n) (removelast (S3FileSystem.chunks fuel n data)).
Proof.
  intros Hn. revert data. induction fuel as [|fuel IH]; intros data Hlen.
  - destruct data; [by split | cbn in Hlen; lia].
  - destruct data as [|x data]; [by split|].
    cbn [S3FileSystem.chunks].
    destruct (IH (drop n (x :: data))) as [Hall Hinit].
    { rewrite length_drop. cbn [length] in *. lia. }
    split.
    + constructor; [|exact Hall]. rewrite length_take. cbn [length]. lia.
    + cbn [removelast].
      destruct (S3FileSystem.chunks fuel n (drop n (x :: data))) as [|c cs] eqn:Hcs;
        [constructor|].
      constructor; [|exact Hinit].
      rewrite length_take. apply Nat.min_l.
      destruct (decide (n <= length (x :: data))%nat) as [|Hshort]; [done|].
      rewrite drop_ge in Hcs by lia. by destruct fuel.
Qed.

Section PipeFile.
Context `{Client}.

Lemma fs_call_s3_upload_part (bucket key : string) (n : Z) (uid : string)
    (body : bytes) (fs : S3FileSystem.t) out :
  result_of (S3FileSystem._call_s3 (upload_part bucket key n uid body) fs)
  = inr out ->
  uploads (trace_of (S3FileSystem._call_s3 (upload_part bucket key n uid body) fs))
  = [(n, body)].
Proof.
  intros Hout.
  pose proof (call_s3_upload_part bucket key n uid body
                (scripted_file 0 0 None None None false, fs) out) as Hup.
  unfold S3File._call_s3 in Hup. rewrite on_fs_result, on_fs_trace in Hup.
  by apply Hup.
Qed.

(** The uploads of [_pipe_file], when every one returns: the bodies go
    up in order, numbered from [n] on, and nothing is invalidated. *)
Lemma upload_parts_spec (bucket key uid : string) (bodies : list bytes) :
  forall (n : Z) (fs : S3FileSystem.t) (etags : list string),
  result_of (S3FileSystem.upload_parts bucket key uid n bodies fs) = inr etags ->
  uploads (trace_of (S3FileSystem.upload_parts bucket key uid n bodies fs))
  = numbered n bodies
  /\ Forall (fun ev => is_invalidate ev = false)
       (trace_of (S3FileSystem.upload_parts bucket key uid n bodies fs)).
Proof.
  induction bodies as [|body bodies IH]; intros n fs etags Hok; [by split|].
  cbn [S3FileSystem.upload_parts numbered] in *.
  apply bind_ok in Hok as (out & Hcall & Hok & _ & Htr). rewrite Htr. clear Htr.
  apply bind_ok in Hok as (outs & Hrest & _ & _ & Htr). rewrite Htr. clear Htr.
  change (trace_of (ret _ _)) with (@nil event). rewrite app_nil_r.
  destruct (IH _ _ _ Hrest) as [Hup Hni].
  rewrite uploads_app, Hup, (fs_call_s3_upload_part _ _ _ _ _ _ _ Hcall).
  split; [done|]. apply Forall_app. split; [|done].
  apply call_s3_frame.
Qed.

(** X17: [_pipe_file] sends data below the threshold (less than twice
    the chunk size and less than 5 GiB) in one [put_object] whose body
    is the data, and returns early: the events are those of this one
    call, no cache entry is invalidated, and the directory cache is as
    it was, also when the object was written. *)
Theorem pipe_file_single_put (fs : S3FileSystem.t) (path : string)
    (data : bytes) (chunksize : Z) (kw : kwargs) :
  Z.of_nat (length data) < Z.min (5 * 2 ^ 30) (2 * chunksize) ->
  trace_of (S3FileSystem._pipe_file path data chunksize kw fs)
  = trace_of (S3FileSystem._call_s3
                (put_object (split_path (S3FileSystem.version_aware fs) path).1.1
                   (split_path (S3FileSystem.version_aware fs) path).1.2
                   (Some data) kw) fs)
  /\ Forall (fun ev => is_invalidate ev = false)
       (trace_of (S3FileSystem._pipe_file path data chunksize kw fs))
  /\ S3FileSystem.dircache (state_of (S3FileSystem._pipe_file path data chunksize kw fs))
     = S3FileSystem.dircache fs.
Proof.
  intros Hsmall. unfold S3FileSystem._pipe_file. rewrite bind_get.
  destruct (split_path _ path) as [[bucket key] v]. cbn [fst snd].
  rewrite (proj2 (Z.ltb_lt _ _) Hsmall).
  rewrite bind_trace, bind_state.
  pose proof (call_s3_frame (put_object bucket key (Some data) kw) fs)
    as (Hd & _ & _ & Hni).
  destruct (result_of (S3FileSystem._call_s3 _ fs)); rewrite app_nil_r; done.
Qed.

(** X18: [_pipe_file] sends data at or above the threshold as a
    multipart upload in chunks. When it returns, the parts uploaded are
    numbered from 1 in the order of their upload, their bodies
    concatenated in that order are exactly the data, every part but the
    last holds exactly [chunksize] bytes and no part is empty or
    larger; the cache entry of the path is invalidated once, as the
    last event of the run. *)
Theorem pipe_file_multipart (fs : S3FileSystem.t) (path : string)
    (data : bytes) (chunksize : Z) (kw : kwargs) (out : option write_result) :
  0 < chunksize ->
  Z.min (5 * 2 ^ 30) (2 * chunksize) <= Z.of_nat (length data) ->
  result_of (S3FileSystem._pipe_file path data chunksize kw fs) = inr out ->
  out = None
  /\ uploads (trace_of (S3FileSystem._pipe_file path data chunksize kw fs))
     = numbered 1
         (map snd (uploads
            (trace_of (S3FileSystem._pipe_file path data chunksize kw fs))))
  /\ concat (map snd (uploads
       (trace_of (S3FileSystem._pipe_file path data chunksize kw fs))))
     = data
  /\ Forall (fun b => 0 < Z.of_nat (length b) <= chunksize)
       (map snd (uploads
          (trace_of (S3FileSystem._pipe_file path data chunksize kw fs))))
  /\ Forall (fun b => Z.of_nat (length b) = chunksize)
       (removelast (map snd (uploads
          (trace_of (S3FileSystem._pipe_file path data chunksize kw fs)))))
  /\ (exists tr,
        trace_of (S3FileSystem._pipe_file path data chunksize kw fs)
        = tr ++ [Invalidate (Some path)]
        /\ Forall (fun ev => is_invalidate ev = false) tr).
Proof.
  intros Hpos Hbig. unfold S3FileSystem._pipe_file. rewrite bind_get.
  destruct (split_path _ path) as [[bucket key] v].
  rewrite (proj2 (Z.ltb_ge _ _) Hbig).
  unfold S3FileSystem.pipe_chunks.
  rewrite (bool_decide_eq_false_2 (chunksize = 0)) by lia.
  rewrite (bool_decide_eq_false_2 (chunksize < 0)) by lia.
  cbn [lift_result].
  set (bodies := S3FileSystem.chunks (length data) (Z.to_nat chunksize) data).
  intros Hok.
  apply bind_ok in Hok as (uid & Hcreate & Hok & _ & Htr). rewrite Htr. clear Htr.
  rewrite bind_ret in *.
  apply bind_ok in Hok as (etags & Hparts & Hok & _ & Htr). rewrite Htr. clear Htr.
  apply bind_ok in Hok as (wr & Hcomplete & Hok & _ & Htr). rewrite Htr. clear Htr.
  apply bind_ok in Hok as ([] & _ & Hok & _ & Htr). rewrite Htr. clear Htr.
  injection Hok as <-.
  change (trace_of (ret None _)) with (@nil event). rewrite app_nil_r.
  change (trace_of (S3FileSystem.invalidate_cache (Some path) _))
    with [Invalidate (Some path)].
  destruct (upload_parts_spec _ _ _ _ _ _ _ Hparts) as [Hup Hni].
  assert (uploads
            (trace_of (S3FileSystem._call_s3
                         (create_multipart_upload bucket key kw) fs)
             ++ trace_of (S3FileSystem.upload_parts bucket key uid 1 bodies
                            (state_of (S3FileSystem._call_s3
                               (create_multipart_upload bucket key kw) fs)))
             ++ trace_of (S3FileSystem._call_s3
                            (complete_multipart_upload bucket key uid
                               (S3FileSystem.number_parts 1 etags))
                            (state_of (S3FileSystem.upload_parts bucket key uid 1
                               bodies
                               (state_of (S3FileSystem._call_s3
                                  (create_multipart_upload bucket key kw) fs)))))
             ++ [Invalidate (Some path)])
          = numbered 1 bodies) as Hups.
  { rewrite !uploads_app, Hup.
    rewrite (quiet_call_s3 (create_multipart_upload bucket key kw))
      by (intros []; reflexivity).
    rewrite (quiet_call_s3 (complete_multipart_upload bucket key uid _))
      by (intros []; reflexivity).
    cbn. by rewrite app_nil_r. }
  rewrite Hups, numbered_bodies.
  destruct (chunks_sizes (length data) (Z.to_nat chunksize) data) as [Hall Hinit];
    [lia | done |].
  split; [done|]. split; [done|].
  split; [apply chunks_concat; [lia | done]|].
  split; [eapply Forall_impl; [exact Hall|]; cbn; intros b Hb; lia|].
  split; [eapply Forall_impl; [exact Hinit|]; cbn; intros b Hb; lia|].
  eexists. split; [by rewrite !app_assoc|].
  repeat (apply Forall_app; split); [apply call_s3_frame | exact Hni |
                                     apply call_s3_frame].
Qed.

End PipeFile.

Lemma pipe_file_single_put_witness :
  trace_of (S3FileSystem._pipe_file (H := scripted_client) "bucket/key"
              [Byte.x61; Byte.x62] 2 [] (scripted_fs false [] ∅))
  = trace_of (S3FileSystem._call_s3 (H := scripted_client)
                (put_object
                   (split_path (S3FileSystem.version_aware (scripted_fs false [] ∅))
                      "bucket/key").1.1
                   (split_path (S3FileSystem.version_aware (scripted_fs false [] ∅))
                      "bucket/key").1.2
                   (Some [Byte.x61; Byte.x62]) [])
                (scripted_fs false [] ∅))
  /\ Forall (fun ev => is_invalidate ev = false)
       (trace_of (S3FileSystem._pipe_file (H := scripted_client) "bucket/key"
                    [Byte.x61; Byte.x62] 2 [] (scripted_fs false [] ∅)))
  /\ S3FileSystem.dircache
       (state_of (S3FileSystem._pipe_file (H := scripted_client) "bucket/key"
                    [Byte.x61; Byte.x62] 2 [] (scripted_fs false [] ∅)))
     = S3FileSystem.dircache (scripted_fs false [] ∅).
Proof.
  apply (pipe_file_single_put (H := scripted_client)). reflexivity.
Defined.

Lemma pipe_file_multipart_witness :
  exists tr,
    trace_of (S3FileSystem._pipe_file (H := scripted_client) "bucket/key"
                [Byte.x61; Byte.x62; Byte.x63; Byte.x64; Byte.x65] 2 []
                (scripted_fs false [] ∅))
    = tr ++ [Invalidate (Some "bucket/key")]
    /\ Forall (fun ev => is_invalidate ev = false) tr.
Proof.
  apply (pipe_file_multipart (H := scripted_client) (scripted_fs false [] ∅)
           "bucket/key" [Byte.x61; Byte.x62; Byte.x63; Byte.x64; Byte.x65]
           2 [] None); [reflexivity | discriminate | reflexivity].
Defined.

(** The run of the witness: five bytes in chunks of two. *)
Example pipe_file_run :
  uploads (trace_of (S3FileSystem._pipe_file (H := scripted_client) "bucket/key"
                       [Byte.x61; Byte.x62; Byte.x63; Byte.x64; Byte.x65] 2 []
                       (scripted_fs false [] ∅)))
  = [(1, [Byte.x61; Byte.x62]); (2, [Byte.x63; Byte.x64]); (3, [Byte.x65])].
Proof. vm_compute. reflexivity. Qed.

(** ** A small file goes up in one request *)

Section OneShot.
Context `{Client}.
Variable lsc : gmap string (list entry) -> string -> exn + option (list entry).

(** Writes that do not fill a block only fill the buffer. *)
Lemma write_all_small (ws : list bytes) :
  forall (f : S3File.t) (fs : S3FileSystem.t) (buf : bytes),
  (S3File.mode f = "wb" \/ S3File.mode f = "ab") ->
  S3File.closed f = false -> S3File.forced f = false ->
  S3File.buffer f = Some buf ->
  Z.of_nat (length buf) + Z.of_nat (length (concat ws)) < S3File.blocksize f ->
  S3File.write_all lsc ws (f, fs)
  = (inr tt,
     (S3File.set_loc (S3File.loc f + Z.of_nat (length (concat ws)))
        (S3File.set_buffer (Some (buf ++ concat ws)) f), fs),
     []).
Proof.
  induction ws as [|w ws IH]; intros f fs buf Hmode Hcl Hfo Hbuf Hsmall.
  - cbn. rewrite Z.add_0_r, app_nil_r. destruct f; cbn in *; by subst.
  - unfold S3File.write_all in *. cbn [for_each concat] in *.
    rewrite length_app, Nat2Z.inj_add in Hsmall.
    assert (S3File.write lsc w (f, fs)
            = (inr (Z.of_nat (length w)),
               (S3File.set_loc (S3File.loc f + Z.of_nat (length w))
                  (S3File.set_buffer (Some (buf ++ w)) f), fs), [])) as Hw.
    { unfold S3File.write, S3File.write_. rewrite bind_self. cbn [fst].
      assert (negb (bool_decide (S3File.mode f = "wb")
                    || bool_decide (S3File.mode f = "ab")) = false) as ->
        by (destruct Hmode as [-> | ->]; reflexivity).
      rewrite Hcl, Hfo, Hbuf, !bind_update. cbn [fst snd].
      rewrite bool_decide_eq_false_2 by (rewrite length_app; lia).
      by rewrite !bind_ret. }
    rewrite bind_unfold, bind_unfold, Hw. cbv iota beta.
    unfold ret at 1. cbv iota beta. cbn [app].
    rewrite (IH _ fs (buf ++ w)); try done.
    + cbv iota beta. cbn [app S3File.loc S3File.set_loc S3File.set_buffer].
      rewrite length_app, Nat2Z.inj_add, Z.add_assoc, <- app_assoc.
      reflexivity.
    + change (Z.of_nat (length (buf ++ w)) + Z.of_nat (length (concat ws))
              < S3File.blocksize f).
      rewrite length_app. lia.
Qed.

(** The final flush of a small file: the session is not opened, and
    the flush is the commit. *)
Lemma flush_one_shot (f : S3File.t) (fs : S3FileSystem.t) (data : bytes) :
  (S3File.mode f = "wb" \/ S3File.mode f = "ab") ->
  S3File.closed f = false -> S3File.forced f = false ->
  S3File.offset f = None -> S3File.buffer f = Some data ->
  S3File.autocommit f = true -> S3File.append_block f = false ->
  S3File.loc f < S3File.blocksize f ->
  trace_of (S3File.flush lsc true (f, fs))
  = trace_of (S3File.commit lsc
                (S3File.set_offset (Some 0) (S3File.set_forced true f), fs))
  /\ (forall e,
        result_of (S3File.flush lsc true (f, fs)) = inl e <->
        result_of (S3File.commit lsc
                     (S3File.set_offset (Some 0) (S3File.set_forced true f), fs))
        = inl e).
Proof.
  intros Hmode Hcl Hfo Hoff Hbuf Hauto Happ Hloc.
  set (f2 := S3File.set_offset (Some 0) (S3File.set_forced true f)).
  assert (S3File._initiate_upload (f2, fs) = (inr tt, (f2, fs), [])) as Hinit.
  { unfold S3File._initiate_upload. rewrite bind_self. cbn [fst].
    change (S3File.autocommit f2) with (S3File.autocommit f).
    change (S3File.append_block f2) with (S3File.append_block f).
    change (S3File.tell f2) with (S3File.loc f).
    change (S3File.blocksize f2) with (S3File.blocksize f).
    rewrite Hauto, Happ, bool_decide_eq_true_2 by done. reflexivity. }
  assert (S3File._upload_chunk lsc true (f2, fs)
          = bind (S3File.commit lsc) (fun _ => ret false) (f2, fs)) as Hchunk.
  { unfold S3File._upload_chunk. rewrite bind_self, bind_on_fs_get.
    cbn [fst snd]. destruct (split_path _ _) as [[bucket key] v].
    unfold S3File.one_shot.
    change (S3File.autocommit f2) with (S3File.autocommit f).
    change (S3File.append_block f2) with (S3File.append_block f).
    change (S3File.tell f2) with (S3File.loc f).
    change (S3File.blocksize f2) with (S3File.blocksize f).
    change (S3File.buffer f2) with (S3File.buffer f).
    rewrite Hauto, Happ, Hbuf, bool_decide_eq_true_2 by done.
    cbn [negb andb]. by rewrite !bind_ret. }
  assert (S3File.flush lsc true (f, fs)
          = (match result_of (S3File.commit lsc (f2, fs)) with
             | inl e => inl e
             | inr _ => inr tt
             end,
             state_of (S3File.commit lsc (f2, fs)),
             trace_of (S3File.commit lsc (f2, fs)))) as Hrun.
  { unfold S3File.flush. rewrite bind_self. cbn [fst].
    rewrite Hcl, Hfo. cbn [andb]. rewrite bind_update. cbn [fst snd].
    assert (negb (bool_decide (S3File.mode f = "wb")
                  || bool_decide (S3File.mode f = "ab")) = false) as ->
      by (destruct Hmode as [-> | ->]; reflexivity).
    rewrite Hbuf, Hoff. cbn [negb andb].
    rewrite bind_unfold, bind_update. cbn [fst snd]. fold f2.
    unfold try_except at 1. rewrite Hinit. cbv iota beta.
    rewrite bind_unfold, Hchunk, bind_unfold.
    destruct (S3File.commit lsc (f2, fs)) as [[[e|[]] s'] tr];
      unfold trace_of, result_of, state_of; cbn; by rewrite ?app_nil_r. }
  rewrite Hrun. split; [reflexivity|]. intros e.
  change (result_of (?a, ?b, ?c)) with a.
  destruct (result_of (S3File.commit lsc (f2, fs))); split; congruence.
Qed.

(** The events of [commit] for a handle that holds written bytes and
    no recorded part: the [put_object] of the buffer, then
    invalidations. *)
Lemma commit_put_trace (f : S3File.t) (fs : S3FileSystem.t) (data : bytes) :
  S3File.loc f <> 0 -> S3File.parts f = None -> S3File.buffer f = Some data ->
  exists inv,
    trace_of (S3File.commit lsc (f, fs))
    = trace_of (S3FileSystem._call_s3
                  (put_object (S3File.bucket f) (S3File.key f) (Some data)
                     (S3File.kwargs_ f)) fs)
      ++ inv
    /\ Forall (fun ev => is_invalidate ev = true) inv.
Proof.
  intros Hloc Hps Hbuf. unfold S3File.commit.
  rewrite bind_self, bind_on_fs_get. cbn [fst snd].
  rewrite (bool_decide_eq_false_2 (S3File.tell f = 0)) by done.
  rewrite Hps. cbn [default].
  rewrite (bool_decide_eq_true_2 ([] = [])) by done. rewrite Hbuf.
  destruct (commit_after_write
              (let* wr := S3File._call_s3
                            (put_object (S3File.bucket f) (S3File.key f)
                               (Some data) (S3File.kwargs_ f)) in
               ret (Some wr))
              (S3File._call_s3
                 (put_object (S3File.bucket f) (S3File.key f) (Some data)
                    (S3File.kwargs_ f)))
              f fs (f, fs)) as (inv & Htr & Hinv & _).
  - rewrite bind_trace. destruct (result_of _); by rewrite app_nil_r.
  - intros e He. by rewrite bind_result, He.
  - exists inv. split; [|done]. etransitivity; [exact Htr|].
    unfold S3File._call_s3. by rewrite on_fs_trace.
Qed.

(** X16: a small file is sent in one request. On a handle opened for
    writing with [autocommit], not in append mode, writes that stay
    below one block followed by the close of the handle make the
    remote calls of one [put_object], with all the bytes as the body,
    and nothing else but cache invalidations: no multipart session is
    opened and no part is uploaded. *)
Theorem small_file_one_put (f : S3File.t) (fs : S3FileSystem.t)
    (buf0 : bytes) (ws : list bytes) :
  S3File.opened_for_writing f buf0 ->
  S3File.autocommit f = true -> S3File.append_block f = false ->
  0 < S3File.loc f + Z.of_nat (length (concat ws)) < S3File.blocksize f ->
  exists inv,
    trace_of (S3File.write_then_close lsc ws (f, fs))
    = trace_of (S3FileSystem._call_s3
                  (put_object (S3File.bucket f) (S3File.key f)
                     (Some (buf0 ++ concat ws)) (S3File.kwargs_ f)) fs)
      ++ inv
    /\ Forall (fun ev => is_invalidate ev = true) inv.
Proof.
  intros (Hmode & Hcl & Hfo & Hoff & Hmpu & Hps & Hbuf & Hsmall & Hloc)
         Hauto Happ Htotal.
  unfold S3File.write_then_close. rewrite bind_unfold.
  rewrite (write_all_small ws f fs buf0) by (try done; lia).
  cbv iota beta. cbn [app].
  set (f1 := S3File.set_loc _ _).
  assert (exists inv,
            trace_of (S3File.close lsc (f1, fs))
            = trace_of (S3FileSystem._call_s3
                          (put_object (S3File.bucket f) (S3File.key f)
                             (Some (buf0 ++ concat ws)) (S3File.kwargs_ f)) fs)
              ++ inv
            /\ Forall (fun ev => is_invalidate ev = true) inv) as (inv & Htr & Hinv).
  { assert (S3File.loc f1 < S3File.blocksize f1) as Hloc1
      by (change (S3File.loc f + Z.of_nat (length (concat ws))
                  < S3File.blocksize f); lia).
    assert (S3File.loc (S3File.set_offset (Some 0) (S3File.set_forced true f1))
            <> 0) as Hloc2
      by (change (S3File.loc f + Z.of_nat (length (concat ws)) <> 0); lia).
    destruct (flush_one_shot f1 fs (buf0 ++ concat ws)
                Hmode Hcl Hfo Hoff eq_refl Hauto Happ Hloc1) as [Hft Hfr].
    destruct (commit_put_trace
                (S3File.set_offset (Some 0) (S3File.set_forced true f1)) fs
                (buf0 ++ concat ws) Hloc2 Hps eq_refl) as (inv & Hct & Hinv).
    unfold S3File.close. rewrite bind_self. cbn [fst].
    change (S3File.closed f1) with (S3File.closed f).
    change (S3File.forced f1) with (S3File.forced f).
    change (S3File.mode f1) with (S3File.mode f).
    rewrite Hcl, Hfo.
    assert (bool_decide (S3File.mode f = "rb") = false) as ->
      by (destruct Hmode as [-> | ->]; reflexivity).
    cbn [negb]. rewrite !bind_trace, Hft, Hct.
    destruct (result_of (S3File.flush lsc true (f1, fs))) as [e|[]] eqn:Hres.
    - rewrite !bind_result, Hres. exists inv. by rewrite !app_nil_r.
    - rewrite !bind_result, Hres.
      eexists. rewrite <- !app_assoc. split; [reflexivity|].
      apply Forall_app. split; [done|].
      rewrite !on_fs_trace, !on_fs_result.
      change (result_of (S3FileSystem.invalidate_cache _ _))
        with (inr tt : exn + unit).
      cbv iota.
      change (S3FileSystem.invalidate_cache (Some (S3File.path f1)))
        with (S3FileSystem.invalidate_cache (Some (S3File.path f))).
      unfold S3FileSystem.invalidate_cache at 1 2.
      rewrite !bind_trace. cbn.
      repeat first [apply Forall_nil_2 | apply Forall_cons_2; [done|]]. }
  destruct (S3File.close lsc (f1, fs)) as [[r s'] tr]. unfold trace_of in *.
  cbn [fst snd] in *. by exists inv.
Qed.
End OneShot.

Lemma small_file_one_put_witness :
  exists inv,
    trace_of (S3File.write_then_close (H := scripted_client) no_listing
                [[Byte.x61]; [Byte.x62; Byte.x63]]
                (scripted_file (5 * 2 ^ 20) 0 (Some []) None None true,
                 scripted_fs false [] ∅))
    = trace_of (S3FileSystem._call_s3 (H := scripted_client)
                  (put_object
                     (S3File.bucket (scripted_file (5 * 2 ^ 20) 0 (Some []) None None true))
                     (S3File.key (scripted_file (5 * 2 ^ 20) 0 (Some []) None None true))
                     (Some ([] ++ concat [[Byte.x61]; [Byte.x62; Byte.x63]]))
                     (S3File.kwargs_ (scripted_file (5 * 2 ^ 20) 0 (Some []) None None true)))
                  (scripted_fs false [] ∅))
      ++ inv
    /\ Forall (fun ev => is_invalidate ev = true) inv.
Proof.
  apply (small_file_one_put (H := scripted_client) no_listing
           (scripted_file (5 * 2 ^ 20) 0 (Some []) None None true)
           (scripted_fs false [] ∅) [] [[Byte.x61]; [Byte.x62; Byte.x63]]).
  - repeat split; try reflexivity; try discriminate. by left.
  - reflexivity.
  - reflexivity.
  - split; reflexivity.
Defined.

(** The run of the witness. *)
Example small_file_run :
  trace_of (S3File.write_then_close (H := scripted_client) no_listing
              [[Byte.x61]; [Byte.x62; Byte.x63]]
              (scripted_file (5 * 2 ^ 20) 0 (Some []) None None true,
               scripted_fs false [] ∅))
  = [Attempt (put_object "bucket" "key" (Some [Byte.x61; Byte.x62; Byte.x63]) []) None;
     Invalidate (Some "bucket/key"); Invalidate (Some "bucket")].
Proof. vm_compute. reflexivity. Qed.

(** ** [_find] with a prefix *)

Section FindPrefix.
Context `{Client}.
Variable lsc : gmap string (list entry) -> string -> exn + option (list entry).
Variable super_find :
  string -> Z -> bool -> bool -> M S3FileSystem.t S3FileSystem.find_result.

(** A listing without delimiter leaves the cache alone. *)
Lemma lsdir_flat_cache_stable (path : string) (refresh : bool)
    (max_items : option Z) (prefix : string) :
  cache_stable (S3FileSystem._lsdir path refresh max_items "" prefix).
Proof.
  intros fs.
  pose proof (lsdir_dircache fs path refresh max_items "" prefix) as Hd.
  cbv zeta in Hd. by destruct (result_of _).
Qed.

(** X23: [_find] with a prefix never writes to the directory cache,
    whatever it finds and whether it fails or not; and it refuses a
    prefix together with [withdirs] or a depth bound, with
    [ValueError] and without a remote call. *)
Theorem find_with_prefix (fs : S3FileSystem.t) (path : string)
    (maxdepth : option Z) (withdirs detail : bool) (prefix : string) :
  prefix <> "" ->
  S3FileSystem.dircache
    (state_of (S3FileSystem._find lsc super_find path maxdepth withdirs detail
                 prefix fs))
  = S3FileSystem.dircache fs
  /\ ((split_path (S3FileSystem.version_aware fs)
         (AbstractFileSystem._strip_protocol path)).1.1 <> "" ->
      withdirs = true \/ (exists n, maxdepth = Some n /\ n <> 0) ->
      S3FileSystem._find lsc super_find path maxdepth withdirs detail prefix fs
      = (inl (ValueError
           "Can not specify 'prefix' option alongside 'withdirs'/'maxdepth' options."),
         fs, [])).
Proof.
  intros Hp.
  assert (Py.truthy prefix = true) as Ht
    by (unfold Py.truthy; by rewrite bool_decide_eq_false_2).
  split.
  - revert fs. change (cache_stable
      (S3FileSystem._find lsc super_find path maxdepth withdirs detail prefix)).
    unfold S3FileSystem._find. rewrite Ht.
    destruct withdirs;
      [|destruct maxdepth as [n|];
        [destruct (decide (n = 0)) as [->|Hn];
          [rewrite (bool_decide_eq_false_2 (0 ≠ 0)) by (by intros ?)
          |rewrite (bool_decide_eq_true_2 (n ≠ 0)) by done]|]];
      cbn [orb andb negb]; stable;
      first [apply lsdir_flat_cache_stable | apply info_reads].
  - intros Hb Hdeep. unfold S3FileSystem._find. rewrite bind_get, Ht.
    destruct (split_path _ _) as [[bucket key] v]. cbn [fst] in Hb.
    assert (Py.truthy bucket = true) as ->
      by (unfold Py.truthy; by rewrite bool_decide_eq_false_2).
    cbn [negb]. destruct Hdeep as [-> | (n & -> & Hn)]; [done|].
    rewrite (bool_decide_eq_true_2 (n ≠ 0)) by done.
    by rewrite orb_true_r.
Qed.
End FindPrefix.

Lemma find_with_prefix_witness :
  S3FileSystem.dircache
    (state_of (S3FileSystem._find (H := scripted_client) no_listing
                 (fun _ _ _ _ => ret (S3FileSystem.FindNames []))
                 "bucket/dir" None false false "part-" (scripted_fs false [] ∅)))
  = S3FileSystem.dircache (scripted_fs false [] ∅).
Proof.
  apply (find_with_prefix (H := scripted_client) no_listing
           (fun _ _ _ _ => ret (S3FileSystem.FindNames []))
           (scripted_fs false [] ∅) "bucket/dir" None false false "part-").
  discriminate.
Defined.

(** ** Flushes, commit and discard *)

Section Session.
Context `{Client}.
Variable lsc : gmap string (list entry) -> string -> exn + option (list entry).

Lemma avoids_file_call_s3 (P : event -> bool) {T} (r : request T) :
  (forall d, P (Sleep d) = false) -> (forall o, P (Attempt r o) = false) ->
  avoids P (S3File._call_s3 r).
Proof.
  intros Hs Hr. unfold S3File._call_s3. by apply avoids_on_fs, avoids_call_s3.
Qed.

Lemma upload_loop_only_uploads (bucket key : string) (fuel : nat) :
  forall data1 rest : bytes,
  avoids (fun ev => negb (is_part_upload ev))
    (S3File.upload_loop fuel bucket key data1 rest).
Proof.
  induction fuel as [|fuel IH]; intros data1 rest.
  - destruct data1; apply avoids_ret.
  - destruct data1 as [|x data1]; [apply avoids_ret|].
    cbn [S3File.upload_loop]. avoid; try apply IH.
    all: apply avoids_file_call_s3; [done | by intros []].
Qed.

(** X24: a flush that is not the final one only uploads parts: every
    event of [_upload_chunk] without [final] is an attempt at
    [upload_part] or the sleep before a retry. It neither completes nor
    aborts the session, writes no object in one request and
    invalidates no cache entry. *)
Theorem upload_chunk_only_uploads :
  avoids (fun ev => negb (is_part_upload ev)) (S3File._upload_chunk lsc false).
Proof.
  unfold S3File._upload_chunk.
  apply avoids_bind; [apply avoids_self | intros f].
  apply avoids_bind; [apply avoids_on_fs, avoids_get | intros fs].
  destruct (split_path _ _) as [[bucket key] v].
  rewrite andb_false_r. avoid. apply upload_loop_only_uploads.
Qed.

Lemma abort_mpu_clears_session (s : S3File.st) :
  result_of (S3File._abort_mpu s) = inr tt ->
  S3File.mpu (state_of (S3File._abort_mpu s)).1 = None.
Proof.
  destruct s as [f fs]. unfold S3File._abort_mpu. rewrite bind_self. cbn [fst].
  destruct (S3File.mpu f) as [uid|] eqn:Hmpu; [|done].
  intros Hok. apply bind_ok in Hok as ([] & _ & _ & Hst & _). by rewrite Hst.
Qed.

Lemma commit_invalidate_no_mutation (ps : list string) :
  forall path, avoids is_mutation (S3File.commit_invalidate path ps).
Proof.
  induction ps as [|p ps IH]; intros path;
    cbn [S3File.commit_invalidate]; [apply avoids_ret|].
  avoid; first [by apply avoids_invalidate_cache | apply IH].
Qed.

(** X25: a handle that was discarded is never written by a later
    [commit]. When [discard] returns, the handle holds neither a buffer
    nor a session, and on such a handle no run of [commit] invokes a
    client method that changes the object store. *)
Theorem commit_after_discard (s : S3File.st) :
  (result_of (S3File.discard s) = inr tt ->
   S3File.buffer (state_of (S3File.discard s)).1 = None
   /\ S3File.mpu (state_of (S3File.discard s)).1 = None)
  /\ (forall (f : S3File.t) (fs : S3FileSystem.t),
        S3File.buffer f = None -> S3File.mpu f = None ->
        Forall (fun ev => is_mutation ev = false)
          (trace_of (S3File.commit lsc (f, fs)))).
Proof.
  split.
  - unfold S3File.discard. intros Hok.
    apply bind_ok in Hok as ([] & Habort & _ & Hst & _). rewrite Hst.
    pose proof (abort_mpu_clears_session s Habort) as Hmpu.
    by destruct (state_of (S3File._abort_mpu s)) as [f1 fs1].
  - intros f fs Hbuf Hmpu. unfold S3File.commit.
    rewrite bind_self, bind_on_fs_get. cbn [fst snd]. rewrite Hbuf, Hmpu.
    assert (forall wr, avoids is_mutation (S3File.commit_rest f fs wr)) as Hrest.
    { intros wr. unfold S3File.commit_rest. avoid.
      apply commit_invalidate_no_mutation. }
    rewrite bind_trace. apply Forall_app. split.
    + repeat case_bool_decide; rewrite ?bind_raise; apply Forall_nil_2.
    + destruct (result_of _); [apply Forall_nil_2 | apply Hrest].
Qed.
End Session.
